(** * CloudWatch OTLP tag enricher: a shallow embedding of [main.go]

    The pure parts of the Lambda (label construction, statistic expansion,
    configuration parsing) are Rocq functions; the parts that touch the file
    cache, the clock and the tagging client thread an explicit world through
    a small state-and-error monad.  Go's [float64] is Rocq's primitive
    binary64 float, Go strings and byte slices are [string]s (sequences of
    bytes), Go maps are [gmap]s.

    Of what the program imports, Go's [strings], [fmt], [encoding/binary]
    and [io], and the framing of [pbutil], are modelled after their
    documented behaviour.  The other packages (protobuf's [Marshal] and
    [Unmarshal], [encoding/json], YACE's promutil, model, maxdimassociator,
    config and tagging) are interfaces, given as type classes, and the
    statements hold for every instance; [Sample] has instances to run the
    functions on inputs. *)

From Stdlib Require Import Floats ZArith Ascii String Strings.Byte ZifyBool.
From stdpp Require Import gmap strings list pretty.

Set Warnings "-inexact-float".
Local Open Scope string_scope.
Local Open Scope list_scope.

(* ===================================================================== *)
(** * Go's [strings] package, on byte strings                              *)
(* ===================================================================== *)

Module strings.

(** [s[:n]] and [s[n:]]. *)
Fixpoint take (n : nat) (s : string) : string :=
  match n, s with
  | S n', String c s' => String c (take n' s')
  | _, _ => ""
  end.

Fixpoint drop (n : nat) (s : string) : string :=
  match n, s with
  | S n', String _ s' => drop n' s'
  | _, _ => s
  end.

Fixpoint HasPrefix (s prefix : string) : bool :=
  match prefix, s with
  | "", _ => true
  | String p prefix', String c s' =>
      if Ascii.eqb c p then HasPrefix s' prefix' else false
  | String _ _, "" => false
  end.

(** [strings.Index]: the position of the first instance of [sep] in [s],
    [None] where Go returns [-1]. *)
Fixpoint Index (s sep : string) : option nat :=
  if HasPrefix s sep then Some 0
  else match s with
       | "" => None
       | String _ s' => S <$> Index s' sep
       end.

Definition Contains (s sep : string) : bool :=
  match Index s sep with Some _ => true | None => false end.

(** [strings.Count] for a non-empty [sep]: non-overlapping instances.  The
    recursion skips a whole separator, so it is driven by fuel. *)
Fixpoint count_from (fuel : nat) (s sep : string) : nat :=
  match fuel with
  | O => 0
  | S fuel' =>
      match Index s sep with
      | None => 0
      | Some m => S (count_from fuel' (drop (m + String.length sep) s) sep)
      end
  end.

Definition Count (s sep : string) : nat :=
  count_from (String.length s) s sep.

(** The loop of [genSplit] with [sepSave = 0]: [n] is the number of cuts
    still allowed ([n--] has been applied). *)
Fixpoint genSplit (n : nat) (s sep : string) : list string :=
  match n with
  | O => [s]
  | S n' =>
      match Index s sep with
      | None => [s]
      | Some m => take m s :: genSplit n' (drop (m + String.length sep) s) sep
      end
  end.

(** [strings.Split s sep] and [strings.SplitN s sep n] for a non-empty
    separator and, for [SplitN], [n > 0]. *)
Definition Split (s sep : string) : list string :=
  genSplit (Count s sep) s sep.

Definition SplitN (s sep : string) (n : nat) : list string :=
  genSplit (Nat.min n (S (String.length s)) - 1) s sep.

(** [strings.ReplaceAll s old new] for a one-byte [old]. *)
Fixpoint ReplaceAll1 (s : string) (old : ascii) (new : string) : string :=
  match s with
  | "" => ""
  | String c s' =>
      if Ascii.eqb c old then new +:+ ReplaceAll1 s' old new
      else String c (ReplaceAll1 s' old new)
  end.

End strings.

(* ===================================================================== *)
(** * [encoding/json] decoding into a [[]string]                           *)
(* ===================================================================== *)

(** What [json.Unmarshal(data, &v)] leaves in [v : []string] when it returns
    no error, or [None] when it returns one.  Any error will do: the callers
    only test [err != nil]. *)
Module json.

Definition is_space (c : ascii) : bool :=
  (Ascii.eqb c " " || Ascii.eqb c "009" || Ascii.eqb c "010" || Ascii.eqb c "013")%bool.

Fixpoint skip_space (s : string) : string :=
  match s with
  | String c s' => if is_space c then skip_space s' else s
  | "" => ""
  end.

Definition hex_val (c : ascii) : option N :=
  let n := N_of_ascii c in
  if ((48 <=? n) && (n <=? 57))%N then Some (n - 48)%N
  else if ((97 <=? n) && (n <=? 102))%N then Some (n - 87)%N
  else if ((65 <=? n) && (n <=? 70))%N then Some (n - 55)%N
  else None.

Definition hex4 (s : string) : option (N * string) :=
  match s with
  | String a (String b (String c (String d rest))) =>
      match hex_val a, hex_val b, hex_val c, hex_val d with
      | Some x, Some y, Some z, Some w =>
          Some (((x * 16 + y) * 16 + z) * 16 + w, rest)%N
      | _, _, _, _ => None
      end
  | _ => None
  end.

(** [utf8.AppendRune]. *)
Definition utf8 (r : N) : string :=
  let b (n : N) := String (ascii_of_N n) "" in
  if (r <? 128)%N then b r
  else if (r <? 2048)%N then b (192 + r / 64)%N +:+ b (128 + r mod 64)%N
  else if (r <? 65536)%N then
    b (224 + r / 4096)%N +:+ b (128 + (r / 64) mod 64)%N +:+ b (128 + r mod 64)%N
  else
    b (240 + r / 262144)%N +:+ b (128 + (r / 4096) mod 64)%N
      +:+ b (128 + (r / 64) mod 64)%N +:+ b (128 + r mod 64)%N.

Definition is_surrogate (r : N) : bool := ((55296 <=? r) && (r <? 57344))%N.

(** The body of a string literal after its opening quote: the decoded
    bytes and what follows the closing quote.  A lone surrogate escape
    decodes to U+FFFD, a high-low pair to one rune. *)
Fixpoint string_body (fuel : nat) (s : string) : option (string * string) :=
  match fuel with
  | O => None
  | S fuel' =>
      match s with
      | "" => None
      | String c s' =>
          if Ascii.eqb c "034" then Some ("", s')
          else if (N_of_ascii c <? 32)%N then None
          else if Ascii.eqb c "\" then
            match s' with
            | String e s'' =>
                let lit (x : ascii) :=
                  '(body, rest) ← string_body fuel' s''; Some (String x body, rest) in
                if Ascii.eqb e "034" then lit "034"%char
                else if Ascii.eqb e "\" then lit "\"%char
                else if Ascii.eqb e "/" then lit "/"%char
                else if Ascii.eqb e "b" then lit "008"%char
                else if Ascii.eqb e "f" then lit "012"%char
                else if Ascii.eqb e "n" then lit "010"%char
                else if Ascii.eqb e "r" then lit "013"%char
                else if Ascii.eqb e "t" then lit "009"%char
                else if Ascii.eqb e "u" then
                  '(r, s3) ← hex4 s'';
                  let plain (r : N) (rest0 : string) :=
                    '(body, rest) ← string_body fuel' rest0;
                    Some (utf8 r +:+ body, rest) in
                  if is_surrogate r then
                    match s3 with
                    | String "\" (String "u" s4) =>
                        match hex4 s4 with
                        | Some (r2, s5) =>
                            if ((r <? 56320) && (56320 <=? r2) && (r2 <? 57344))%N
                            then plain (65536 + (r - 55296) * 1024 + (r2 - 56320))%N s5
                            else plain 65533%N s3
                        | None => None
                        end
                    | _ => plain 65533%N s3
                    end
                  else plain r s3
                else None
            | "" => None
            end
          else '(body, rest) ← string_body fuel' s'; Some (String c body, rest)
      end
  end.

(** One array element: a string literal, or [null], which leaves the
    element at its zero value.  Every other JSON value makes [Unmarshal]
    return an error (a syntax error or an [UnmarshalTypeError]). *)
Definition element (s : string) : option (string * string) :=
  match s with
  | String "034" s' => string_body (String.length s) s'
  | String "n" (String "u" (String "l" (String "l" rest))) => Some ("", rest)
  | _ => None
  end.

Fixpoint elements (fuel : nat) (s : string) : option (list string * string) :=
  match fuel with
  | O => None
  | S fuel' =>
      '(x, rest) ← element (skip_space s);
      match skip_space rest with
      | String "," rest' =>
          '(xs, rest'') ← elements fuel' rest'; Some (x :: xs, rest'')
      | String "]" rest' => Some ([x], rest')
      | _ => None
      end
  end.

(** The whole document: [null] (the slice stays nil), or an array. *)
Definition UnmarshalStrings (data : string) : option (list string) :=
  match skip_space data with
  | String "n" (String "u" (String "l" (String "l" rest))) =>
      if String.eqb (skip_space rest) "" then Some [] else None
  | String "[" rest =>
      match skip_space rest with
      | String "]" rest' =>
          if String.eqb (skip_space rest') "" then Some [] else None
      | body =>
          '(xs, rest') ← elements (String.length data) body;
          if String.eqb (skip_space rest') "" then Some xs else None
      end
  | _ => None
  end.

End json.

(* ===================================================================== *)
(** * [float64] conversions and [fmt]'s [%.Nf]                             *)
(* ===================================================================== *)

Module float64.

Definition MaxInt64 : Z := 2 ^ 63 - 1.
Definition MinInt64 : Z := - 2 ^ 63.

(** The integer part of a finite binary64 value, rounded toward zero. *)
Definition trunc (f : float) : option Z :=
  match Prim2SF f with
  | S754_zero _ => Some 0%Z
  | S754_finite s m e =>
      let a := if (0 <=? e)%Z then (Z.pos m * 2 ^ e)%Z else (Z.pos m / 2 ^ (- e))%Z in
      Some (if s then - a else a)%Z
  | _ => None
  end.

(** Go's [int(f)].  Out of [int64]'s range the language leaves the result
    to the implementation; this is arm64's saturating [FCVTZS] (the
    default [lambda_architecture] of the Terraform module), with NaN
    converted to 0. *)
Definition to_int (f : float) : Z :=
  match Prim2SF f with
  | S754_nan => 0%Z
  | S754_infinity s => if s then MinInt64 else MaxInt64
  | _ => match trunc f with
         | Some z => Z.max MinInt64 (Z.min MaxInt64 z)
         | None => 0%Z
         end
  end.

(** Go's [float64(n)] for an integer [n]: the nearest binary64 value, ties
    to even. *)
Definition of_int (n : Z) : float :=
  SF2Prim (binary_normalize 53 1024 n 0 false).

End float64.

Module fmt.

(** The exact value [m * 2^e * 10^prec] rounded to the nearest integer,
    ties to even, as [strconv]'s decimal conversion does. *)
Definition scaled_round (m : positive) (e : Z) (prec : nat) : N :=
  let num := (Z.pos m * 10 ^ Z.of_nat prec)%Z in
  if (0 <=? e)%Z then Z.to_N (num * 2 ^ e)
  else
    let den := (2 ^ (- e))%Z in
    let q := (num / den)%Z in
    let r := (num mod den)%Z in
    let up := ((den <? 2 * r) || ((den =? 2 * r) && Z.odd q))%Z%bool in
    Z.to_N (if up then q + 1 else q).

Fixpoint zeros (n : nat) : string :=
  match n with O => "" | S n' => String "0" (zeros n') end.

(** Fixed-point digits of [r / 10^prec]: the integer part, and after a dot
    exactly [prec] decimals when [prec > 0]. *)
Definition fixed (r : N) (prec : nat) : string :=
  match prec with
  | O => pretty r
  | S _ =>
      let p := (10 ^ N.of_nat prec)%N in
      let frac := pretty (r mod p)%N in
      pretty (r / p)%N +:+ "." +:+ zeros (prec - String.length frac) +:+ frac
  end.

(** [fmt.Sprintf("%.<prec>f", f)]. *)
Definition Sprintf_f (prec : nat) (f : float) : string :=
  match Prim2SF f with
  | S754_nan => "NaN"
  | S754_infinity s => if s then "-Inf" else "+Inf"
  | S754_zero s => (if s then "-" else "") +:+ fixed 0 prec
  | S754_finite s m e =>
      (if s then "-" else "") +:+ fixed (scaled_round m e prec) prec
  end.

End fmt.

(* ===================================================================== *)
(** * Errors and outcomes                                                  *)
(* ===================================================================== *)

(** The error values the program can see.  [errors.Is(err, io.EOF)] holds
    of [EOF] alone: [io.ErrUnexpectedEOF] is a different value and wraps
    nothing. *)
Inductive error : Type :=
  | EOF
  | ErrUnexpectedEOF
  | errInvalidVarint
  | ErrUnmarshal                      (* proto.Unmarshal or json.Unmarshal failed *)
  | ErrMarshal
  | ErrExpectedToFindResources        (* tagging.ErrExpectedToFindResources *)
  | ErrTagging (msg : string)         (* any other failure of the tagging client *)
  | errors_New (msg : string).

Global Instance error_eq_dec : EqDecision error.
Proof. solve_decision. Defined.

Definition errors_Is_EOF (e : error) : bool :=
  match e with EOF => true | _ => false end.

(** [Returns] is a normal return; [Panics] is a run-time panic (an index out
    of range, a nil dereference), which no [if err != nil] can catch. *)
Inductive outcome (A : Type) : Type :=
  | Returns (a : A)
  | Panics.
Arguments Returns {A} a.
Arguments Panics {A}.

(* ===================================================================== *)
(** * The OTLP messages ([commonpb], [metricspb], [metricsservicepb])      *)
(* ===================================================================== *)

(** Only the fields the program reads or writes are spelled out; [oneof]
    members it never inspects are kept as an opaque payload. *)
Module commonpb.

(** [AnyValue.Value] is a oneof; a [KeyValue] holds a possibly nil
    [*AnyValue], and attribute slices hold possibly nil [*KeyValue]s. *)
Inductive AnyValue : Type :=
  | AnyValue_Unset
  | AnyValue_StringValue (StringValue : string)
  | AnyValue_KvlistValue (Values : list (option KeyValue))
  | AnyValue_Other (payload : string)
with KeyValue : Type :=
  | Build_KeyValue (Key : string) (Value : option AnyValue).

Definition GetKey (kv : KeyValue) : string :=
  match kv with Build_KeyValue k _ => k end.

Definition GetValue (kv : KeyValue) : option AnyValue :=
  match kv with Build_KeyValue _ v => v end.

Definition GetStringValue (v : AnyValue) : string :=
  match v with AnyValue_StringValue s => s | _ => "" end.

(** [GetKvlistValue] followed by [GetValues]; [None] where the getter
    returns a nil [*KeyValueList]. *)
Definition GetKvlistValue (v : AnyValue) : option (list (option KeyValue)) :=
  match v with AnyValue_KvlistValue l => Some l | _ => None end.

(** [&commonpb.KeyValue{Key: k, Value: strVal(s)}]. *)
Definition strKV (k s : string) : KeyValue :=
  Build_KeyValue k (Some (AnyValue_StringValue s)).

End commonpb.

Module metricspb.
Import commonpb.

Record ValueAtQuantile : Type := {
  Quantile : float;
  Value : float
}.

Record SummaryDataPoint : Type := {
  sdp_Attributes : list (option KeyValue);
  sdp_StartTimeUnixNano : Z;
  sdp_TimeUnixNano : Z;
  sdp_Count : Z;                     (* uint64 *)
  sdp_Sum : float;
  sdp_QuantileValues : list ValueAtQuantile;
  sdp_Flags : Z
}.

Inductive NumberValue : Type :=
  | NumberDataPoint_AsDouble (AsDouble : float)
  | NumberDataPoint_AsInt (AsInt : Z).

Record NumberDataPoint : Type := {
  ndp_Attributes : list (option KeyValue);
  ndp_StartTimeUnixNano : Z;
  ndp_TimeUnixNano : Z;
  ndp_Value : option NumberValue
}.

(** [Metric.Data]: the two kinds the program builds or opens, and the rest
    (Sum, Histogram, ExponentialHistogram, or no data at all). *)
Inductive isMetric_Data : Type :=
  | Metric_Gauge (DataPoints : list NumberDataPoint)
  | Metric_Summary (DataPoints : list SummaryDataPoint)
  | Metric_Other (payload : string).

Record Metric : Type := {
  Name : string;
  Description : string;
  Unit : string;
  Data : isMetric_Data
}.

Record ScopeMetrics : Type := {
  Scope : string;
  Metrics : list Metric;
  sm_SchemaUrl : string
}.

Record ResourceMetrics : Type := {
  Resource : option (list (option KeyValue));   (* Resource.Attributes *)
  ScopeMetrics_ : list ScopeMetrics;
  rm_SchemaUrl : string
}.

End metricspb.

Module metricsservicepb.

Record ExportMetricsServiceRequest : Type := {
  ResourceMetrics : list metricspb.ResourceMetrics
}.

End metricsservicepb.

(* ===================================================================== *)
(** * YACE's [model] package                                               *)
(* ===================================================================== *)

Module model.

Record Dimension : Type := { dim_Name : string; dim_Value : string }.

Record Tag : Type := { Key : string; Value : string }.

(** [model.Metric]: a CloudWatch metric descriptor. *)
Record Metric : Type := {
  Namespace : string;
  MetricName : string;
  Dimensions : list Dimension
}.

Record TaggedResource : Type := {
  ARN : string;
  tr_Namespace : string;
  Region : string;
  Tags : list Tag
}.

End model.

(* ===================================================================== *)
(** * Interfaces of the third-party packages                               *)
(* ===================================================================== *)

(** [promutil]: the label-name rule ([PromStringTag] returns whether the
    normalised name is a valid label name, and the name) and the metric-name
    convention. *)
Class Promutil : Type := {
  PromStringTag : string → bool → bool * string;
  BuildMetricName : string → string → string → string
}.

(** [TaggedResource.MetricTags], and the order in which a [range] over a Go
    map visits its entries: some enumeration of the map, which may differ
    from one loop to the next ([seed] tells the loops apart). *)
Class GoModel : Type := {
  MetricTags : model.TaggedResource → list string → list model.Tag;
  map_range : nat → gmap string string → list (string * string);
  map_range_perm : ∀ seed m, map_range seed m ≡ₚ map_to_list m
}.

(** [encoding/json] at the two types the program uses. *)
Class JSON : Type := {
  UnmarshalStrings : string → option (list string);
  MarshalResources : list model.TaggedResource → option string;
  UnmarshalResources : string → option (list model.TaggedResource)
}.

(* ===================================================================== *)
(** * Attribute helpers                                                    *)
(* ===================================================================== *)

Section Attributes.
Import commonpb.

(** [attrValue]: the string value of the first attribute named [key]. *)
Fixpoint attrValue (attrs : list (option KeyValue)) (key : string) : string :=
  match attrs with
  | [] => ""
  | a :: attrs' =>
      match a with
      | Some kv =>
          if String.eqb (GetKey kv) key then
            match GetValue kv with
            | Some v => GetStringValue v
            | None => ""
            end
          else attrValue attrs' key
      | None => attrValue attrs' key
      end
  end.

(** One iteration of the loop of [extractResourceAttributes]. *)
Definition extractResourceAttributes_step
    (acc : string * string) (attr : option KeyValue) : string * string :=
  let '(accountID, resourceRegion) := acc in
  match attr with
  | None => acc
  | Some kv =>
      if String.eqb (GetKey kv) "cloud.account.id" then
        match GetValue kv with
        | Some v => (GetStringValue v, resourceRegion)
        | None => acc
        end
      else if String.eqb (GetKey kv) "cloud.region" then
        match GetValue kv with
        | Some v => (accountID, GetStringValue v)
        | None => acc
        end
      else acc
  end.

(** [extractResourceAttributes], on a non-nil [rm]. *)
Definition extractResourceAttributes (rm : metricspb.ResourceMetrics)
    : string * string :=
  match metricspb.Resource rm with
  | None => ("", "")
  | Some attrs => fold_left extractResourceAttributes_step attrs ("", "")
  end.

(** The [Dimensions] case of [buildCloudWatchMetricFromKeyValues]. *)
Definition appendDimensions
    (dims : list model.Dimension) (kvs : list (option KeyValue))
    : list model.Dimension :=
  fold_left
    (λ dims kv,
       match kv with
       | Some kv =>
           match GetValue kv with
           | Some v =>
               dims ++ [ {| model.dim_Name := GetKey kv;
                            model.dim_Value := GetStringValue v |} ]
           | None => dims
           end
       | None => dims
       end)
    kvs dims.

Definition buildCloudWatchMetric_step
    (cwm : model.Metric) (a : option KeyValue) : model.Metric :=
  match a with
  | None => cwm
  | Some kv =>
      match GetValue kv with
      | None => cwm
      | Some v =>
          let k := GetKey kv in
          if String.eqb k "MetricName" then
            {| model.Namespace := model.Namespace cwm;
               model.MetricName := GetStringValue v;
               model.Dimensions := model.Dimensions cwm |}
          else if String.eqb k "Namespace" then
            {| model.Namespace := GetStringValue v;
               model.MetricName := model.MetricName cwm;
               model.Dimensions := model.Dimensions cwm |}
          else if String.eqb k "Dimensions" then
            match GetKvlistValue v with
            | Some kvs =>
                {| model.Namespace := model.Namespace cwm;
                   model.MetricName := model.MetricName cwm;
                   model.Dimensions := appendDimensions (model.Dimensions cwm) kvs |}
            | None => cwm
            end
          else cwm
      end
  end.

Definition buildCloudWatchMetricFromKeyValues
    (attrs : list (option KeyValue)) : model.Metric :=
  fold_left buildCloudWatchMetric_step attrs
    {| model.Namespace := ""; model.MetricName := ""; model.Dimensions := [] |}.

End Attributes.

(* ===================================================================== *)
(** * The label builder                                                    *)
(* ===================================================================== *)

Section LabelBuilder.
Context `{!Promutil, !GoModel}.
Import commonpb.

(** [r != nil && !skip]. *)
Definition matched (r : option model.TaggedResource) (skip : bool) : bool :=
  match r with Some _ => negb skip | None => false end.

(** The three loops of the builder, each appending to [out] the entries
    whose normalised name is a valid label name. *)
Definition appendDimensionLabels (labelsSnakeCase : bool)
    (out : list KeyValue) (dims : list model.Dimension) : list KeyValue :=
  fold_left
    (λ out dim,
       let '(ok, promTag) := PromStringTag (model.dim_Name dim) labelsSnakeCase in
       if ok then out ++ [strKV ("dimension_" +:+ promTag) (model.dim_Value dim)]
       else out)
    dims out.

Definition appendTagLabels (labelsSnakeCase : bool)
    (out : list KeyValue) (tags : list model.Tag) : list KeyValue :=
  fold_left
    (λ out tag,
       let '(ok, promTag) := PromStringTag (model.Key tag) labelsSnakeCase in
       if ok then out ++ [strKV ("tag_" +:+ promTag) (model.Value tag)]
       else out)
    tags out.

Definition appendCustomLabels (labelsSnakeCase : bool)
    (out : list KeyValue) (entries : list (string * string)) : list KeyValue :=
  fold_left
    (λ out kv,
       let '(ok, promTag) := PromStringTag kv.1 labelsSnakeCase in
       if ok then out ++ [strKV ("custom_tag_" +:+ promTag) kv.2]
       else out)
    entries out.

(** [buildYACELabelsKeyValue].  [seed] picks the order in which this call
    ranges over [staticLabels]; logging is left out. *)
Definition buildYACELabelsKeyValue
    (seed : nat)
    (cwm : model.Metric)
    (r : option model.TaggedResource)
    (skip : bool)
    (staticLabels : gmap string string)
    (defaultLabels : bool)
    (labelsSnakeCase : bool)
    (exportedTags : list string)
    (region : string)
    (accountID : string) : list KeyValue :=
  let out := [] in
  let out :=
    if negb (String.eqb region "") then out ++ [strKV "region" region] else out in
  let out :=
    if negb (String.eqb accountID "") then out ++ [strKV "account_id" accountID]
    else out in
  let out :=
    if negb (String.eqb (model.Namespace cwm) "")
    then out ++ [strKV "namespace" (model.Namespace cwm)] else out in
  let nameVal :=
    match r with
    | Some res => if negb skip then model.ARN res else "global"
    | None => "global"
    end in
  let out := out ++ [strKV "name" nameVal] in
  let out := appendDimensionLabels labelsSnakeCase out (model.Dimensions cwm) in
  let out :=
    match r with
    | Some res =>
        if negb skip then
          let tagsToExport :=
            if (0 <? length exportedTags)%nat then MetricTags res exportedTags
            else model.Tags res in
          appendTagLabels labelsSnakeCase out tagsToExport
        else out
    | None => out
    end in
  let out :=
    if (defaultLabels || matched r skip)%bool
    then appendCustomLabels labelsSnakeCase out (map_range seed staticLabels)
    else out in
  out.

End LabelBuilder.

(* ===================================================================== *)
(** * The statistic expander                                               *)
(* ===================================================================== *)

Definition defaultYACEStats : list string :=
  ["Maximum"; "Minimum"; "Average"; "Sum"; "SampleCount"].

(** [quantileToStatistic]. *)
Definition quantileToStatistic (q : float) : string :=
  if PrimFloat.eqb q 0 then "Minimum"
  else if PrimFloat.eqb q 1 then "Maximum"
  else
    let pct := (q * 100)%float in
    if PrimFloat.eqb pct (float64.of_int (float64.to_int pct))
    then "p" +:+ fmt.Sprintf_f 0 pct
    else "p" +:+ strings.ReplaceAll1 (fmt.Sprintf_f 1 pct) "." "_".

(** [newGauge]: a Gauge metric with a single data point. *)
Definition newGauge (name : string) (value : float)
    (timestampNano startTimeNano : Z) (attrs : list commonpb.KeyValue)
    : metricspb.Metric :=
  {| metricspb.Name := name;
     metricspb.Description := "";
     metricspb.Unit := "";
     metricspb.Data :=
       metricspb.Metric_Gauge
         [ {| metricspb.ndp_Attributes := Some <$> attrs;
              metricspb.ndp_StartTimeUnixNano := startTimeNano;
              metricspb.ndp_TimeUnixNano := timestampNano;
              metricspb.ndp_Value := Some (metricspb.NumberDataPoint_AsDouble value) |} ] |}.

(** [enabledStats[stat]] on a [map[string]bool]: [false] when absent. *)
Definition enabled (enabledStats : gmap string bool) (stat : string) : bool :=
  default false (enabledStats !! stat).

Section StatisticExpander.
Context `{!Promutil}.
Import metricspb.

(** [summaryToGauges]. *)
Definition summaryToGauges
    (cwm : model.Metric)
    (dp : SummaryDataPoint)
    (attrs : list commonpb.KeyValue)
    (enabledStats : gmap string bool) : list Metric :=
  let gauges := [] in
  let ts := sdp_TimeUnixNano dp in
  let startTs := sdp_StartTimeUnixNano dp in
  let count := sdp_Count dp in
  let sum := sdp_Sum dp in
  let name := BuildMetricName (model.Namespace cwm) (model.MetricName cwm) in
  let gauges :=
    if enabled enabledStats "SampleCount"
    then gauges ++ [newGauge (name "SampleCount") (float64.of_int count) ts startTs attrs]
    else gauges in
  let gauges :=
    if enabled enabledStats "Sum"
    then gauges ++ [newGauge (name "Sum") sum ts startTs attrs]
    else gauges in
  let gauges :=
    if (enabled enabledStats "Average" && (0 <? count)%Z)%bool
    then gauges ++ [newGauge (name "Average") (sum / float64.of_int count)%float
                      ts startTs attrs]
    else gauges in
  fold_left
    (λ gauges qv,
       let stat := quantileToStatistic (Quantile qv) in
       if enabled enabledStats stat
       then gauges ++ [newGauge (name stat) (Value qv) ts startTs attrs]
       else gauges)
    (sdp_QuantileValues dp) gauges.

End StatisticExpander.

(* ===================================================================== *)
(** * Configuration parsers                                                *)
(* ===================================================================== *)

Section Configuration.
Context `{!JSON}.

(** [parseYACEStats]: the map is the one returned next to the error (Go
    returns a nil map with the error). *)
Definition parseYACEStats (env : string) : gmap string bool * option error :=
  let enabled : gmap string bool := ∅ in
  if String.eqb env "" then
    (fold_left (λ enabled s, <[s := true]> enabled) defaultYACEStats enabled, None)
  else
    match UnmarshalStrings env with
    | None => (∅, Some ErrUnmarshal)
    | Some stats =>
        (fold_left (λ enabled s, <[s := true]> enabled) stats enabled, None)
    end.

Definition parseExportedTags (env : string) : list string * option error :=
  if String.eqb env "" then ([], None)
  else
    match UnmarshalStrings env with
    | None => ([], Some ErrUnmarshal)
    | Some tags => (tags, None)
    end.

(** The loop of [parseStaticLabels] over [rawLabels].  Indexing the result
    of [Split] or [SplitN] past its end panics. *)
Fixpoint parseStaticLabels_loop
    (rawLabels : list string) (staticLabels : gmap string string)
    : outcome (gmap string string * option error) :=
  match rawLabels with
  | [] => Returns (staticLabels, None)
  | label :: rawLabels' =>
      if String.eqb label "" then
        Returns (staticLabels, Some (errors_New "STATIC_LABELS contains empty string"))
      else if negb (strings.Contains label "=") then
        Returns (staticLabels,
                 Some (errors_New "STATIC_LABELS contains string that is not a key=value pair"))
      else
        match strings.Split label "=" !! 0%nat, strings.SplitN label "=" 2 !! 1%nat with
        | Some key, Some value =>
            parseStaticLabels_loop rawLabels' (<[key := value]> staticLabels)
        | _, _ => Panics
        end
  end.

(** [parseStaticLabels]: the map built so far is returned next to the
    error. *)
Definition parseStaticLabels (staticLabelsEnv : string)
    : outcome (gmap string string * option error) :=
  let staticLabels : gmap string string := ∅ in
  if String.eqb staticLabelsEnv "" then Returns (staticLabels, None)
  else
    match UnmarshalStrings staticLabelsEnv with
    | None => Returns (staticLabels, Some ErrUnmarshal)
    | Some rawLabels => parseStaticLabels_loop rawLabels staticLabels
    end.

End Configuration.

(* ===================================================================== *)
(** * The wire codec                                                       *)
(* ===================================================================== *)

(** What the codec takes from outside: [proto.Marshal] and
    [proto.Unmarshal] at the request type, and the runtime's answer to
    [make([]byte, n)] for the buffer of a message of announced length [n],
    [false] when the runtime cannot allocate it. *)
Class Proto (Msg : Type) : Type := {
  Marshal : Msg → option (list byte);
  Unmarshal : list byte → option Msg;
  makeslice : nat → bool
}.

(** [encoding/binary]'s unsigned varints. *)
Module binary.

Definition MaxVarintLen32 : nat := 5.
Definition MaxVarintLen64 : nat := 10.

(** The loop of [binary.Uvarint] from index [i] with accumulator [x] and
    shift [s]: the value and the number of bytes read, [inr true] for an
    overflow (Go's negative count) and [inr false] for a buffer that ends
    inside the varint (Go's [(0, 0)]). *)
Fixpoint Uvarint_from (i : nat) (x : N) (s : N) (buf : list byte)
    : (N * nat) + bool :=
  match buf with
  | [] => inr false
  | b :: buf' =>
      if (i =? MaxVarintLen64)%nat then inr true
      else if (Byte.to_N b <? 128)%N then
        if ((i =? MaxVarintLen64 - 1)%nat && (1 <? Byte.to_N b)%N)%bool then inr true
        else inl (N.lor x (N.shiftl (Byte.to_N b) s), S i)
      else
        Uvarint_from (S i) (N.lor x (N.shiftl (N.land (Byte.to_N b) 127) s)) (s + 7) buf'
  end.

Definition Uvarint (buf : list byte) : (N * nat) + bool :=
  Uvarint_from 0 0 0 buf.

Definition byte_of (n : N) : byte :=
  default x00 (Byte.of_N n).

(** [binary.PutUvarint]: the bytes written.  The recursion is on [fuel];
    ten bytes are enough for a [uint64]. *)
Fixpoint PutUvarint_from (fuel : nat) (x : N) : list byte :=
  match fuel with
  | O => [byte_of x]
  | S fuel' =>
      if (128 <=? x)%N
      then byte_of (N.lor (N.land x 255) 128) :: PutUvarint_from fuel' (N.shiftr x 7)
      else [byte_of x]
  end.

Definition PutUvarint (x : N) : list byte := PutUvarint_from MaxVarintLen64 x.

End binary.

(** [pbutil]'s size-delimited framing over a [bytes.Buffer], which is the
    list of bytes not read yet. *)
Module pbutil.
Section pbutil.
Context {Msg : Type} `{!Proto Msg}.

(** The header loop of [ReadDelimited]: one byte is read at a time into
    [headerBuf] until [binary.Uvarint] decodes a length.  [headerBuf] is
    the bytes read so far, [r] the buffer. *)
Fixpoint readHeader (fuel : nat) (headerBuf r : list byte)
    : (N * list byte) + error :=
  match fuel with
  | O => inr errInvalidVarint
  | S fuel' =>
      if (binary.MaxVarintLen32 <=? length headerBuf)%nat then inr errInvalidVarint
      else
        match r with
        | [] => inr EOF                       (* bytes.Buffer.Read: (0, io.EOF) *)
        | b :: r' =>
            let headerBuf := headerBuf ++ [b] in
            match binary.Uvarint headerBuf with
            | inl (messageLength, _) => inl (messageLength, r')
            | inr true => inl (0%N, r')       (* varIntBytes < 0 ends the loop *)
            | inr false => readHeader fuel' headerBuf r'
            end
        end
  end.

(** [messageBuf := make([]byte, n)] followed by [io.ReadFull(r, messageBuf)].
    Allocations bounded by the size of the input are taken to succeed, here
    as everywhere else; the announced length is not so bounded when the
    buffer holds fewer bytes than it announces, and then the runtime
    decides: when it refuses, the process is killed and nothing returns
    ([None]).  [io.ReadFull] gives [EOF] only if no byte was read and
    [ErrUnexpectedEOF] if the buffer ends after some but not all. *)
Definition ReadFull (r : list byte) (n : nat)
    : option ((list byte * list byte) + error) :=
  if (n <=? length r)%nat then Some (inl (take n r, drop n r))
  else if negb (makeslice n) then None
  else if (length r =? 0)%nat then Some (inr EOF)
  else Some (inr ErrUnexpectedEOF).

(** [pbutil.ReadDelimited]: the message and the rest of the buffer, or the
    error; [None] when the process was killed. *)
Definition ReadDelimited (r : list byte) : option ((Msg * list byte) + error) :=
  match readHeader (S binary.MaxVarintLen32) [] r with
  | inr e => Some (inr e)
  | inl (messageLength, r) =>
      match ReadFull r (N.to_nat messageLength) with
      | None => None
      | Some (inr e) => Some (inr e)
      | Some (inl (messageBuf, r)) =>
          match Unmarshal messageBuf with
          | Some m => Some (inl (m, r))
          | None => Some (inr ErrUnmarshal)
          end
      end
  end.

(** [pbutil.WriteDelimited]: the bytes appended to the buffer.  The length
    prefix is written into a [MaxVarintLen32]-byte array, which a message
    of 2^35 bytes or more would overrun; such messages are left out. *)
Definition WriteDelimited (m : Msg) : list byte + error :=
  match Marshal m with
  | None => inr ErrMarshal
  | Some buffer =>
      inl (binary.PutUvarint (N.of_nat (length buffer)) ++ buffer)
  end.

End pbutil.
End pbutil.

Section WireCodec.
Context {Msg : Type} `{!Proto Msg}.

(** The [for] loop of [rawDataIntoRequests].  Every successful read
    consumes at least one byte, so [fuel] above the length of the input
    never runs out: [None] is the death of the process in a read. *)
Fixpoint rawDataIntoRequests_loop (fuel : nat)
    (requests : list Msg) (r : list byte) : option (list Msg * option error) :=
  match fuel with
  | O => None
  | S fuel' =>
      match pbutil.ReadDelimited r with
      | None => None
      | Some (inr err) =>
          if errors_Is_EOF err then Some (requests, None)
          else Some ([], Some err)
      | Some (inl (rm, r')) => rawDataIntoRequests_loop fuel' (requests ++ [rm]) r'
      end
  end.

(** [rawDataIntoRequests]: [None] when the process was killed. *)
Definition rawDataIntoRequests (input : list byte)
    : option (list Msg * option error) :=
  rawDataIntoRequests_loop (S (length input)) [] input.

(** [requestsIntoRawData]: the loop appends to the buffer [b]. *)
Fixpoint requestsIntoRawData_loop (b : list byte) (reqs : list Msg)
    : list byte * option error :=
  match reqs with
  | [] => (b, None)
  | r :: reqs' =>
      match pbutil.WriteDelimited r with
      | inr err => ([], Some err)
      | inl frame => requestsIntoRawData_loop (b ++ frame) reqs'
      end
  end.

Definition requestsIntoRawData (reqs : list Msg) : list byte * option error :=
  requestsIntoRawData_loop [] reqs.

End WireCodec.

(* ===================================================================== *)
(** * The world: cache files, clock, tagging client                        *)
(* ===================================================================== *)

Definition cacheFile : string := "cache".

Record File : Type := { data : string; modTime : Z }.

(** What the program did to the outside, in order; each event names the
    namespace on whose behalf it happened. *)
Inductive Event : Type :=
  | CacheOpen (namespace path : string)      (* os.Open *)
  | CacheRead (namespace path : string)      (* io.ReadAll *)
  | CacheWrite (namespace path : string)     (* os.Create and f.Write *)
  | Fetch (namespace region : string).       (* client.GetResources *)

Definition event_namespace (ev : Event) : string :=
  match ev with
  | CacheOpen ns _ | CacheRead ns _ | CacheWrite ns _ | Fetch ns _ => ns
  end.

(** Times are nanoseconds since the epoch.  [clock] gives the reading of
    the [k]-th look at the clock and [ticks] counts the looks so far;
    [calls] counts the calls of the tagging client and [seed] the [range]
    loops over maps.  File operations other than opening a missing file are
    taken to succeed. *)
Record World : Type := {
  files : gmap string File;
  clock : nat → Z;
  ticks : nat;
  calls : nat;
  seed : nat;
  trace : list Event
}.

Definition log_event (ev : Event) (w : World) : World :=
  {| files := files w; clock := clock w; ticks := ticks w; calls := calls w;
     seed := seed w; trace := trace w ++ [ev] |}.

(** [time.Now()]. *)
Definition time_Now (w : World) : Z * World :=
  (clock w (ticks w),
   {| files := files w; clock := clock w; ticks := S (ticks w); calls := calls w;
      seed := seed w; trace := trace w |}).

Definition next_call (w : World) : World :=
  {| files := files w; clock := clock w; ticks := ticks w; calls := S (calls w);
     seed := seed w; trace := trace w |}.

Definition next_seed (w : World) : World :=
  {| files := files w; clock := clock w; ticks := ticks w; calls := calls w;
     seed := S (seed w); trace := trace w |}.

(** [os.Create(path)] followed by [f.Write(b)]: the file is replaced and
    stamped with the current time. *)
Definition write_file (path b : string) (w : World) : World :=
  let '(now, w) := time_Now w in
  {| files := <[path := {| data := b; modTime := now |}]> (files w);
     clock := clock w; ticks := ticks w; calls := calls w;
     seed := seed w; trace := trace w |}.

(** [tagging.Client]: the answer of the [k]-th call of [GetResources], a
    slice and an error as Go returns them. *)
Class Tagging : Type := {
  GetResources : nat → string → string → list model.TaggedResource * option error
}.

(** [config.SupportedServices] and [maxdimassociator]. *)
Class Associators : Type := {
  Service : Type;
  GetService : string → option Service;
  Associator : Type;
  NewAssociator : Service → list model.TaggedResource → Associator;
  AssociateMetricToResource :
    Associator → model.Metric → option model.TaggedResource * bool
}.

(* ===================================================================== *)
(** * The resource tag cache                                               *)
(* ===================================================================== *)

Section ResourceCache.
Context `{!JSON, !Tagging}.

(** [retrieveResources]; [*region] panics on a nil [region]. *)
Definition retrieveResources (namespace : string) (region : option string)
    (w : World) : outcome ((list model.TaggedResource + error) * World) :=
  match region with
  | None => Panics
  | Some reg =>
      let '(resources, err) := GetResources (calls w) namespace reg in
      let w := log_event (Fetch namespace reg) (next_call w) in
      match err with
      | Some e =>
          if negb (bool_decide (e = ErrExpectedToFindResources))
          then Returns (inr e, w)
          else Returns (inl resources, w)
      | None => Returns (inl resources, w)
      end
  end.

Definition cachePath (fileCachePath namespace : string) : string :=
  fileCachePath +:+ "/" +:+ cacheFile +:+ "-" +:+ strings.ReplaceAll1 namespace "/" "-".

(** [getOrCacheResources]. *)
Definition getOrCacheResources
    (fileCachePath namespace : string)
    (region : option string)
    (cacheExpiration : Z)
    (cacheEnabled : bool)
    (w : World) : outcome ((list model.TaggedResource + error) * World) :=
  if negb cacheEnabled then retrieveResources namespace region w
  else
    let filePath := cachePath fileCachePath namespace in
    let f := files w !! filePath in
    let w := log_event (CacheOpen namespace filePath) w in
    let '(isExpired, w) :=
      match f with
      | Some file =>
          let '(now, w) := time_Now w in
          ((modTime file + cacheExpiration <? now)%Z, w)
      | None => (false, w)
      end in
    if (bool_decide (f = None) || isExpired)%bool then
      match retrieveResources namespace region w with
      | Panics => Panics
      | Returns (inr err, w) => Returns (inr err, w)
      | Returns (inl resources, w) =>
          match MarshalResources resources with
          | None => Returns (inr ErrMarshal, w)
          | Some b =>
              let w := log_event (CacheWrite namespace filePath) (write_file filePath b w) in
              Returns (inl resources, w)
          end
      end
    else
      let b := match f with Some file => data file | None => "" end in
      let w := log_event (CacheRead namespace filePath) w in
      match UnmarshalResources b with
      | None => Returns (inr ErrUnmarshal, w)
      | Some resources => Returns (inl resources, w)
      end.

End ResourceCache.

(* ===================================================================== *)
(** * The enrichment orchestrator                                          *)
(* ===================================================================== *)

(** The configuration arguments of [enhanceRequests]. *)
Record Settings : Type := {
  fileCachePath : string;
  continueOnResourceFailure : bool;
  region : option string;
  fileCacheExpiration : Z;
  fileCacheEnabled : bool;
  staticLabels : gmap string string;
  defaultLabels : bool;
  labelsSnakeCase : bool;
  exportedTags : list string;
  yaceCompatMode : bool;
  yaceCompatStats : gmap string bool
}.

(** A [for ... range] loop whose body may update the element it visits and
    may return an error from the enclosing function: the elements after the
    one that failed are left as they were. *)
Fixpoint for_each {A S : Type}
    (body : A → S → outcome (A * S * option error))
    (l : list A) (s : S) : outcome (list A * S * option error) :=
  match l with
  | [] => Returns ([], s, None)
  | a :: l' =>
      match body a s with
      | Panics => Panics
      | Returns (a', s', Some err) => Returns (a' :: l', s', Some err)
      | Returns (a', s', None) =>
          match for_each body l' s' with
          | Panics => Panics
          | Returns (l'', s'', err) => Returns (a' :: l'', s'', err)
          end
      end
  end.

Section Orchestrator.
Context `{!Promutil, !GoModel, !JSON, !Tagging, !Associators}.
Import metricspb.

(** The two per-invocation maps and the world. *)
Record EnrichState : Type := {
  world : World;
  resourceCache : gmap string (list model.TaggedResource);
  associatorCache : gmap string Associator
}.

(** How the body of the data-point loop ends before the mode is looked at:
    a [continue], a [return err], or the labels of the data point. *)
Inductive dp_step : Type :=
  | dp_continue
  | dp_return (err : error)
  | dp_labelled (cwm : model.Metric) (yaceLabels : list commonpb.KeyValue).

Variable cfg : Settings.

(** The [if _, ok := resourceCache[ns]; !ok] block: [inr] tells how the
    iteration ends when the resources could not be had. *)
Definition ensureResources (namespace : string) (st : EnrichState)
    : outcome (EnrichState + (dp_step * EnrichState)) :=
  match resourceCache st !! namespace with
  | Some _ => Returns (inl st)
  | None =>
      match getOrCacheResources (fileCachePath cfg) namespace (region cfg)
              (fileCacheExpiration cfg) (fileCacheEnabled cfg) (world st) with
      | Panics => Panics
      | Returns (res, w) =>
          let st := {| world := w; resourceCache := resourceCache st;
                       associatorCache := associatorCache st |} in
          let store (resources : list model.TaggedResource) :=
            {| world := w;
               resourceCache := <[namespace := resources]> (resourceCache st);
               associatorCache := associatorCache st |} in
          match res with
          | inl resources => Returns (inl (store resources))
          | inr err =>
              if negb (bool_decide (err = ErrExpectedToFindResources)) then
                if continueOnResourceFailure cfg
                then Returns (inr (dp_continue, st))
                else Returns (inr (dp_return err, st))
              else Returns (inl (store []))
          end
      end
  end.

(** The body of the data-point loop up to the construction of the labels. *)
Definition enrichDataPoint (accountID effectiveRegion : string)
    (dp : SummaryDataPoint) (st : EnrichState)
    : outcome (dp_step * EnrichState) :=
  let attrs := sdp_Attributes dp in
  let cwm := buildCloudWatchMetricFromKeyValues attrs in
  if (String.eqb (model.MetricName cwm) "" || String.eqb (model.Namespace cwm) "")%bool
  then Returns (dp_continue, st)
  else
    match GetService (model.Namespace cwm) with
    | None => Returns (dp_continue, st)
    | Some svc =>
        match ensureResources (model.Namespace cwm) st with
        | Panics => Panics
        | Returns (inr stop) => Returns stop
        | Returns (inl st) =>
            let '(asc, st) :=
              match associatorCache st !! model.Namespace cwm with
              | Some asc => (asc, st)
              | None =>
                  let asc :=
                    NewAssociator svc
                      (default [] (resourceCache st !! model.Namespace cwm)) in
                  (asc,
                   {| world := world st; resourceCache := resourceCache st;
                      associatorCache :=
                        <[model.Namespace cwm := asc]> (associatorCache st) |})
              end in
            let '(r, skip) := AssociateMetricToResource asc cwm in
            let yaceLabels :=
              buildYACELabelsKeyValue (seed (world st)) cwm r skip
                (staticLabels cfg) (defaultLabels cfg) (labelsSnakeCase cfg)
                (exportedTags cfg) effectiveRegion accountID in
            Returns (dp_labelled cwm yaceLabels,
                     {| world := next_seed (world st);
                        resourceCache := resourceCache st;
                        associatorCache := associatorCache st |})
        end
    end.

(** What the loops carry besides the maps: [metric.Name] of the metric
    being visited and the scope's [newMetrics]. *)
Record LoopState : Type := {
  metricName : string;
  newMetrics : list Metric;
  enrich : EnrichState
}.

(** One iteration of [for _, dp := range t.Summary.GetDataPoints()]. *)
Definition dataPoint_body (accountID effectiveRegion : string)
    (dp : SummaryDataPoint) (ls : LoopState)
    : outcome (SummaryDataPoint * LoopState * option error) :=
  match enrichDataPoint accountID effectiveRegion dp (enrich ls) with
  | Panics => Panics
  | Returns (dp_continue, st) =>
      Returns (dp, {| metricName := metricName ls; newMetrics := newMetrics ls;
                      enrich := st |}, None)
  | Returns (dp_return err, st) =>
      Returns (dp, {| metricName := metricName ls; newMetrics := newMetrics ls;
                      enrich := st |}, Some err)
  | Returns (dp_labelled cwm yaceLabels, st) =>
      if yaceCompatMode cfg then
        let gauges := summaryToGauges cwm dp yaceLabels (yaceCompatStats cfg) in
        Returns (dp, {| metricName := metricName ls;
                        newMetrics := newMetrics ls ++ gauges;
                        enrich := st |}, None)
      else
        let attrs := sdp_Attributes dp in
        let statistic := attrValue attrs "Statistic" in
        let statistic :=
          if String.eqb statistic "" then attrValue attrs "statistic" else statistic in
        Returns ({| sdp_Attributes := Some <$> yaceLabels;
                    sdp_StartTimeUnixNano := sdp_StartTimeUnixNano dp;
                    sdp_TimeUnixNano := sdp_TimeUnixNano dp;
                    sdp_Count := sdp_Count dp;
                    sdp_Sum := sdp_Sum dp;
                    sdp_QuantileValues := sdp_QuantileValues dp;
                    sdp_Flags := sdp_Flags dp |},
                 {| metricName :=
                      BuildMetricName (model.Namespace cwm) (model.MetricName cwm)
                        statistic;
                    newMetrics := newMetrics ls;
                    enrich := st |}, None)
  end.

(** One iteration of [for _, metric := range sm.GetMetrics()]. *)
Definition metric_body (accountID effectiveRegion : string)
    (metric : Metric) (acc : list Metric * EnrichState)
    : outcome (Metric * (list Metric * EnrichState) * option error) :=
  match Data metric with
  | Metric_Summary dps =>
      match for_each (dataPoint_body accountID effectiveRegion) dps
              {| metricName := Name metric; newMetrics := acc.1; enrich := acc.2 |} with
      | Panics => Panics
      | Returns (dps', ls, err) =>
          Returns ({| Name := metricName ls;
                      Description := Description metric;
                      Unit := Unit metric;
                      Data := Metric_Summary dps' |},
                   (newMetrics ls, enrich ls), err)
      end
  | _ =>
      if yaceCompatMode cfg
      then Returns (metric, (acc.1 ++ [metric], acc.2), None)
      else Returns (metric, acc, None)
  end.

(** One iteration of [for smIdx, sm := range rm.GetScopeMetrics()]. *)
Definition scope_body (accountID effectiveRegion : string)
    (sm : ScopeMetrics) (st : EnrichState)
    : outcome (ScopeMetrics * EnrichState * option error) :=
  match for_each (metric_body accountID effectiveRegion) (Metrics sm) ([], st) with
  | Panics => Panics
  | Returns (metrics', (newMetrics, st), Some err) =>
      Returns ({| Scope := Scope sm; Metrics := metrics';
                  sm_SchemaUrl := sm_SchemaUrl sm |}, st, Some err)
  | Returns (metrics', (newMetrics, st), None) =>
      Returns ({| Scope := Scope sm;
                  Metrics := if yaceCompatMode cfg then newMetrics else metrics';
                  sm_SchemaUrl := sm_SchemaUrl sm |}, st, None)
  end.

(** One iteration of [for _, rm := range req.GetResourceMetrics()]. *)
Definition resource_body (rm : ResourceMetrics) (st : EnrichState)
    : outcome (ResourceMetrics * EnrichState * option error) :=
  let '(accountID, resourceRegion) := extractResourceAttributes rm in
  let effectiveRegion :=
    match region cfg with
    | Some reg => if String.eqb resourceRegion "" then reg else resourceRegion
    | None => resourceRegion
    end in
  match for_each (scope_body accountID effectiveRegion) (ScopeMetrics_ rm) st with
  | Panics => Panics
  | Returns (sms, st, err) =>
      Returns ({| Resource := Resource rm; ScopeMetrics_ := sms;
                  rm_SchemaUrl := rm_SchemaUrl rm |}, st, err)
  end.

Definition request_body (req : metricsservicepb.ExportMetricsServiceRequest)
    (st : EnrichState)
    : outcome (metricsservicepb.ExportMetricsServiceRequest * EnrichState * option error) :=
  match for_each resource_body (metricsservicepb.ResourceMetrics req) st with
  | Panics => Panics
  | Returns (rms, st, err) =>
      Returns ({| metricsservicepb.ResourceMetrics := rms |}, st, err)
  end.

(** [enhanceRequests]: the batch as the call leaves it, the maps and the
    world, and the error returned. *)
Definition enhanceRequests
    (expMetricsReqs : list metricsservicepb.ExportMetricsServiceRequest)
    (st : EnrichState)
    : outcome (list metricsservicepb.ExportMetricsServiceRequest
               * EnrichState * option error) :=
  for_each request_body expMetricsReqs st.

End Orchestrator.


(* ===================================================================== *)
(** * Instances for running the model                                      *)
(* ===================================================================== *)

(** The statements below hold for every instance of the interfaces; the
    instances here stand in for the third-party packages where a statement
    is run on a concrete input.  They follow YACE on ASCII names. *)
Module Sample.

Definition is_upper (c : ascii) : bool :=
  ((65 <=? N_of_ascii c) && (N_of_ascii c <=? 90))%N.
Definition is_lower (c : ascii) : bool :=
  ((97 <=? N_of_ascii c) && (N_of_ascii c <=? 122))%N.
Definition is_digit (c : ascii) : bool :=
  ((48 <=? N_of_ascii c) && (N_of_ascii c <=? 57))%N.
Definition to_lower (c : ascii) : ascii :=
  if is_upper c then ascii_of_N (N_of_ascii c + 32) else c.

Definition is_separator (c : ascii) : bool :=
  existsb (Ascii.eqb c)
    [" "; ","; "009"; "/"; "\"; "."; "-"; ":"; "="; "@"; "<"; ">"; "("; ")"]%char.

(** [promutil.PromString]: separators become underscores and a capital after
    a lower-case letter or a digit starts a new word. *)
Fixpoint PromString_from (prev : ascii) (text : string) : string :=
  match text with
  | "" => ""
  | String c text' =>
      (if is_separator c then "_"
       else if Ascii.eqb c "%" then "_percent"
       else if (is_upper c && (is_lower prev || is_digit prev))%bool
            then String "_" (String (to_lower c) "")
            else String (to_lower c) "")
      +:+ PromString_from c text'
  end.

Definition PromString (text : string) : string := PromString_from "000" text.

(** [sanitize]: the separators alone are replaced. *)
Fixpoint sanitize (text : string) : string :=
  match text with
  | "" => ""
  | String c text' =>
      (if is_separator c then "_"
       else if Ascii.eqb c "%" then "_percent"
       else String c "")
      +:+ sanitize text'
  end.

Fixpoint all_chars (p : ascii → bool) (s : string) : bool :=
  match s with
  | "" => true
  | String c s' => p c && all_chars p s'
  end.

(** [model.LabelName(s).IsValid()] under the legacy naming scheme. *)
Definition IsValid (s : string) : bool :=
  match s with
  | "" => false
  | String c s' =>
      (is_upper c || is_lower c || Ascii.eqb c "_")
      && all_chars (λ c, is_upper c || is_lower c || is_digit c || Ascii.eqb c "_") s'
  end.

Definition ToLower (s : string) : string :=
  string_of_list_ascii (to_lower <$> list_ascii_of_string s).

Definition TrimPrefix (s prefix : string) : string :=
  if strings.HasPrefix s prefix then strings.drop (String.length prefix) s else s.

Definition BuildMetricName (namespace metricName statistic : string) : string :=
  let promNs := PromString (ToLower namespace) in
  let promNs :=
    if strings.HasPrefix promNs "/"
    then PromString (ToLower (strings.drop 1 namespace)) else promNs in
  let head := (if strings.HasPrefix promNs "aws" then "" else "aws_") +:+ promNs +:+ "_" in
  let promMetricName := PromString metricName in
  let skip :=
    fold_left
      (λ skip part,
         if strings.HasPrefix (strings.drop skip promMetricName) part
         then String.length part else skip)
      (strings.Split promNs "_") 0%nat in
  let promMetricName := TrimPrefix (strings.drop skip promMetricName) "_" in
  head +:+ promMetricName
    +:+ (if String.eqb statistic "" then "" else "_" +:+ PromString statistic).

Definition promutil : Promutil :=
  Build_Promutil
    (λ text labelsSnakeCase,
       let s := if labelsSnakeCase then PromString text else sanitize text in
       (IsValid s, s))
    BuildMetricName.

(** [TaggedResource.MetricTags]: one tag per exported key, with the value of
    the resource's first tag of that key, or the empty string. *)
Definition MetricTags (r : model.TaggedResource) (tagsOnMetrics : list string)
    : list model.Tag :=
  (λ tagName,
     {| model.Key := tagName;
        model.Value :=
          match List.find (λ t, String.eqb (model.Key t) tagName) (model.Tags r) with
          | Some t => model.Value t
          | None => ""
          end |}) <$> tagsOnMetrics.

Definition gomodel : GoModel :=
  Build_GoModel MetricTags (λ _ m, map_to_list m) (λ _ m, reflexivity _).

(** The double quote. *)
Definition dq : string := String "034" "".

Definition quoted (s : string) : string := dq +:+ s +:+ dq.

Definition hex_digit (n : N) : ascii :=
  if (n <? 10)%N then ascii_of_N (48 + n) else ascii_of_N (87 + n).

(** A JSON string literal as [json.Marshal] writes it for ASCII text. *)
Fixpoint escape (s : string) : string :=
  match s with
  | "" => ""
  | String c s' =>
      (if (Ascii.eqb c "034" || Ascii.eqb c "\")%bool then String "\" (String c "")
       else if ((N_of_ascii c <? 32)%N || Ascii.eqb c "<" || Ascii.eqb c ">"
                || Ascii.eqb c "&")%bool
       then "\u00" +:+ String (hex_digit (N_of_ascii c / 16)) (String (hex_digit (N_of_ascii c mod 16)) "")
       else String c "")
      +:+ escape s'
  end.

Definition commas (l : list string) : string :=
  match l with
  | [] => ""
  | x :: l' => fold_left (λ acc y, acc +:+ "," +:+ y) l' x
  end.

Definition write_tag (t : model.Tag) : string :=
  "{" +:+ quoted "Key" +:+ ":" +:+ quoted (escape (model.Key t)) +:+ ","
      +:+ quoted "Value" +:+ ":" +:+ quoted (escape (model.Value t)) +:+ "}".

Definition write_resource (r : model.TaggedResource) : string :=
  "{" +:+ quoted "ARN" +:+ ":" +:+ quoted (escape (model.ARN r)) +:+ ","
      +:+ quoted "Namespace" +:+ ":" +:+ quoted (escape (model.tr_Namespace r)) +:+ ","
      +:+ quoted "Region" +:+ ":" +:+ quoted (escape (model.Region r)) +:+ ","
      +:+ quoted "Tags" +:+ ":[" +:+ commas (write_tag <$> model.Tags r) +:+ "]}".

Definition MarshalResources (rs : list model.TaggedResource) : option string :=
  Some ("[" +:+ commas (write_resource <$> rs) +:+ "]").

(** The reader of what [MarshalResources] writes; everything else is
    rejected. *)
Definition expect (tok s : string) : option string :=
  if strings.HasPrefix s tok then Some (strings.drop (String.length tok) s) else None.

Definition read_string (s : string) : option (string * string) :=
  s ← expect dq s; json.string_body (S (String.length s)) s.

Definition read_field (name s : string) : option (string * string) :=
  s ← expect (quoted name +:+ ":") s; read_string s.

Fixpoint read_list {A : Type} (item : string → option (A * string))
    (fuel : nat) (s : string) : option (list A * string) :=
  match fuel with
  | O => None
  | S fuel' =>
      '(x, s) ← item s;
      match s with
      | String "," s' => '(xs, s) ← read_list item fuel' s'; Some (x :: xs, s)
      | String "]" s' => Some ([x], s')
      | _ => None
      end
  end.

Definition read_array {A : Type} (item : string → option (A * string))
    (s : string) : option (list A * string) :=
  s ← expect "[" s;
  match s with
  | String "]" s' => Some ([], s')
  | _ => read_list item (String.length s) s
  end.

Definition read_tag (s : string) : option (model.Tag * string) :=
  s ← expect "{" s;
  '(k, s) ← read_field "Key" s;
  s ← expect "," s;
  '(v, s) ← read_field "Value" s;
  s ← expect "}" s;
  Some ({| model.Key := k; model.Value := v |}, s).

Definition read_resource (s : string) : option (model.TaggedResource * string) :=
  s ← expect "{" s;
  '(arn, s) ← read_field "ARN" s;
  s ← expect "," s;
  '(ns, s) ← read_field "Namespace" s;
  s ← expect "," s;
  '(reg, s) ← read_field "Region" s;
  s ← expect ("," +:+ quoted "Tags" +:+ ":") s;
  '(tags, s) ← read_array read_tag s;
  s ← expect "}" s;
  Some ({| model.ARN := arn; model.tr_Namespace := ns; model.Region := reg;
           model.Tags := tags |}, s).

Definition UnmarshalResources (b : string) : option (list model.TaggedResource) :=
  '(rs, s) ← read_array read_resource b;
  if String.eqb s "" then Some rs else None.

Definition json : JSON :=
  Build_JSON json.UnmarshalStrings MarshalResources UnmarshalResources.

(** A tagging client that gives its [k]-th caller the [k]-th answer of a
    script, and fails once the script is over. *)
Definition client (script : list (list model.TaggedResource * option error))
    : Tagging :=
  Build_Tagging
    (λ k _ _, default ([], Some (ErrTagging "no answer scripted")) (script !! k)).

(** Two supported services, and an associator that picks the first resource
    whose ARN contains the value of one of the metric's dimensions. *)
Definition associators : Associators :=
  Build_Associators
    unit
    (λ ns, if existsb (String.eqb ns) ["AWS/EC2"; "AWS/EBS"] then Some () else None)
    (list model.TaggedResource)
    (λ _ resources, resources)
    (λ resources cwm,
       (List.find
          (λ r, existsb (λ d, strings.Contains (model.ARN r) (model.dim_Value d))
                  (model.Dimensions cwm))
          resources,
        false)).

(** Messages as opaque payloads: every body is a message, except that a
    body starting with a zero tag byte does not parse. *)
Definition proto : Proto (list byte) :=
  Build_Proto (list byte)
    (λ m, Some m)
    (λ b, match b with x00 :: _ => None | _ => Some b end)
    (λ _, true).

(** A part of the wire format of the request type: a body made of empty
    resource entries, each the two bytes [0a 00] (field 1, length 0), is the
    message with that many entries, and [proto.Marshal] writes it back as
    it was.  Bodies such as [08] or [0a], a tag with nothing after it, do
    not parse.  Every other body is refused here too, though
    [proto.Unmarshal] accepts more.  The runtime allocates up to 1 MiB for
    a message. *)
Fixpoint empty_entries (b : list byte) : bool :=
  match b with
  | [] => true
  | x0a :: x00 :: b' => empty_entries b'
  | _ => false
  end.

Definition wire : Proto (list byte) :=
  Build_Proto (list byte)
    (λ m, if empty_entries m then Some m else None)
    (λ b, if empty_entries b then Some b else None)
    (λ n, (N.of_nat n <=? 1048576)%N).

(** The resource and the data point of the repository's tests. *)
Definition ec2ARN : string :=
  "arn:aws:ec2:us-east-1:123456789012:instance/i-1234567890abcdef0".

Definition ec2Resource : model.TaggedResource :=
  {| model.ARN := ec2ARN;
     model.tr_Namespace := "AWS/EC2";
     model.Region := "us-east-1";
     model.Tags := [ {| model.Key := "Name"; model.Value := "my-instance" |};
                     {| model.Key := "Environment"; model.Value := "prod" |} ] |}.

Definition ec2InputAttrsOTLP10 (instanceID : string)
    : list (option commonpb.KeyValue) :=
  [ Some (commonpb.strKV "Namespace" "AWS/EC2");
    Some (commonpb.strKV "MetricName" "CPUUtilization");
    Some (commonpb.Build_KeyValue "Dimensions"
            (Some (commonpb.AnyValue_KvlistValue
                     [Some (commonpb.strKV "InstanceId" instanceID)]))) ].

(** A world whose cache directory holds one file for AWS/EC2, written at
    time 1000, and whose clock always reads [now]. *)
Definition cache_world (now : Z) (content : string) : World :=
  {| files := {[ "/tmp/cache-AWS-EC2" := {| data := content; modTime := 1000 |} ]};
     clock := λ _, now; ticks := 0; calls := 0; seed := 0; trace := [] |}.

Definition ec2Cached : string := default "" (MarshalResources [ec2Resource]).

(** The request of [TestEnhanceEC2YACECompatMode], with a gauge metric next
    to the summary, and the arguments of the test's call. *)
Definition summaryPoint : metricspb.SummaryDataPoint :=
  {| metricspb.sdp_Attributes := ec2InputAttrsOTLP10 "i-1234567890abcdef0";
     metricspb.sdp_StartTimeUnixNano := 900000000;
     metricspb.sdp_TimeUnixNano := 1000000000;
     metricspb.sdp_Count := 10;
     metricspb.sdp_Sum := 50;
     metricspb.sdp_QuantileValues :=
       [ {| metricspb.Quantile := 0; metricspb.Value := 2 |};
         {| metricspb.Quantile := 1; metricspb.Value := 10 |} ];
     metricspb.sdp_Flags := 0 |}.

Definition otherMetric : metricspb.Metric :=
  {| metricspb.Name := "other"; metricspb.Description := ""; metricspb.Unit := "";
     metricspb.Data := metricspb.Metric_Gauge [] |}.

Definition request : metricsservicepb.ExportMetricsServiceRequest :=
  {| metricsservicepb.ResourceMetrics :=
       [ {| metricspb.Resource :=
              Some [ Some (commonpb.strKV "cloud.account.id" "123456789012");
                     Some (commonpb.strKV "cloud.region" "us-east-1") ];
            metricspb.ScopeMetrics_ :=
              [ {| metricspb.Scope := "";
                   metricspb.Metrics :=
                     [ {| metricspb.Name := "amazonaws.com/AWS/EC2/CPUUtilization";
                          metricspb.Description := ""; metricspb.Unit := "";
                          metricspb.Data := metricspb.Metric_Summary [summaryPoint] |};
                       otherMetric ];
                   metricspb.sm_SchemaUrl := "" |} ];
            metricspb.rm_SchemaUrl := "" |} ] |}.

Definition settings (yace continue : bool) : Settings :=
  {| fileCachePath := "/tmp"; continueOnResourceFailure := continue;
     region := Some "us-east-1"; fileCacheExpiration := 0; fileCacheEnabled := false;
     staticLabels := ∅; defaultLabels := false; labelsSnakeCase := true;
     exportedTags := []; yaceCompatMode := yace;
     yaceCompatStats := (@parseYACEStats json "").1 |}.

Definition emptyWorld : World :=
  {| files := ∅; clock := λ _, 0%Z; ticks := 0; calls := 0; seed := 0; trace := [] |}.

(** The maps as the tests fill them before the call. *)
Definition filled : @EnrichState associators :=
  {| world := emptyWorld;
     resourceCache := {[ "AWS/EC2" := [ec2Resource] ]};
     associatorCache := {[ "AWS/EC2" := [ec2Resource] ]} |}.

(** The maps at the start of an invocation. *)
Definition fresh : @EnrichState associators :=
  {| world := emptyWorld; resourceCache := ∅; associatorCache := ∅ |}.

(** A data point without attributes, and a request whose summaries hold it:
    one next to the data point of the test and one alone. *)
Definition barePoint : metricspb.SummaryDataPoint :=
  {| metricspb.sdp_Attributes := [];
     metricspb.sdp_StartTimeUnixNano := 900000000;
     metricspb.sdp_TimeUnixNano := 1000000000;
     metricspb.sdp_Count := 1;
     metricspb.sdp_Sum := 1;
     metricspb.sdp_QuantileValues := [];
     metricspb.sdp_Flags := 0 |}.

Definition mixed : metricsservicepb.ExportMetricsServiceRequest :=
  {| metricsservicepb.ResourceMetrics :=
       [ {| metricspb.Resource :=
              Some [ Some (commonpb.strKV "cloud.account.id" "123456789012");
                     Some (commonpb.strKV "cloud.region" "us-east-1") ];
            metricspb.ScopeMetrics_ :=
              [ {| metricspb.Scope := "";
                   metricspb.Metrics :=
                     [ {| metricspb.Name := "first";
                          metricspb.Description := "cpu"; metricspb.Unit := "Percent";
                          metricspb.Data :=
                            metricspb.Metric_Summary [summaryPoint; barePoint] |};
                       {| metricspb.Name := "second";
                          metricspb.Description := ""; metricspb.Unit := "";
                          metricspb.Data := metricspb.Metric_Summary [barePoint] |};
                       otherMetric ];
                   metricspb.sm_SchemaUrl := "" |} ];
            metricspb.rm_SchemaUrl := "" |} ] |}.

(** Three data points of one namespace under one summary. *)
Definition threePoints : metricsservicepb.ExportMetricsServiceRequest :=
  {| metricsservicepb.ResourceMetrics :=
       [ {| metricspb.Resource := None;
            metricspb.ScopeMetrics_ :=
              [ {| metricspb.Scope := "";
                   metricspb.Metrics :=
                     [ {| metricspb.Name := "amazonaws.com/AWS/EC2/CPUUtilization";
                          metricspb.Description := ""; metricspb.Unit := "";
                          metricspb.Data :=
                            metricspb.Metric_Summary
                              [summaryPoint; summaryPoint; summaryPoint] |} ];
                   metricspb.sm_SchemaUrl := "" |} ];
            metricspb.rm_SchemaUrl := "" |} ] |}.




Definition noNamespace : model.Metric :=
  {| model.Namespace := ""; model.MetricName := "CPUUtilization";
     model.Dimensions := [] |}.

End Sample.


(* ===================================================================== *)
(** * Definitions used in the statements                                   *)
(* ===================================================================== *)

(** The key and the value of an entry: what stands before its first ['=']
    and what stands after it. *)
Definition key_value (label : string) : string * string :=
  match strings.Index label "=" with
  | Some m => (strings.take m label, strings.drop (S m) label)
  | None => (label, "")
  end.


(** A string that [strings.ReplaceAll(s, ".", "_")] leaves as it is. *)
Definition no_dot (s : string) : Prop := strings.ReplaceAll1 s "." "_" = s.


(** The labels a list of (name, value) entries contributes under a prefix:
    one per entry whose normalised name is a valid label name, in the order
    of the entries, the value unchanged. *)
Definition labels_of `{!Promutil} (prefix : string) (labelsSnakeCase : bool)
    (entries : list (string * string)) : list commonpb.KeyValue :=
  omap
    (λ kv, let '(ok, promTag) := PromStringTag kv.1 labelsSnakeCase in
           if ok then Some (commonpb.strKV (prefix +:+ promTag) kv.2) else None)
    entries.

(** The number of labels of a given key. *)
Definition count_key (key : string) (labels : list commonpb.KeyValue) : nat :=
  length (filter (λ kv, commonpb.GetKey kv = key) labels).

(** A continuation byte of a varint: its top bit is set. *)
Definition cont (b : byte) : bool := (128 <=? Byte.to_N b)%N.

(** The number a varint denotes: seven bits a byte, least significant group
    first. *)
Fixpoint varint_value (bs : list byte) : N :=
  match bs with
  | [] => 0
  | b :: bs' => N.lor (N.land (Byte.to_N b) 127) (N.shiftl (varint_value bs') 7)
  end.

(** A length prefix the reader accepts: at most four continuation bytes and
    a final byte.  It need not be the shortest encoding of its value. *)
Definition header (hdr : list byte) : Prop :=
  ∃ conts last,
    hdr = conts ++ [last]
    ∧ Forall (λ b, cont b = true) conts ∧ cont last = false
    ∧ (length conts < binary.MaxVarintLen32)%nat.

(** [reads r msgs r']: reading from [r], the messages [msgs] are decoded one
    after the other and [r'] is left. *)
Inductive reads {Msg : Type} `{!Proto Msg}
    : list byte → list Msg → list byte → Prop :=
  | reads_done (r : list byte) : reads r [] r
  | reads_more (r r' r'' : list byte) (m : Msg) (msgs : list Msg) :
      pbutil.ReadDelimited r = Some (inl (m, r')) →
      reads r' msgs r'' →
      reads r (m :: msgs) r''.

(** The ends of a buffer that the reader reports as [io.EOF]: nothing left,
    a length prefix cut short, or a complete non-zero length prefix with not
    one byte of the message after it. *)
Definition ends_in_EOF (r : list byte) : Prop :=
  (Forall (λ b, cont b = true) r ∧ (length r < binary.MaxVarintLen32)%nat)
  ∨ (header r ∧ (0 < varint_value r)%N).

(** The runtime allocates the buffer of the message that the length prefix
    [hdr] announces. *)
Definition granted {Msg : Type} `{!Proto Msg} (hdr : list byte) : Prop :=
  makeslice (N.to_nat (varint_value hdr)) = true.

(** A rest of the buffer over which the process is killed: a length prefix
    that announces more bytes than follow it, and more than the runtime
    allocates. *)
Definition refused {Msg : Type} `{!Proto Msg} (rest : list byte) : Prop :=
  ∃ hdr body,
    rest = hdr ++ body ∧ header hdr
    ∧ (length body < N.to_nat (varint_value hdr))%nat
    ∧ makeslice (N.to_nat (varint_value hdr)) = false.

(** A frame as [WriteDelimited] writes it: the shortest encoding of the
    length of the body, and the body. *)
Definition frame (body : list byte) : list byte :=
  binary.PutUvarint (N.of_nat (length body)) ++ body.

(** A buffer made of frames as the encoder writes them, and the messages
    they hold: each body is what [Marshal] gives for the message it
    unmarshals to, under a length prefix in its shortest form. *)
Inductive canonical {Msg : Type} `{!Proto Msg} : list byte → list Msg → Prop :=
  | canonical_nil : canonical [] []
  | canonical_cons (body x : list byte) (m : Msg) (msgs : list Msg) :
      Unmarshal body = Some m →
      Marshal m = Some body →
      (N.of_nat (length body) < 2 ^ 35)%N →
      canonical x msgs →
      canonical (frame body ++ x) (m :: msgs).

(** The world after the file was opened and, when it exists, the clock was
    read for the expiry test. *)
Definition opened (namespace filePath : string) (exists_ : bool) (w : World) : World :=
  let w := log_event (CacheOpen namespace filePath) w in
  if exists_ then (time_Now w).2 else w.


(** The statistics a data point can give a gauge for and their values, in
    the order of the gauges: the count, the sum, the average when the count
    is positive, and one per quantile. *)
Definition available_values (dp : metricspb.SummaryDataPoint) : list (string * float) :=
  [ ("SampleCount", float64.of_int (metricspb.sdp_Count dp));
    ("Sum", metricspb.sdp_Sum dp) ]
  ++ (if (0 <? metricspb.sdp_Count dp)%Z
      then [ ("Average",
              (metricspb.sdp_Sum dp / float64.of_int (metricspb.sdp_Count dp))%float) ]
      else [])
  ++ ((λ qv, (quantileToStatistic (metricspb.Quantile qv), metricspb.Value qv))
        <$> metricspb.sdp_QuantileValues dp).

(** The gauge of a statistic of a data point: a metric named after the
    statistic, with no description and no unit, whose only data point
    carries the labels, the two time stamps of the summary data point and
    the value of the statistic as a double. *)
Definition statistic_gauge `{!Promutil} (cwm : model.Metric)
    (dp : metricspb.SummaryDataPoint) (labels : list commonpb.KeyValue)
    (sv : string * float) : metricspb.Metric :=
  {| metricspb.Name :=
       BuildMetricName (model.Namespace cwm) (model.MetricName cwm) sv.1;
     metricspb.Description := "";
     metricspb.Unit := "";
     metricspb.Data :=
       metricspb.Metric_Gauge
         [ {| metricspb.ndp_Attributes := Some <$> labels;
              metricspb.ndp_StartTimeUnixNano := metricspb.sdp_StartTimeUnixNano dp;
              metricspb.ndp_TimeUnixNano := metricspb.sdp_TimeUnixNano dp;
              metricspb.ndp_Value := Some (metricspb.NumberDataPoint_AsDouble sv.2) |} ] |}.

(** The statistic in the name of a summary that is renamed in place: the
    attribute [Statistic], or [statistic] when that is missing or empty. *)
Definition statistic_of (attrs : list (option commonpb.KeyValue)) : string :=
  if String.eqb (attrValue attrs "Statistic") "" then attrValue attrs "statistic"
  else attrValue attrs "Statistic".

(** A loop seen from its two ends: the elements are visited in order, and
    [step a s b s'] tells that the visit of [a] in the state [s] yields [b]
    and leaves the state [s']. *)
Inductive visits {A B S : Type} (step : A → S → B → S → Prop)
    : list A → S → list B → S → Prop :=
  | visits_nil (s : S) : visits step [] s [] s
  | visits_cons (a : A) (l : list A) (s : S) (b : B) (s1 : S) (bs : list B) (s2 : S) :
      step a s b s1 → visits step l s1 bs s2 → visits step (a :: l) s (b :: bs) s2.

(** What enrichment makes of a batch, level by level.  [accountID] and
    [effectiveRegion] are those of the resource group the data point lies
    in; the states are the two maps and the world before and after. *)
Section Enriched.
Context `{!Promutil, !GoModel, !JSON, !Tagging, !Associators}.
Variable cfg : Settings.
Import metricspb.

(** How the visit of a data point ends, read off the data point and the
    states before and after.  It is skipped when its attributes name no
    metric or no namespace or the namespace is not a supported service, and
    nothing has happened then; it is skipped too, under the
    continue-on-failure policy, when the map has no resources for the
    namespace and they cannot be had, and without that policy the call
    returns the error.  Else the data point gets its labels: those the
    builder makes of the answer of the associator of the namespace, which
    is the one the map held or else a new one over the resources of the
    namespace. *)
Definition dp_outcome (accountID effectiveRegion : string)
    (dp : SummaryDataPoint) (st : EnrichState) (step : dp_step) (st' : EnrichState)
    : Prop :=
  let cwm := buildCloudWatchMetricFromKeyValues (sdp_Attributes dp) in
  let namespace := model.Namespace cwm in
  let fetched :=
    getOrCacheResources (fileCachePath cfg) namespace (region cfg)
      (fileCacheExpiration cfg) (fileCacheEnabled cfg) (world st) in
  match step with
  | dp_continue =>
      (st' = st
       ∧ (model.MetricName cwm = "" ∨ namespace = "" ∨ GetService namespace = None))
      ∨ (model.MetricName cwm ≠ "" ∧ namespace ≠ "" ∧ is_Some (GetService namespace)
         ∧ continueOnResourceFailure cfg = true
         ∧ resourceCache st !! namespace = None
         ∧ ∃ err, fetched = Returns (inr err, world st')
                  ∧ err ≠ ErrExpectedToFindResources)
  | dp_return err =>
      model.MetricName cwm ≠ "" ∧ namespace ≠ "" ∧ is_Some (GetService namespace)
      ∧ continueOnResourceFailure cfg = false
      ∧ resourceCache st !! namespace = None
      ∧ fetched = Returns (inr err, world st')
      ∧ err ≠ ErrExpectedToFindResources
  | dp_labelled cwm' yaceLabels =>
      cwm' = cwm ∧ model.MetricName cwm ≠ "" ∧ namespace ≠ ""
      ∧ ∃ svc resources asc,
          GetService namespace = Some svc
          ∧ resourceCache st' !! namespace = Some resources
          ∧ associatorCache st' !! namespace = Some asc
          ∧ asc = default (NewAssociator svc resources) (associatorCache st !! namespace)
          ∧ yaceLabels
            = buildYACELabelsKeyValue (seed (world st)) cwm
                (AssociateMetricToResource asc cwm).1
                (AssociateMetricToResource asc cwm).2
                (staticLabels cfg) (defaultLabels cfg) (labelsSnakeCase cfg)
                (exportedTags cfg) effectiveRegion accountID
  end.

(** Expansion mode.  The visit of the data point ends as [dp_outcome] says.
    A data point that is skipped gives no gauge; one that gets labels gives
    the gauges of its statistics that are enabled, in the order of
    [available_values], under those labels. *)
Definition dp_expanded (accountID effectiveRegion : string)
    (dp : SummaryDataPoint) (st : EnrichState)
    (gauges : list Metric) (st' : EnrichState) : Prop :=
  ∃ step,
    enrichDataPoint cfg accountID effectiveRegion dp st = Returns (step, st')
    ∧ dp_outcome accountID effectiveRegion dp st step st'
    ∧ match step with
      | dp_continue => gauges = []
      | dp_return _ => False
      | dp_labelled cwm yaceLabels =>
          gauges
          = statistic_gauge cwm dp yaceLabels
              <$> filter (λ sv, enabled (yaceCompatStats cfg) sv.1 = true)
                    (available_values dp)
      end.

(** What a metric contributes to the new list: the gauges of its data
    points, in their order, or itself when it is not a summary. *)
Definition metric_expansion (accountID effectiveRegion : string)
    (metric : Metric) (st : EnrichState) (out : list Metric) (st' : EnrichState)
    : Prop :=
  match Data metric with
  | Metric_Summary dps =>
      ∃ gss, visits (dp_expanded accountID effectiveRegion) dps st gss st'
             ∧ out = concat gss
  | _ => out = [metric] ∧ st' = st
  end.

(** Compatibility mode.  A data point that is skipped stays as it is, and so
    does the name of its metric; one that gets labels has them for
    attributes, nothing else of it changes, and its metric is named after
    it.  The state of this loop is the name of the metric next to the maps
    and the world. *)
Definition dp_in_place (accountID effectiveRegion : string)
    (dp : SummaryDataPoint) (s : string * EnrichState)
    (dp' : SummaryDataPoint) (s' : string * EnrichState) : Prop :=
  ∃ step,
    enrichDataPoint cfg accountID effectiveRegion dp s.2 = Returns (step, s'.2)
    ∧ dp_outcome accountID effectiveRegion dp s.2 step s'.2
    ∧ match step with
      | dp_continue => dp' = dp ∧ s'.1 = s.1
      | dp_return _ => False
      | dp_labelled cwm yaceLabels =>
          dp' = {| sdp_Attributes := Some <$> yaceLabels;
                   sdp_StartTimeUnixNano := sdp_StartTimeUnixNano dp;
                   sdp_TimeUnixNano := sdp_TimeUnixNano dp;
                   sdp_Count := sdp_Count dp;
                   sdp_Sum := sdp_Sum dp;
                   sdp_QuantileValues := sdp_QuantileValues dp;
                   sdp_Flags := sdp_Flags dp |}
          ∧ s'.1
            = BuildMetricName (model.Namespace cwm) (model.MetricName cwm)
                (statistic_of (sdp_Attributes dp))
      end.

(** A metric stays in its place: a summary keeps its description and its
    unit, has its data points as [dp_in_place] leaves them and the name the
    last of them that got labels gave it, its old name if none did; any
    other metric is untouched. *)
Definition metric_in_place (accountID effectiveRegion : string)
    (metric : Metric) (st : EnrichState) (metric' : Metric) (st' : EnrichState)
    : Prop :=
  match Data metric with
  | Metric_Summary dps =>
      ∃ dps' name',
        visits (dp_in_place accountID effectiveRegion) dps (Name metric, st)
          dps' (name', st')
        ∧ metric' = {| Name := name';
                       Description := Description metric;
                       Unit := Unit metric;
                       Data := Metric_Summary dps' |}
  | _ => metric' = metric ∧ st' = st
  end.

(** A scope keeps all but its metric list.  In expansion mode the new list
    is the concatenation of what its metrics contribute, in their order; in
    compatibility mode the list has its old length and every metric stands
    where it stood. *)
Definition scope_enriched (accountID effectiveRegion : string)
    (sm : ScopeMetrics) (st : EnrichState) (sm' : ScopeMetrics) (st' : EnrichState)
    : Prop :=
  if yaceCompatMode cfg then
    ∃ outs,
      visits (metric_expansion accountID effectiveRegion) (Metrics sm) st outs st'
      ∧ sm' = {| Scope := Scope sm; Metrics := concat outs;
                 sm_SchemaUrl := sm_SchemaUrl sm |}
  else
    ∃ metrics',
      visits (metric_in_place accountID effectiveRegion) (Metrics sm) st metrics' st'
      ∧ length metrics' = length (Metrics sm)
      ∧ sm' = {| Scope := Scope sm; Metrics := metrics';
                 sm_SchemaUrl := sm_SchemaUrl sm |}.

Definition resource_enriched (rm : ResourceMetrics) (st : EnrichState)
    (rm' : ResourceMetrics) (st' : EnrichState) : Prop :=
  let accountID := (extractResourceAttributes rm).1 in
  let resourceRegion := (extractResourceAttributes rm).2 in
  let effectiveRegion :=
    match region cfg with
    | Some reg => if String.eqb resourceRegion "" then reg else resourceRegion
    | None => resourceRegion
    end in
  ∃ sms,
    visits (scope_enriched accountID effectiveRegion) (ScopeMetrics_ rm) st sms st'
    ∧ rm' = {| Resource := Resource rm; ScopeMetrics_ := sms;
               rm_SchemaUrl := rm_SchemaUrl rm |}.

Definition request_enriched
    (req : metricsservicepb.ExportMetricsServiceRequest) (st : EnrichState)
    (req' : metricsservicepb.ExportMetricsServiceRequest) (st' : EnrichState) : Prop :=
  ∃ rms,
    visits resource_enriched (metricsservicepb.ResourceMetrics req) st rms st'
    ∧ req' = {| metricsservicepb.ResourceMetrics := rms |}.

End Enriched.

(** The names of the metrics of a batch, in order. *)
Definition metric_names (batch : list metricsservicepb.ExportMetricsServiceRequest)
    : list string :=
  req ← batch;
  rm ← metricsservicepb.ResourceMetrics req;
  sm ← metricspb.ScopeMetrics_ rm;
  metricspb.Name <$> metricspb.Metrics sm.

(** [quiet st st']: between the two states every entry of the in-memory map
    was kept, and whatever was done to the outside was done for a namespace
    that had no entry in [st]. *)
Definition quiet `{!Associators} (st st' : EnrichState) : Prop :=
  (∀ ns resources,
     resourceCache st !! ns = Some resources →
     resourceCache st' !! ns = Some resources)
  ∧ ∃ evs,
      trace (world st') = trace (world st) ++ evs
      ∧ Forall (λ ev, resourceCache st !! event_namespace ev = None) evs.

(* ===================================================================== *)
(** * Further definitions used in the statements                           *)
(* ===================================================================== *)

Section AttributeScans.
Import commonpb.

(** An attribute that the scans of the attribute helpers take into account
    under [key]: a non-nil entry of that key with a non-nil value. *)
Definition counts_for (key : string) (a : option KeyValue) : bool :=
  match a with
  | Some kv => String.eqb (GetKey kv) key && bool_decide (is_Some (GetValue kv))
  | None => false
  end.

(** The string value of an attribute ([""] for a nil or non-string value). *)
Definition string_of (a : option KeyValue) : string :=
  match a with
  | Some kv => match GetValue kv with Some v => GetStringValue v | None => "" end
  | None => ""
  end.

(** The string value of the last attribute that counts for [key], or [""]. *)
Definition last_value (key : string) (attrs : list (option KeyValue)) : string :=
  match List.find (counts_for key) (rev attrs) with
  | Some a => string_of a
  | None => ""
  end.

(** The dimensions one attribute contributes: those of a [Dimensions]
    attribute whose value is a key-value list, one per entry with a value. *)
Definition dimensions_of (a : option KeyValue) : list model.Dimension :=
  match a with
  | Some kv =>
      if String.eqb (GetKey kv) "Dimensions" then
        match GetValue kv with
        | Some v =>
            match GetKvlistValue v with
            | Some kvs =>
                omap (λ kv, match kv with
                            | Some kv =>
                                match GetValue kv with
                                | Some v =>
                                    Some {| model.dim_Name := GetKey kv;
                                            model.dim_Value := GetStringValue v |}
                                | None => None
                                end
                            | None => None
                            end) kvs
            | None => []
            end
        | None => []
        end
      else []
  | None => []
  end.

(** A non-nil attribute of the given key. *)
Definition has_key (key : string) (a : option KeyValue) : bool :=
  match a with Some kv => String.eqb (GetKey kv) key | None => false end.

End AttributeScans.

(** What the orchestrator cannot enrich, and what a batch looks like without
    its summaries. *)
Section Unenrichable.
Context `{!Associators}.
Import metricspb.

(** A data point the loop skips before it asks for resources: its
    attributes do not name a metric and a namespace, or the namespace is not
    one of the supported services. *)
Definition unenrichable (dp : SummaryDataPoint) : bool :=
  let cwm := buildCloudWatchMetricFromKeyValues (sdp_Attributes dp) in
  (String.eqb (model.MetricName cwm) "" || String.eqb (model.Namespace cwm) ""
   || match GetService (model.Namespace cwm) with Some _ => false | None => true end)%bool.

Definition is_summary (metric : Metric) : bool :=
  match Data metric with Metric_Summary _ => true | _ => false end.

(** The data points of the summaries of a batch. *)
Definition summary_points (batch : list metricsservicepb.ExportMetricsServiceRequest)
    : list SummaryDataPoint :=
  req ← batch;
  rm ← metricsservicepb.ResourceMetrics req;
  sm ← ScopeMetrics_ rm;
  metric ← Metrics sm;
  match Data metric with Metric_Summary dps => dps | _ => [] end.

(** The batch with the summaries taken out of every scope. *)
Definition without_summaries (batch : list metricsservicepb.ExportMetricsServiceRequest)
    : list metricsservicepb.ExportMetricsServiceRequest :=
  (λ req,
     {| metricsservicepb.ResourceMetrics :=
          (λ rm,
             {| Resource := Resource rm;
                ScopeMetrics_ :=
                  (λ sm,
                     {| Scope := Scope sm;
                        Metrics := filter (λ metric, is_summary metric = false) (Metrics sm);
                        sm_SchemaUrl := sm_SchemaUrl sm |}) <$> ScopeMetrics_ rm;
                rm_SchemaUrl := rm_SchemaUrl rm |})
          <$> metricsservicepb.ResourceMetrics req |}) <$> batch.

(** The two maps agree: a namespace that has an associator has an entry in
    the resource map, and the associator is the one built from that entry
    for the service of the namespace. *)
Definition caches_consistent (st : EnrichState) : Prop :=
  ∀ namespace asc,
    associatorCache st !! namespace = Some asc →
    ∃ svc resources,
      GetService namespace = Some svc
      ∧ resourceCache st !! namespace = Some resources
      ∧ asc = NewAssociator svc resources.

End Unenrichable.

(* ===================================================================== *)
(** * The environment                                                      *)
(* ===================================================================== *)

(** [strings.ToLower] maps a string of ASCII bytes byte by byte; any other
    string goes through [strings.Map(unicode.ToLower, s)], which stays an
    interface. *)
Class Unicode : Type := {
  MapToLower : string → string
}.

(** What the handler asks of the runtime besides the tagging client:
    [time.ParseDuration] (nanoseconds), [clientsv2.NewFactory] for a region
    (the error, if any), [credentials] and [grpc.DialContext] with
    [WithBlock] (the error, if any), and the [k]-th call of
    [MetricsServiceClient.Export] under a timeout. *)
Inductive TransportCredentials : Type :=
  | insecure_NewCredentials
  | credentials_NewClientTLSFromCert.

Class Runtime : Type := {
  ParseDuration : string → option Z;
  NewFactory : string → option error;
  DialContext : string → TransportCredentials → Z → option error;
  Export : nat → Z → metricsservicepb.ExportMetricsServiceRequest → option error
}.

Definition time_Second : Z := 1000000000.
Definition time_Hour : Z := 3600 * time_Second.

Section Environment.
Context `{!Unicode, !Runtime}.

(** The process environment, and [os.Getenv]: [""] for a variable that is
    not set. *)
Definition Getenv (environ : gmap string string) (key : string) : string :=
  default "" (environ !! key).

Definition isASCII (s : string) : bool :=
  forallb (λ c, (N_of_ascii c <? 128)%N) (list_ascii_of_string s).

Definition lower_byte (c : ascii) : ascii :=
  if ((65 <=? N_of_ascii c) && (N_of_ascii c <=? 90))%N
  then ascii_of_N (N_of_ascii c + 32) else c.

Definition ToLower (s : string) : string :=
  if isASCII s
  then string_of_list_ascii (lower_byte <$> list_ascii_of_string s)
  else MapToLower s.

Definition envBool (environ : gmap string string) (key : string) (defaultValue : bool)
    : bool :=
  let value := ToLower (Getenv environ key) in
  if String.eqb value "" then defaultValue
  else String.eqb value "true".

Definition envString (environ : gmap string string) (key defaultValue : string)
    : string :=
  let value := Getenv environ key in
  if negb (String.eqb value "") then value else defaultValue.

Definition envDuration (environ : gmap string string) (key : string) (defaultValue : Z)
    : Z :=
  let value := Getenv environ key in
  if negb (String.eqb value "") then
    match ParseDuration value with
    | Some d => d
    | None => defaultValue
    end
  else defaultValue.

End Environment.

(* ===================================================================== *)
(** * Response records                                                     *)
(* ===================================================================== *)

(** [encoding/base64]'s [StdEncoding]. *)
Module base64.

Definition encodeStd : string :=
  "ABCDEFGHIJKLMNOPQRSTUVWXYZabcdefghijklmnopqrstuvwxyz0123456789+/".

Definition StdPadding : byte := "="%byte.

(** [enc.encode[v]]. *)
Definition encode (v : N) : byte :=
  nth (N.to_nat v) (list_byte_of_string encodeStd) x00.

Definition EncodedLen (n : nat) : nat := ((n + 2) / 3 * 4)%nat.

(** The bytes [Encode] writes: four for every three bytes of [src], and
    four with padding for the one or two bytes that may remain. *)
Fixpoint encoded (src : list byte) : list byte :=
  match src with
  | [] => []
  | [s0] =>
      let val := N.shiftl (Byte.to_N s0) 16 in
      [ encode (N.land (N.shiftr val 18) 63); encode (N.land (N.shiftr val 12) 63);
        StdPadding; StdPadding ]
  | [s0; s1] =>
      let val := N.lor (N.shiftl (Byte.to_N s0) 16) (N.shiftl (Byte.to_N s1) 8) in
      [ encode (N.land (N.shiftr val 18) 63); encode (N.land (N.shiftr val 12) 63);
        encode (N.land (N.shiftr val 6) 63); StdPadding ]
  | s0 :: s1 :: s2 :: src' =>
      let val :=
        N.lor (N.lor (N.shiftl (Byte.to_N s0) 16) (N.shiftl (Byte.to_N s1) 8))
          (Byte.to_N s2) in
      encode (N.land (N.shiftr val 18) 63) :: encode (N.land (N.shiftr val 12) 63)
        :: encode (N.land (N.shiftr val 6) 63) :: encode (N.land val 63)
        :: encoded src'
  end.

(** [enc.Encode(dst, src)]: the bytes are written over the start of [dst];
    a [dst] that is too short is an index out of range. *)
Definition Encode (dst src : list byte) : outcome (list byte) :=
  let out := encoded src in
  if (length out <=? length dst)%nat
  then Returns (out ++ drop (length out) dst)
  else Panics.

End base64.

(** [events.KinesisFirehoseEventRecord] and
    [events.KinesisFirehoseResponseRecord], with the fields the program
    reads or sets. *)
Module events.

Record KinesisFirehoseEventRecord : Type := {
  RecordID : string;
  Data : list byte
}.

Record KinesisFirehoseResponseRecord : Type := {
  resp_RecordID : string;
  Result : string;
  resp_Data : list byte
}.

End events.

Definition buildResponseRecord (recordID : string) (data : list byte)
    : outcome events.KinesisFirehoseResponseRecord :=
  let encoded := replicate (base64.EncodedLen (length data)) x00 in
  match base64.Encode encoded data with
  | Panics => Panics
  | Returns encoded =>
      Returns {| events.resp_RecordID := recordID;
                 events.Result := "Ok";
                 events.resp_Data := encoded |}
  end.

Definition passThroughRecord (record : events.KinesisFirehoseEventRecord)
    : outcome events.KinesisFirehoseResponseRecord :=
  buildResponseRecord (events.RecordID record) (events.Data record).

(* ===================================================================== *)
(** * The OTLP export                                                      *)
(* ===================================================================== *)

Section ExportRequests.
Context `{!Runtime}.

(** [exportRequests]: [sent] is the list of the requests handed to the
    client so far in the invocation, the one that failed included. *)
Fixpoint exportRequests
    (reqs : list metricsservicepb.ExportMetricsServiceRequest) (timeout : Z)
    (sent : list metricsservicepb.ExportMetricsServiceRequest)
    : list metricsservicepb.ExportMetricsServiceRequest * option error :=
  match reqs with
  | [] => (sent, None)
  | r :: reqs' =>
      match Export (length sent) timeout r with
      | Some err => (sent ++ [r], Some err)
      | None => exportRequests reqs' timeout (sent ++ [r])
      end
  end.

(** [newGRPCConn]: the error of the dial, if any. *)
Definition newGRPCConn (endpoint : string) (insecureConn : bool) (timeout : Z)
    : option error :=
  let creds :=
    if insecureConn then insecure_NewCredentials
    else credentials_NewClientTLSFromCert in
  DialContext endpoint creds timeout.

End ExportRequests.

(* ===================================================================== *)
(** * The handler                                                          *)
(* ===================================================================== *)

Section Handler.
Context `{!Promutil, !GoModel, !JSON, !Tagging, !Associators, !Unicode, !Runtime}.
Context `{!Proto metricsservicepb.ExportMetricsServiceRequest}.

(** What an invocation carries from record to record: the two maps and the
    world, and the requests handed to the OTLP client. *)
Record HandlerState : Type := {
  enrichment : EnrichState;
  sent : list metricsservicepb.ExportMetricsServiceRequest
}.

(** The [for _, record := range request.Records] loop.  [grpcClient] tells
    whether there is a client.  When the decoder does not return, because
    the runtime killed the process over the buffer of a message, neither
    does the handler. *)
Fixpoint lambdaHandler_loop
    (cfg : Settings) (continueOnExportFailure grpcClient : bool)
    (exportTimeout : Z) (outputMode : string)
    (records : list events.KinesisFirehoseEventRecord)
    (responseRecords : list events.KinesisFirehoseResponseRecord)
    (hs : HandlerState)
    : outcome ((list events.KinesisFirehoseResponseRecord + error) * HandlerState) :=
  match records with
  | [] => Returns (inl responseRecords, hs)
  | record :: records' =>
      let next (response : outcome events.KinesisFirehoseResponseRecord)
               (hs : HandlerState) :=
        match response with
        | Panics => Panics
        | Returns response =>
            lambdaHandler_loop cfg continueOnExportFailure grpcClient exportTimeout
              outputMode records' (responseRecords ++ [response]) hs
        end in
      match rawDataIntoRequests (events.Data record) with
      | None => Panics
      | Some (_, Some err) =>
          if negb continueOnExportFailure then Returns (inr err, hs)
          else next (passThroughRecord record) hs
      | Some (expMetricsReqs, None) =>
          match enhanceRequests cfg expMetricsReqs (enrichment hs) with
          | Panics => Panics
          | Returns (expMetricsReqs, st, err) =>
              let hs := {| enrichment := st; sent := sent hs |} in
              let respond (hs : HandlerState) :=
                if String.eqb outputMode "enhanced" then
                  match requestsIntoRawData expMetricsReqs with
                  | (_, Some err) =>
                      if negb continueOnExportFailure then Returns (inr err, hs)
                      else next (passThroughRecord record) hs
                  | (responseData, None) =>
                      next (buildResponseRecord (events.RecordID record) responseData) hs
                  end
                else
                  next (buildResponseRecord (events.RecordID record) (events.Data record))
                    hs in
              let export (hs : HandlerState) :=
                if grpcClient then
                  let '(sent, err) :=
                    exportRequests expMetricsReqs exportTimeout (sent hs) in
                  let hs := {| enrichment := st; sent := sent |} in
                  match err with
                  | Some err =>
                      if negb continueOnExportFailure then Returns (inr err, hs)
                      else respond hs
                  | None => respond hs
                  end
                else respond hs in
              match err with
              | Some err =>
                  if negb (continueOnResourceFailure cfg) then Returns (inr err, hs)
                  else export hs
              | None => export hs
              end
          end
      end
  end.

(** The settings the handler reads from the environment. *)
Definition handlerSettings (environ : gmap string string)
    : outcome Settings :=
  let region := Some (Getenv environ "AWS_REGION") in
  let continueOnResourceFailure := envBool environ "CONTINUE_ON_RESOURCE_FAILURE" true in
  let fileCacheEnabled := envBool environ "FILE_CACHE_ENABLED" true in
  let fileCacheExpiration := envDuration environ "FILE_CACHE_EXPIRATION" (1 * time_Hour) in
  let fileCachePath := envString environ "FILE_CACHE_PATH" "/tmp" in
  match parseStaticLabels (Getenv environ "STATIC_LABELS") with
  | Panics => Panics
  | Returns (staticLabels, _) =>
      let defaultLabels := envBool environ "DEFAULT_LABELS" false in
      let labelsSnakeCase := envBool environ "LABELS_SNAKE_CASE" true in
      let '(exportedTags, _) :=
        parseExportedTags (Getenv environ "EXPORTED_TAGS_ON_METRICS") in
      let yaceCompatMode := envBool environ "YACE_COMPAT_MODE" false in
      let yaceCompatStats :=
        match parseYACEStats (Getenv environ "YACE_COMPAT_STATS") with
        | (_, Some _) => (parseYACEStats "").1
        | (yaceCompatStats, None) => yaceCompatStats
        end in
      Returns
        {| fileCachePath := fileCachePath;
           continueOnResourceFailure := continueOnResourceFailure;
           region := region;
           fileCacheExpiration := fileCacheExpiration;
           fileCacheEnabled := fileCacheEnabled;
           staticLabels := staticLabels;
           defaultLabels := defaultLabels;
           labelsSnakeCase := labelsSnakeCase;
           exportedTags := exportedTags;
           yaceCompatMode := yaceCompatMode;
           yaceCompatStats := yaceCompatStats |}
  end.

(** [lambdaHandler]: the response records or the error, the world after the
    invocation and the requests handed to the OTLP client.  The two maps
    start empty in every invocation. *)
Definition lambdaHandler (environ : gmap string string)
    (request : list events.KinesisFirehoseEventRecord) (w : World)
    : outcome ((list events.KinesisFirehoseResponseRecord + error) * HandlerState) :=
  let continueOnExportFailure := envBool environ "CONTINUE_ON_EXPORT_FAILURE" true in
  let outputMode := ToLower (envString environ "FIREHOSE_OUTPUT_MODE" "pass_through") in
  match handlerSettings environ with
  | Panics => Panics
  | Returns cfg =>
      let hs :=
        {| enrichment := {| world := w; resourceCache := ∅; associatorCache := ∅ |};
           sent := [] |} in
      let responseRecords : list events.KinesisFirehoseResponseRecord := [] in
      match NewFactory (Getenv environ "AWS_REGION") with
      | Some err => Returns (inr err, hs)
      | None =>
          let endpoint := Getenv environ "OTEL_EXPORTER_OTLP_ENDPOINT" in
          let insecureConn := envBool environ "OTEL_EXPORTER_OTLP_INSECURE" true in
          let exportTimeout :=
            envDuration environ "OTEL_EXPORTER_OTLP_TIMEOUT" (5 * time_Second) in
          let run (grpcClient : bool) :=
            lambdaHandler_loop cfg continueOnExportFailure grpcClient exportTimeout
              outputMode request responseRecords hs in
          if negb (String.eqb endpoint "") then
            match newGRPCConn endpoint insecureConn exportTimeout with
            | Some err =>
                if negb continueOnExportFailure then Returns (inr err, hs)
                else run false
            | None => run true
            end
          else run false
      end
  end.

End Handler.

(* ===================================================================== *)
(** * Instances and definitions for the statements about the handler      *)
(* ===================================================================== *)

Module SampleRuntime.

(** Non-ASCII strings are left as they are. *)
Definition unicode : Unicode := Build_Unicode (λ s, s).

(** A runtime that knows two durations, creates its factory, answers the
    dial with [dial] and the [k]-th export with the [k]-th entry of a
    script (no error once the script is over). *)
Definition runtime (dial : option error) (script : list (option error)) : Runtime :=
  Build_Runtime
    (λ s, if String.eqb s "30m" then Some (1800 * time_Second)%Z
          else if String.eqb s "2s" then Some (2 * time_Second)%Z
          else None)
    (λ _, None)
    (λ _ _ _, dial)
    (λ k _ _, default None (script !! k)).

(** A wire format with two messages: the empty body is the request without
    resource metrics, the body [01] the request of the repository's test;
    nothing else parses, and every request with resource metrics is written
    as [01].  Every buffer is allocated. *)
Definition proto : Proto metricsservicepb.ExportMetricsServiceRequest :=
  Build_Proto metricsservicepb.ExportMetricsServiceRequest
    (λ m, match metricsservicepb.ResourceMetrics m with
          | [] => Some []
          | _ => Some [x01]
          end)
    (λ b, match b with
          | [] => Some {| metricsservicepb.ResourceMetrics := [] |}
          | [x01] => Some Sample.request
          | _ => None
          end)
    (λ _, true).

(** Two records: one frame holding the test request, and a record that is
    not a frame ([05] announces five bytes, one follows). *)
Definition records : list events.KinesisFirehoseEventRecord :=
  [ {| events.RecordID := "r-1"; events.Data := [x01; x01] |};
    {| events.RecordID := "r-2"; events.Data := [x05; x00] |} ].

Definition endpoint : gmap string string :=
  {[ "OTEL_EXPORTER_OTLP_ENDPOINT" := "collector:4317"; "AWS_REGION" := "us-east-1" ]}.

End SampleRuntime.

(** The value of a character of the base64 alphabet. *)
Fixpoint index_of (b : byte) (l : list byte) : option N :=
  match l with
  | [] => None
  | c :: l' => if Byte.eqb c b then Some 0%N else N.succ <$> index_of b l'
  end.

Definition sextet (b : byte) : option N :=
  index_of b (list_byte_of_string base64.encodeStd).

(** Reading padded base64 back, four characters at a time: three bytes from
    four characters, and at the end two bytes from three characters and one
    padding, or one byte from two characters and two paddings. *)
Fixpoint base64_decoded (text : list byte) : option (list byte) :=
  match text with
  | [] => Some []
  | c0 :: c1 :: c2 :: c3 :: text' =>
      v0 ← sextet c0;
      v1 ← sextet c1;
      if Byte.eqb c3 base64.StdPadding then
        match text' with
        | [] =>
            if Byte.eqb c2 base64.StdPadding then
              Some [binary.byte_of ((v0 * 64 + v1) / 16)]
            else
              v2 ← sextet c2;
              let w := ((v0 * 64 + v1) * 64 + v2)%N in
              Some [binary.byte_of (w / 1024); binary.byte_of (w / 4 mod 256)]
        | _ => None
        end
      else
        v2 ← sextet c2;
        v3 ← sextet c3;
        let w := (((v0 * 64 + v1) * 64 + v2) * 64 + v3)%N in
        rest ← base64_decoded text';
        Some (binary.byte_of (w / 65536) :: binary.byte_of (w / 256 mod 256)
                :: binary.byte_of (w mod 256) :: rest)
  | _ => None
  end.

Section Answers.
Context `{!Promutil, !GoModel, !JSON, !Tagging, !Associators}.
Context `{!Proto metricsservicepb.ExportMetricsServiceRequest}.

(** [answers cfg outputMode record response]: the response record has the
    id of the record and the result ["Ok"], and its data is the base64 text
    either of the data of the record, or, in the output mode ["enhanced"],
    of the encoding of the batch decoded from the record as some call of
    [enhanceRequests] left it. *)
Definition answers (cfg : Settings) (outputMode : string)
    (record : events.KinesisFirehoseEventRecord)
    (response : events.KinesisFirehoseResponseRecord) : Prop :=
  events.resp_RecordID response = events.RecordID record
  ∧ events.Result response = "Ok"
  ∧ (events.resp_Data response = base64.encoded (events.Data record)
     ∨ (outputMode = "enhanced"
        ∧ ∃ reqs reqs' st st' err responseData,
            rawDataIntoRequests (events.Data record) = Some (reqs, None)
            ∧ enhanceRequests cfg reqs st = Returns (reqs', st', err)
            ∧ requestsIntoRawData reqs' = (responseData, None)
            ∧ events.resp_Data response = base64.encoded responseData)).

End Answers.

Section LoopDone.
Context `{!Promutil, !GoModel, !JSON, !Tagging, !Associators}.
Context `{!Proto metricsservicepb.ExportMetricsServiceRequest}.

(** A request that some call of [enhanceRequests] returned for the batch
    decoded from one of the records. *)
Definition enriched_from (cfg : Settings)
    (records : list events.KinesisFirehoseEventRecord)
    (r : metricsservicepb.ExportMetricsServiceRequest) : Prop :=
  ∃ record reqs reqs' st st' err,
    record ∈ records
    ∧ rawDataIntoRequests (events.Data record) = Some (reqs, None)
    ∧ enhanceRequests cfg reqs st = Returns (reqs', st', err)
    ∧ r ∈ reqs'.

(** What a run of the record loop from [responseRecords] and [hs] to [res]
    and [hs'] has done: what was sent are enriched requests, and without a
    client nothing was; the response records, when it returns them, are the
    old ones and one answer per record; and an error is only returned under
    a policy that asks for it. *)
Definition loop_done
    (cfg : Settings) (continueOnExportFailure grpcClient : bool) (outputMode : string)
    (records : list events.KinesisFirehoseEventRecord)
    (responseRecords : list events.KinesisFirehoseResponseRecord) (hs : HandlerState)
    (res : list events.KinesisFirehoseResponseRecord + error) (hs' : HandlerState)
    : Prop :=
  (∃ extra,
     sent hs' = sent hs ++ extra
     ∧ (grpcClient = false → extra = [])
     ∧ Forall (enriched_from cfg records) extra)
  ∧ (∀ out, res = inl out →
            ∃ new, out = responseRecords ++ new
                   ∧ Forall2 (answers cfg outputMode) records new)
  ∧ (∀ err, res = inr err →
            continueOnExportFailure = false ∨ continueOnResourceFailure cfg = false).

End LoopDone.

(* ===================================================================== *)
(** * Properties: the static-label parser                                  *)
(* ===================================================================== *)

Section StringFacts.

Lemma HasPrefix_empty (s : string) : strings.HasPrefix s "" = true.
Proof. destruct s; reflexivity. Qed.

Lemma HasPrefix_char (c : ascii) (s : string) :
  strings.HasPrefix s (String c "") = true ↔ ∃ s', s = String c s'.
Proof.
  destruct s as [|a s]; simpl.
  - split; [discriminate | intros [s' Hs']; discriminate].
  - destruct (Ascii.eqb_spec a c) as [->|Hne].
    + rewrite HasPrefix_empty. split; eauto.
    + split; [discriminate | intros [s' [= ? ?]]; congruence].
Qed.

(** Where [Index] finds a one-byte separator, the string splits there and
    the part before holds no separator. *)
Lemma Index_char_Some (c : ascii) (s : string) (m : nat) :
  strings.Index s (String c "") = Some m →
  s = strings.take m s +:+ String c (strings.drop (S m) s)
  ∧ strings.Index (strings.take m s) (String c "") = None.
Proof.
  revert m; induction s as [|a s IH]; intros m.
  - simpl. discriminate.
  - cbn [strings.Index].
    destruct (strings.HasPrefix (String a s) (String c "")) eqn:Hp.
    + intros [= <-]. apply HasPrefix_char in Hp as [s' [= -> ->]].
      simpl. split; reflexivity.
    + destruct (strings.Index s (String c "")) as [k|] eqn:Hk; simpl; [|discriminate].
      intros [= <-]. destruct (IH k eq_refl) as [Hs Hnone].
      split.
      * change (String a s
                = String a (strings.take k s +:+ String c (strings.drop (S k) s))).
        f_equal. exact Hs.
      * cbn [strings.take strings.Index].
        assert (strings.HasPrefix (String a (strings.take k s)) (String c "") = false) as ->.
        { cbn [strings.HasPrefix] in Hp |- *.
          destruct (Ascii.eqb a c); [|reflexivity].
          rewrite HasPrefix_empty in Hp. discriminate. }
        rewrite Hnone. reflexivity.
Qed.

Lemma Index_Some_nonempty (s sep : string) (m : nat) :
  sep ≠ "" → strings.Index s sep = Some m → (0 < String.length s)%nat.
Proof.
  intros Hsep. destruct s; simpl; [|lia].
  destruct sep; [congruence|]. simpl. discriminate.
Qed.

Lemma Split_head (s : string) (c : ascii) (m : nat) :
  strings.Index s (String c "") = Some m →
  strings.Split s (String c "") !! 0%nat = Some (strings.take m s).
Proof.
  intros Hi. unfold strings.Split, strings.Count.
  pose proof (Index_Some_nonempty s (String c "") m ltac:(discriminate) Hi) as Hlen.
  destruct (String.length s) as [|n]; [lia|].
  cbn [strings.count_from]. rewrite Hi. cbn [strings.genSplit]. rewrite Hi.
  reflexivity.
Qed.

Lemma SplitN2_second (s : string) (c : ascii) (m : nat) :
  strings.Index s (String c "") = Some m →
  strings.SplitN s (String c "") 2 !! 1%nat = Some (strings.drop (S m) s).
Proof.
  intros Hi. unfold strings.SplitN.
  pose proof (Index_Some_nonempty s (String c "") m ltac:(discriminate) Hi) as Hlen.
  replace (2 `min` S (String.length s) - 1)%nat with 1%nat by lia.
  cbn [strings.genSplit]. rewrite Hi. simpl String.length.
  replace (m + 1)%nat with (S m) by lia. reflexivity.
Qed.

End StringFacts.

Section StaticLabels.
Context `{!JSON}.

Lemma parseStaticLabels_loop_ok (rawLabels : list string) (acc : gmap string string) :
  Forall (λ l, strings.Contains l "=" = true) rawLabels →
  parseStaticLabels_loop rawLabels acc
  = Returns (fold_left (λ m l, <[(key_value l).1 := (key_value l).2]> m) rawLabels acc, None).
Proof.
  intros Hall; revert acc; induction Hall as [|l ls Hl Hls IH]; intros acc.
  - reflexivity.
  - cbn [parseStaticLabels_loop fold_left].
    unfold strings.Contains in Hl.
    destruct (strings.Index l "=") as [m|] eqn:Hi; [|discriminate].
    assert (String.eqb l "" = false) as ->.
    { apply String.eqb_neq. intros ->. simpl in Hi. discriminate. }
    unfold strings.Contains. rewrite Hi. cbn [negb].
    rewrite (Split_head _ _ _ Hi), (SplitN2_second _ _ _ Hi).
    rewrite IH. unfold key_value. rewrite Hi. reflexivity.
Qed.

Lemma parseStaticLabels_loop_bad (rawLabels : list string) (acc : gmap string string) :
  ¬ Forall (λ l, strings.Contains l "=" = true) rawLabels →
  ∃ m e, parseStaticLabels_loop rawLabels acc = Returns (m, Some e).
Proof.
  revert acc; induction rawLabels as [|l ls IH]; intros acc Hbad.
  - destruct Hbad. constructor.
  - cbn [parseStaticLabels_loop].
    destruct (String.eqb l ""); [eauto|].
    destruct (strings.Contains l "=") eqn:Hc; cbn [negb]; [|eauto].
    unfold strings.Contains in Hc.
    destruct (strings.Index l "=") as [m|] eqn:Hi; [|discriminate].
    rewrite (Split_head _ _ _ Hi), (SplitN2_second _ _ _ Hi).
    apply IH. intros Hls. apply Hbad. constructor; [|exact Hls].
    unfold strings.Contains. rewrite Hi. reflexivity.
Qed.

Lemma fold_insert_list_to_map (l : list (string * string)) (acc : gmap string string) :
  fold_left (λ m kv, <[kv.1 := kv.2]> m) l acc = list_to_map (reverse l) ∪ acc.
Proof.
  revert acc; induction l as [|[k v] l IH]; intros acc.
  - simpl. by rewrite (left_id_L ∅ (∪)).
  - cbn [fold_left]. rewrite IH, reverse_cons, list_to_map_app.
    simpl. rewrite <- (assoc_L (∪)). f_equal.
    rewrite insert_empty, <- insert_union_singleton_l. reflexivity.
Qed.

End StaticLabels.
Section StaticLabelsSpec.

Local Notation "'sample_parse'" := (@parseStaticLabels Sample.json) (only parsing).

(** C8, as the code has it: an entry needs at least one ['=']; the key is
    what stands before the first one and the value everything after it, so
    a value may hold further ['='].  Whenever the JSON decoder returns an
    error the parser returns it, with an empty map; the decoder does so on
    malformed JSON, and on every input that does not begin with an array or
    with [null].  The document [null] is no error: it is the empty list. *)
Theorem parseStaticLabels_spec :
  (∀ (J : JSON) (env : string),
     env ≠ "" →
     match UnmarshalStrings env with
     | None => parseStaticLabels env = Returns (∅, Some ErrUnmarshal)
     | Some rawLabels =>
         if forallb (λ l, strings.Contains l "=") rawLabels
         then parseStaticLabels env
              = Returns (list_to_map (reverse (key_value <$> rawLabels)), None)
         else ∃ m e, parseStaticLabels env = Returns (m, Some e)
     end)
  ∧ (∀ l : string,
       strings.Contains l "=" = true →
       l ≠ ""
       ∧ l = (key_value l).1 +:+ "=" +:+ (key_value l).2
       ∧ strings.Contains (key_value l).1 "=" = false)
  ∧ strings.Contains "" "=" = false
  ∧ (∀ J : JSON, parseStaticLabels "" = Returns (∅, None))
  ∧ sample_parse "env=prod,team" = Returns (∅, Some ErrUnmarshal)
  ∧ (∃ e, sample_parse ("[" +:+ Sample.quoted "noequals" +:+ "]") = Returns (∅, Some e))
  ∧ sample_parse ("[" +:+ Sample.quoted "a=b" +:+ "," +:+ Sample.quoted "c=d" +:+ "]")
    = Returns ({[ "a" := "b"; "c" := "d" ]}, None)
  ∧ (∀ env : string,
       env ≠ "" →
       match json.skip_space env with
       | String "[" _ | String "n" _ => True
       | _ => sample_parse env = Returns (∅, Some ErrUnmarshal)
       end)
  ∧ sample_parse "null" = Returns (∅, None)
  ∧ sample_parse "[" = Returns (∅, Some ErrUnmarshal)
  ∧ sample_parse ("[" +:+ Sample.quoted "a=b" +:+ ",]") = Returns (∅, Some ErrUnmarshal)
  ∧ sample_parse "[1]" = Returns (∅, Some ErrUnmarshal).
Proof.
  split; [|split; [|split; [|split; [|split; [|split; [|split; [|split; [|split;
    [|split; [|split]]]]]]]]]];
    [| | | | | | | | vm_compute; reflexivity | vm_compute; reflexivity
     | vm_compute; reflexivity | vm_compute; reflexivity].
  8: { intros env Henv. unfold parseStaticLabels.
       apply String.eqb_neq in Henv. rewrite Henv.
       change (@UnmarshalStrings Sample.json env) with (json.UnmarshalStrings env).
       unfold json.UnmarshalStrings.
       destruct (json.skip_space env) as [|c rest]; [reflexivity|].
       destruct c as [[] [] [] [] [] [] [] []]; try reflexivity; exact I. }
  - intros J env Henv. unfold parseStaticLabels.
    apply String.eqb_neq in Henv. rewrite Henv.
    destruct (UnmarshalStrings env) as [rawLabels|]; [|reflexivity].
    destruct (forallb _ rawLabels) eqn:Hall.
    + rewrite parseStaticLabels_loop_ok.
      * f_equal. f_equal.
        transitivity (fold_left (λ (m : gmap string string) kv, <[kv.1 := kv.2]> m)
                        (key_value <$> rawLabels) ∅).
        -- clear. generalize (∅ : gmap string string).
           induction rawLabels as [|l ls IH]; intros acc; [reflexivity|].
           simpl. apply IH.
        -- rewrite fold_insert_list_to_map. apply (right_id_L ∅ (∪)).
      * apply Forall_forall. intros l Hl.
        rewrite forallb_forall in Hall. apply Hall. by apply list_elem_of_In.
    + apply parseStaticLabels_loop_bad. intros HF.
      assert (forallb (λ l, strings.Contains l "=") rawLabels = true); [|congruence].
      apply forallb_forall. intros l Hl. rewrite Forall_forall in HF.
      apply HF. by apply list_elem_of_In.
  - intros l Hc. unfold strings.Contains in Hc. unfold key_value.
    destruct (strings.Index l "=") as [m|] eqn:Hi; [|discriminate].
    destruct (Index_char_Some _ _ _ Hi) as [Hl Hnone]. cbn [fst snd].
    split; [intros ->; simpl in Hi; discriminate|]. split; [exact Hl|].
    unfold strings.Contains. by rewrite Hnone.
  - reflexivity.
  - reflexivity.
  - vm_compute. reflexivity.
  - eexists. vm_compute. reflexivity.
  - vm_compute. reflexivity.
Qed.

(** An entry in the middle of the file fails the whole parse only through
    the rule above: here the general statement is run on one input. *)
Lemma parseStaticLabels_spec_witness :
  sample_parse ("[" +:+ Sample.quoted "env=prod" +:+ "," +:+ Sample.quoted "team=platform" +:+ "]")
  = Returns ({[ "env" := "prod"; "team" := "platform" ]}, None).
Proof.
  pose proof (proj1 parseStaticLabels_spec Sample.json
    ("[" +:+ Sample.quoted "env=prod" +:+ "," +:+ Sample.quoted "team=platform" +:+ "]")
    ltac:(discriminate)) as H.
  vm_compute in H. vm_compute. exact H.
Defined.

(** C8 as stated fails: an entry with two ['='] is not rejected. *)
Lemma parseStaticLabels_two_equals_accepted :
  strings.Count "a=b=c" "=" = 2%nat
  ∧ sample_parse ("[" +:+ Sample.quoted "a=b=c" +:+ "]")
    = Returns ({[ "a" := "b=c" ]}, None).
Proof. split; [reflexivity | vm_compute; reflexivity]. Qed.

End StaticLabelsSpec.

(* ===================================================================== *)
(** * Properties: the quantile-to-statistic mapping                        *)
(* ===================================================================== *)

Section Digits.

Lemma append_assoc (s t u : string) : (s +:+ t) +:+ u = s +:+ (t +:+ u).
Proof.
  induction s as [|c s IH]; [reflexivity|].
  change (String c ((s +:+ t) +:+ u) = String c (s +:+ (t +:+ u))). by rewrite IH.
Qed.

Lemma ReplaceAll1_app (s t : string) (old : ascii) (new : string) :
  strings.ReplaceAll1 (s +:+ t) old new
  = strings.ReplaceAll1 s old new +:+ strings.ReplaceAll1 t old new.
Proof.
  induction s as [|c s IH]; [reflexivity|].
  change (String c s +:+ t) with (String c (s +:+ t)).
  cbn [strings.ReplaceAll1]. rewrite IH.
  destruct (Ascii.eqb c old); [|reflexivity].
  by rewrite append_assoc.
Qed.

Lemma pretty_N_char_no_dot (d : N) (s : string) :
  no_dot s → no_dot (String (pretty_N_char d) s).
Proof.
  unfold no_dot. intros Hs.
  assert (Ascii.eqb (pretty_N_char d) "." = false) as Hd.
  { unfold pretty_N_char. repeat (destruct d as [|d]; [reflexivity|]);
      try reflexivity; repeat (destruct d as [d|d|]; try reflexivity). }
  cbn [strings.ReplaceAll1]. rewrite Hd, Hs. reflexivity.
Qed.

Lemma pretty_N_go_no_dot (x : N) (s : string) :
  no_dot s → no_dot (pretty_N_go x s).
Proof.
  revert s. induction (N.lt_wf_0 x) as [x _ IH]; intros s Hs.
  destruct (decide (x = 0%N)) as [->|Hx].
  - by rewrite pretty_N_go_0.
  - rewrite pretty_N_go_step by lia.
    apply IH; [apply N.div_lt; lia | by apply pretty_N_char_no_dot].
Qed.

Lemma pretty_N_no_dot (x : N) : no_dot (pretty x).
Proof.
  unfold pretty, pretty_N. destruct (decide (x = 0%N)); [reflexivity|].
  apply pretty_N_go_no_dot. reflexivity.
Qed.

Lemma pretty_N_digit (d : N) : (d < 10)%N → String.length (pretty d) = 1%nat.
Proof.
  intros Hd. unfold pretty, pretty_N. destruct (decide (d = 0%N)); [reflexivity|].
  rewrite pretty_N_go_step by lia.
  rewrite N.div_small by lia. by rewrite pretty_N_go_0.
Qed.

End Digits.

Section QuantileToStatistic.

Lemma fixed_one_decimal (r : N) :
  fmt.fixed r 1 = pretty (r / 10)%N +:+ "." +:+ pretty (r mod 10)%N.
Proof.
  unfold fmt.fixed. change (10 ^ N.of_nat 1)%N with 10%N.
  rewrite pretty_N_digit by (apply N.mod_lt; lia). reflexivity.
Qed.


(** C2: the two extremes, the shape of a percentile name, and the four
    percentiles of the repository's test.  For a finite percentage
    [q * 100 = ± m * 2^e] the name is [p<N>] when the code's integrality
    test succeeds and [p<N>_<d>] otherwise, where [N.d] is the percentage
    rounded to one decimal, ties to even. *)
Theorem quantileToStatistic_spec :
  quantileToStatistic 0 = "Minimum"
  ∧ quantileToStatistic 1 = "Maximum"
  ∧ (∀ (q : float) (s : bool) (m : positive) (e : Z),
       PrimFloat.eqb q 0 = false →
       PrimFloat.eqb q 1 = false →
       Prim2SF (q * 100) = S754_finite s m e →
       let pct := (q * 100)%float in
       let sign := if s then "-" else "" in
       if PrimFloat.eqb pct (float64.of_int (float64.to_int pct))
       then quantileToStatistic q = "p" +:+ sign +:+ pretty (fmt.scaled_round m e 0)
       else quantileToStatistic q
            = "p" +:+ sign +:+ pretty (fmt.scaled_round m e 1 / 10)%N
                +:+ "_" +:+ pretty (fmt.scaled_round m e 1 mod 10)%N)
  ∧ quantileToStatistic 0.5 = "p50"
  ∧ quantileToStatistic 0.95 = "p95"
  ∧ quantileToStatistic 0.99 = "p99"
  ∧ quantileToStatistic 0.999 = "p99_9".
Proof.
  split; [vm_compute; reflexivity|]. split; [vm_compute; reflexivity|].
  split; [|repeat split; vm_compute; reflexivity].
  intros q s m e H0 H1 Hpct pct sign. unfold quantileToStatistic.
  rewrite H0, H1. fold pct.
  destruct (PrimFloat.eqb pct _).
  - unfold fmt.Sprintf_f. subst pct. rewrite Hpct. reflexivity.
  - unfold fmt.Sprintf_f. subst pct. rewrite Hpct.
    rewrite fixed_one_decimal. fold sign. f_equal.
    rewrite !ReplaceAll1_app.
    rewrite (pretty_N_no_dot (fmt.scaled_round m e 1 / 10)).
    rewrite (pretty_N_no_dot (fmt.scaled_round m e 1 mod 10)).
    destruct s; reflexivity.
Qed.

(** The general statement at the quantile 0.999. *)
Lemma quantileToStatistic_spec_witness :
  quantileToStatistic 0.999 = "p" +:+ "" +:+ pretty 99%N +:+ "_" +:+ pretty 9%N.
Proof.
  pose proof (proj1 (proj2 (proj2 quantileToStatistic_spec))
                0.999%float false 7029837543348634%positive (-46)%Z
                ltac:(vm_compute; reflexivity) ltac:(vm_compute; reflexivity)
                ltac:(vm_compute; reflexivity)) as H.
  vm_compute in H. vm_compute. exact H.
Defined.

End QuantileToStatistic.

(* ===================================================================== *)
(** * Properties: the statistic expander                                   *)
(* ===================================================================== *)

Section AverageGuard.
Context `{!Promutil}.
Import metricspb.






End AverageGuard.

Section AverageGuardWitness.
Import metricspb.


End AverageGuardWitness.

(* ===================================================================== *)
(** * Properties: the label builder                                        *)
(* ===================================================================== *)

Section LabelBuilderFacts.
Context `{!Promutil, !GoModel}.
Import commonpb.

Lemma appendDimensionLabels_labels_of (snake : bool) (out : list KeyValue)
    (dims : list model.Dimension) :
  appendDimensionLabels snake out dims
  = out ++ labels_of "dimension_" snake
             ((λ d, (model.dim_Name d, model.dim_Value d)) <$> dims).
Proof.
  unfold appendDimensionLabels, labels_of.
  revert out. induction dims as [|d dims IH]; intros out; cbn [fold_left fmap list_fmap omap list_omap].
  - by rewrite app_nil_r.
  - rewrite IH. cbn [fst snd].
    destruct (PromStringTag (model.dim_Name d) snake) as [[] promTag];
      [by rewrite <- app_assoc | reflexivity].
Qed.

Lemma appendTagLabels_labels_of (snake : bool) (out : list KeyValue)
    (tags : list model.Tag) :
  appendTagLabels snake out tags
  = out ++ labels_of "tag_" snake ((λ t, (model.Key t, model.Value t)) <$> tags).
Proof.
  unfold appendTagLabels, labels_of.
  revert out. induction tags as [|t tags IH]; intros out; cbn [fold_left fmap list_fmap omap list_omap].
  - by rewrite app_nil_r.
  - rewrite IH. cbn [fst snd].
    destruct (PromStringTag (model.Key t) snake) as [[] promTag];
      [by rewrite <- app_assoc | reflexivity].
Qed.

Lemma appendCustomLabels_labels_of (snake : bool) (out : list KeyValue)
    (entries : list (string * string)) :
  appendCustomLabels snake out entries = out ++ labels_of "custom_tag_" snake entries.
Proof.
  unfold appendCustomLabels, labels_of.
  revert out. induction entries as [|kv entries IH]; intros out; cbn [fold_left omap list_omap].
  - by rewrite app_nil_r.
  - rewrite IH.
    destruct (PromStringTag kv.1 snake) as [[] promTag];
      [by rewrite <- app_assoc | reflexivity].
Qed.

Lemma count_key_app (key : string) (l1 l2 : list KeyValue) :
  count_key key (l1 ++ l2) = (count_key key l1 + count_key key l2)%nat.
Proof. unfold count_key. by rewrite filter_app, length_app. Qed.

(** No label built under a prefix that is not itself a prefix of [key] has
    the key [key]. *)
Lemma count_key_labels_of (key prefix : string) (snake : bool)
    (entries : list (string * string)) :
  strings.HasPrefix key prefix = false →
  count_key key (labels_of prefix snake entries) = 0%nat.
Proof.
  intros Hpre. unfold count_key, labels_of.
  induction entries as [|kv entries IH]; [reflexivity|].
  cbn [omap list_omap].
  destruct (PromStringTag kv.1 snake) as [[] promTag]; [|exact IH].
  cbn [mbind option_bind]. rewrite filter_cons_False; [exact IH|].
  cbn [GetKey strKV]. intros <-.
  assert (strings.HasPrefix (prefix +:+ promTag) prefix = true) as Hp; [|congruence].
  clear. induction prefix as [|c p IHp]; [apply HasPrefix_empty|].
  change (String c p +:+ promTag) with (String c (p +:+ promTag)).
  cbn [strings.HasPrefix]. by rewrite Ascii.eqb_refl.
Qed.

End LabelBuilderFacts.

Section LabelBuilderSpec.
Import commonpb.

Local Abbreviation sample_labels :=
  (@buildYACELabelsKeyValue Sample.promutil Sample.gomodel 0).

(** C1, as the code has it.  The labels are, in this order: [region] and
    [account_id] when non-empty, [namespace] when the descriptor's namespace
    is non-empty, one [name] (the ARN of a matched, unskipped resource, else
    [global]), the dimension labels, the tag labels of a matched resource
    (of [MetricTags] when an allow-list is given), and the static labels when
    a resource matched or defaults are on.  In all three groups an entry
    whose name is not a valid label name is dropped; the static labels come
    in the order in which the map is ranged over, each once. *)
Theorem buildYACELabelsKeyValue_spec :
  (∀ (P : Promutil) (G : GoModel)
     (seed : nat) (cwm : model.Metric) (r : option model.TaggedResource)
     (skip : bool) (staticLabels : gmap string string)
     (defaultLabels labelsSnakeCase : bool) (exportedTags : list string)
     (region accountID : string),
     let out :=
       buildYACELabelsKeyValue seed cwm r skip staticLabels defaultLabels
         labelsSnakeCase exportedTags region accountID in
     out
     = (if String.eqb region "" then [] else [strKV "region" region])
       ++ (if String.eqb accountID "" then [] else [strKV "account_id" accountID])
       ++ (if String.eqb (model.Namespace cwm) "" then []
           else [strKV "namespace" (model.Namespace cwm)])
       ++ [strKV "name"
             (match r with
              | Some res => if skip then "global" else model.ARN res
              | None => "global"
              end)]
       ++ labels_of "dimension_" labelsSnakeCase
            ((λ d, (model.dim_Name d, model.dim_Value d)) <$> model.Dimensions cwm)
       ++ (match r with
           | Some res =>
               if skip then []
               else labels_of "tag_" labelsSnakeCase
                      ((λ t, (model.Key t, model.Value t)) <$>
                         (match exportedTags with
                          | [] => model.Tags res
                          | _ :: _ => MetricTags res exportedTags
                          end))
           | None => []
           end)
       ++ (if (defaultLabels || matched r skip)%bool
           then labels_of "custom_tag_" labelsSnakeCase (map_range seed staticLabels)
           else [])
     ∧ map_range seed staticLabels ≡ₚ map_to_list staticLabels
     ∧ count_key "name" out = 1%nat)
  ∧ @buildYACELabelsKeyValue Sample.promutil Sample.gomodel 0
      (buildCloudWatchMetricFromKeyValues (Sample.ec2InputAttrsOTLP10 "i-1234567890abcdef0"))
      (Some Sample.ec2Resource) false {[ "env" := "prod" ]} false true []
      "us-east-1" "123456789012"
    = [ strKV "region" "us-east-1";
        strKV "account_id" "123456789012";
        strKV "namespace" "AWS/EC2";
        strKV "name" Sample.ec2ARN;
        strKV "dimension_instance_id" "i-1234567890abcdef0";
        strKV "tag_name" "my-instance";
        strKV "tag_environment" "prod";
        strKV "custom_tag_env" "prod" ].
Proof.
  split; [|vm_compute; reflexivity].
  intros P G seed cwm r skip staticLabels defaultLabels snake exportedTags
    region accountID out.
  assert (out = (if String.eqb region "" then [] else [strKV "region" region])
       ++ (if String.eqb accountID "" then [] else [strKV "account_id" accountID])
       ++ (if String.eqb (model.Namespace cwm) "" then []
           else [strKV "namespace" (model.Namespace cwm)])
       ++ [strKV "name"
             (match r with
              | Some res => if skip then "global" else model.ARN res
              | None => "global"
              end)]
       ++ labels_of "dimension_" snake
            ((λ d, (model.dim_Name d, model.dim_Value d)) <$> model.Dimensions cwm)
       ++ (match r with
           | Some res =>
               if skip then []
               else labels_of "tag_" snake
                      ((λ t, (model.Key t, model.Value t)) <$>
                         (match exportedTags with
                          | [] => model.Tags res
                          | _ :: _ => MetricTags res exportedTags
                          end))
           | None => []
           end)
       ++ (if (defaultLabels || matched r skip)%bool
           then labels_of "custom_tag_" snake (map_range seed staticLabels)
           else [])) as Hout.
  { subst out. unfold buildYACELabelsKeyValue.
    rewrite appendDimensionLabels_labels_of.
    destruct (String.eqb region ""), (String.eqb accountID ""),
      (String.eqb (model.Namespace cwm) ""), r as [res|], skip,
      (defaultLabels || _)%bool, exportedTags;
      cbn [negb Nat.ltb Nat.leb length app];
      rewrite ?appendCustomLabels_labels_of, ?appendTagLabels_labels_of, ?app_nil_r,
        <- ?app_assoc; reflexivity. }
  split; [exact Hout|]. split; [apply map_range_perm|].
  rewrite Hout. rewrite !count_key_app.
  rewrite (count_key_labels_of "name" "dimension_") by reflexivity.
  assert (∀ l, count_key "name"
                 (match r with
                  | Some res => if skip then [] else labels_of "tag_" snake (l res)
                  | None => []
                  end) = 0%nat) as Htags.
  { intros l. destruct r, skip; try reflexivity.
    by apply count_key_labels_of. }
  rewrite Htags.
  assert (count_key "name"
            (if (defaultLabels || matched r skip)%bool
             then labels_of "custom_tag_" snake (map_range seed staticLabels)
             else []) = 0%nat) as ->.
  { destruct (defaultLabels || _)%bool; [by apply count_key_labels_of | reflexivity]. }
  destruct (String.eqb region ""), (String.eqb accountID ""),
    (String.eqb (model.Namespace cwm) ""); reflexivity.
Qed.

(** C1 as stated fails: a descriptor with an empty namespace gets no
    [namespace] label, and a static label with an empty key (the entry
    ["=v"] of STATIC_LABELS) gets no [custom_tag_] label. *)
Lemma buildYACELabelsKeyValue_empty_namespace :
  (sample_labels Sample.noNamespace None false ∅ false true [] "us-east-1" "123456789012"
   = [ strKV "region" "us-east-1"; strKV "account_id" "123456789012";
       strKV "name" "global" ]
   ∧ count_key "namespace"
       (sample_labels Sample.noNamespace None false ∅ false true []
          "us-east-1" "123456789012") = 0%nat)
  ∧ sample_labels Sample.noNamespace (Some Sample.ec2Resource) false {[ "" := "v" ]}
      false true ["Name"] "" ""
    = [ strKV "name" Sample.ec2ARN; strKV "tag_name" "my-instance" ].
Proof. repeat split; vm_compute; reflexivity. Qed.

End LabelBuilderSpec.

(* ===================================================================== *)
(** * Properties: the wire codec                                           *)
(* ===================================================================== *)

Section Varint.

Lemma byte_of_to_N (v : N) : (v < 256)%N → Byte.to_N (binary.byte_of v) = v.
Proof.
  intros Hv. unfold binary.byte_of.
  destruct (Byte.of_N v) as [b|] eqn:Hb.
  - by apply Byte.to_of_N.
  - apply Byte.of_N_None_iff in Hb. lia.
Qed.

Lemma land_127_small (a : N) : (a < 128)%N → N.land a 127 = a.
Proof.
  intros Ha. change 127%N with (N.ones 7). rewrite N.land_ones.
  apply N.mod_small. exact Ha.
Qed.

Lemma lor_low_high (x : N) : N.lor (N.land x 127) (N.shiftl (N.shiftr x 7) 7) = x.
Proof.
  change 127%N with (N.ones 7). rewrite <- N.ldiff_ones_r.
  rewrite N.lor_comm. apply N.lor_ldiff_and.
Qed.

Lemma lor_128_bounds (x : N) :
  (128 <= N.lor (N.land x 255) 128 < 256)%N
  ∧ N.land (N.lor (N.land x 255) 128) 127 = N.land x 127.
Proof.
  assert (N.land x 255 < 256)%N as Hlt.
  { change 255%N with (N.ones 8). rewrite N.land_ones. by apply N.mod_lt. }
  assert (0 < N.lor (N.land x 255) 128)%N as Hpos.
  { apply N.neq_0_lt_0. intros H0. apply N.lor_eq_0_iff in H0 as [_ H0]. discriminate. }
  split; [split|].
  - change 128%N with (2 ^ 7)%N at 1. apply N.log2_le_pow2; [exact Hpos|].
    rewrite N.log2_lor. change (N.log2 128) with 7%N. lia.
  - change 256%N with (2 ^ 8)%N. apply N.log2_lt_pow2; [exact Hpos|].
    rewrite N.log2_lor. change (N.log2 128) with 7%N.
    destruct (N.eq_dec (N.land x 255) 0%N) as [->|Hne]; [simpl; lia|].
    assert (N.log2 (N.land x 255) < 8)%N; [|lia].
    apply N.log2_lt_pow2; [lia | exact Hlt].
  - apply N.bits_inj. intros n.
    rewrite !N.land_spec, N.lor_spec, N.land_spec.
    change 127%N with (N.ones 7). change 255%N with (N.ones 8).
    change 128%N with (2 ^ 7)%N. rewrite N.pow2_bits_eqb.
    destruct (N.lt_ge_cases n 7) as [Hn|Hn].
    + rewrite (N.ones_spec_low 7 n Hn).
      rewrite (N.ones_spec_low 8 n) by (apply N.lt_lt_succ_r in Hn; exact Hn).
      assert ((7 =? n)%N = false) as ->.
      { apply N.eqb_neq. intros <-. by apply N.lt_irrefl in Hn. }
      by rewrite !andb_true_r, orb_false_r.
    + rewrite (N.ones_spec_high 7 n Hn). by rewrite !andb_false_r.
Qed.

(** A run of continuation bytes is a varint that has not ended yet. *)
Lemma Uvarint_from_conts (conts : list byte) (i : nat) (x s : N) :
  Forall (λ b, cont b = true) conts →
  (i + length conts <= binary.MaxVarintLen64)%nat →
  binary.Uvarint_from i x s conts = inr false.
Proof.
  intros Hc. revert i x s. induction Hc as [|b conts Hb _ IH]; intros i x s Hlen.
  - reflexivity.
  - cbn [binary.Uvarint_from]. cbn [length] in Hlen. unfold binary.MaxVarintLen64 in *.
    assert ((i =? 10)%nat = false) as -> by lia.
    unfold cont in Hb. assert ((Byte.to_N b <? 128)%N = false) as -> by lia.
    apply IH. lia.
Qed.

(** A header read from position [i] adds its value at shift [s]. *)
Lemma Uvarint_from_header (conts : list byte) (last : byte) (tail : list byte)
    (i : nat) (x s : N) :
  Forall (λ b, cont b = true) conts →
  cont last = false →
  (i + length conts < binary.MaxVarintLen64 - 1)%nat →
  binary.Uvarint_from i x s (conts ++ last :: tail)
  = inl (N.lor x (N.shiftl (varint_value (conts ++ [last])) s),
         (i + length conts + 1)%nat).
Proof.
  intros Hc Hl. revert i x s. unfold binary.MaxVarintLen64.
  induction Hc as [|b conts Hb _ IH]; intros i x s Hlen; cbn [length] in Hlen.
  - cbn [app binary.Uvarint_from varint_value]. unfold binary.MaxVarintLen64.
    assert ((i =? 10)%nat = false) as -> by lia.
    unfold cont in Hl. assert ((Byte.to_N last <? 128)%N = true) as -> by lia.
    assert ((i =? 10 - 1)%nat = false) as -> by lia. cbn [andb].
    rewrite N.shiftl_0_l, N.lor_0_r, land_127_small by lia.
    cbn [length]. do 2 f_equal. lia.
  - cbn [app binary.Uvarint_from]. unfold binary.MaxVarintLen64.
    assert ((i =? 10)%nat = false) as -> by lia.
    unfold cont in Hb. assert ((Byte.to_N b <? 128)%N = false) as -> by lia.
    rewrite IH by lia. cbn [app varint_value length].
    f_equal. f_equal; [|lia].
    rewrite N.shiftl_lor, N.shiftl_shiftl, N.lor_assoc.
    by rewrite (N.add_comm 7 s).
Qed.

(** What [PutUvarint] writes for a number below [2^(7(k+1))]: at most [k]
    continuation bytes and a final byte, denoting the number. *)
Lemma PutUvarint_from_header (fuel k : nat) (x : N) :
  (k <= fuel)%nat →
  (x < 2 ^ (7 * (N.of_nat k + 1)))%N →
  ∃ conts last,
    binary.PutUvarint_from fuel x = conts ++ [last]
    ∧ Forall (λ b, cont b = true) conts ∧ cont last = false
    ∧ (length conts <= k)%nat
    ∧ varint_value (conts ++ [last]) = x.
Proof.
  revert k x. induction fuel as [|fuel IH]; intros k x Hk Hx.
  - assert (k = 0%nat) as -> by lia. change (x < 128)%N in Hx.
    exists [], (binary.byte_of x). cbn [binary.PutUvarint_from app length varint_value].
    unfold cont. rewrite byte_of_to_N by lia.
    rewrite N.shiftl_0_l, N.lor_0_r, land_127_small by lia.
    repeat split; [constructor | lia | lia].
  - cbn [binary.PutUvarint_from]. destruct (128 <=? x)%N eqn:Hge.
    + destruct k as [|k].
      { change (x < 128)%N in Hx. lia. }
      destruct (IH k (N.shiftr x 7)) as (conts & last & Hput & Hc & Hl & Hlen & Hval).
      { lia. }
      { rewrite N.shiftr_div_pow2. apply N.Div0.div_lt_upper_bound.
        rewrite <- N.pow_add_r.
        replace (7 + 7 * (N.of_nat k + 1))%N with (7 * (N.of_nat (S k) + 1))%N by lia.
        exact Hx. }
      destruct (lor_128_bounds x) as [[Hlo Hhi] Hland].
      exists (binary.byte_of (N.lor (N.land x 255) 128) :: conts), last.
      rewrite Hput. cbn [app length varint_value].
      rewrite byte_of_to_N by exact Hhi. rewrite Hland, Hval.
      repeat split.
      * constructor; [|exact Hc]. unfold cont. rewrite byte_of_to_N by exact Hhi. lia.
      * exact Hl.
      * lia.
      * apply lor_low_high.
    + exists [], (binary.byte_of x). cbn [app length varint_value].
      unfold cont. rewrite byte_of_to_N by lia.
      rewrite N.shiftl_0_l, N.lor_0_r, land_127_small by lia.
      repeat split; [constructor | lia | lia].
Qed.

End Varint.

Section ReadDelimited.
Context {Msg : Type} `{!Proto Msg}.

Local Abbreviation conts_only := (Forall (λ b, cont b = true)).

Lemma conts_only_snoc (hb : list byte) (b : byte) :
  conts_only hb → cont b = true → conts_only (hb ++ [b]).
Proof. intros Hhb Hb. apply Forall_app. split; [exact Hhb | by constructor]. Qed.

Lemma readHeader_header (conts : list byte) (last : byte) (tail hb : list byte)
    (fuel : nat) :
  conts_only hb → conts_only conts → cont last = false →
  (length hb + length conts < binary.MaxVarintLen32)%nat →
  (length conts < fuel)%nat →
  pbutil.readHeader fuel hb (conts ++ last :: tail)
  = inl (varint_value (hb ++ conts ++ [last]), tail).
Proof.
  intros Hhb Hc Hl. revert hb fuel Hhb. unfold binary.MaxVarintLen32.
  induction Hc as [|b conts Hb Hc IH]; intros hb fuel Hhb Hlen Hfuel;
    cbn [length] in Hlen, Hfuel; (destruct fuel as [|fuel]; [lia|]);
    cbn [pbutil.readHeader app]; unfold binary.MaxVarintLen32.
  - assert ((5 <=? length hb)%nat = false) as -> by lia.
    unfold binary.Uvarint.
    rewrite (Uvarint_from_header hb last [] 0 0 0 Hhb Hl)
      by (unfold binary.MaxVarintLen64; lia).
    by rewrite N.lor_0_l, N.shiftl_0_r.
  - assert ((5 <=? length hb)%nat = false) as -> by lia.
    unfold binary.Uvarint.
    rewrite (Uvarint_from_conts (hb ++ [b]));
      [| by apply conts_only_snoc
       | rewrite length_app; unfold binary.MaxVarintLen64; cbn [length]; lia].
    rewrite IH.
    + by rewrite <- app_assoc.
    + apply Forall_app. split; [exact Hhb | by constructor].
    + rewrite length_app. cbn [length]. lia.
    + lia.
Qed.

Lemma readHeader_EOF (r hb : list byte) (fuel : nat) :
  conts_only hb → conts_only r →
  (length hb + length r < binary.MaxVarintLen32)%nat →
  (length r < fuel)%nat →
  pbutil.readHeader fuel hb r = inr EOF.
Proof.
  intros Hhb Hr. revert hb fuel Hhb. unfold binary.MaxVarintLen32.
  induction Hr as [|b r Hb Hr IH]; intros hb fuel Hhb Hlen Hfuel;
    cbn [length] in Hlen, Hfuel; (destruct fuel as [|fuel]; [lia|]);
    cbn [pbutil.readHeader]; unfold binary.MaxVarintLen32;
    (assert ((5 <=? length hb)%nat = false) as -> by lia); [reflexivity|].
  unfold binary.Uvarint.
  rewrite (Uvarint_from_conts (hb ++ [b]));
    [| by apply conts_only_snoc
     | rewrite length_app; unfold binary.MaxVarintLen64; cbn [length]; lia].
  apply IH.
  - apply Forall_app. split; [exact Hhb | by constructor].
  - rewrite length_app. cbn [length]. lia.
  - lia.
Qed.

Lemma readHeader_invalid (h tail hb : list byte) (fuel : nat) :
  conts_only hb → conts_only h →
  (length hb + length h = binary.MaxVarintLen32)%nat →
  (length h < fuel)%nat →
  pbutil.readHeader fuel hb (h ++ tail) = inr errInvalidVarint.
Proof.
  intros Hhb Hh. revert hb fuel Hhb. unfold binary.MaxVarintLen32.
  induction Hh as [|b h Hb Hh IH]; intros hb fuel Hhb Hlen Hfuel;
    cbn [length] in Hlen, Hfuel; (destruct fuel as [|fuel]; [lia|]);
    cbn [pbutil.readHeader app]; unfold binary.MaxVarintLen32.
  - assert ((5 <=? length hb)%nat = true) as -> by lia. reflexivity.
  - assert ((5 <=? length hb)%nat = false) as -> by lia.
    unfold binary.Uvarint.
    rewrite (Uvarint_from_conts (hb ++ [b]));
      [| by apply conts_only_snoc
       | rewrite length_app; unfold binary.MaxVarintLen64; cbn [length]; lia].
    apply IH.
    + apply Forall_app. split; [exact Hhb | by constructor].
    + rewrite length_app. cbn [length]. lia.
    + lia.
Qed.

(** A successful header read leaves a strictly shorter buffer. *)
Lemma readHeader_shorter (fuel : nat) (hb r r' : list byte) (n : N) :
  pbutil.readHeader fuel hb r = inl (n, r') → (length r' < length r)%nat.
Proof.
  revert hb r. induction fuel as [|fuel IH]; intros hb r; cbn [pbutil.readHeader];
    [discriminate|].
  destruct (_ <=? _)%nat; [discriminate|].
  destruct r as [|b r]; [discriminate|].
  destruct (binary.Uvarint (hb ++ [b])) as [[len k]|[]].
  - intros [= _ <-]. cbn [length]. lia.
  - intros [= _ <-]. cbn [length]. lia.
  - intros H%IH. cbn [length]. lia.
Qed.

Lemma ReadDelimited_shorter (r r' : list byte) (m : Msg) :
  pbutil.ReadDelimited r = Some (inl (m, r')) → (length r' < length r)%nat.
Proof.
  unfold pbutil.ReadDelimited, pbutil.ReadFull.
  destruct (pbutil.readHeader _ _ r) as [[n r1]|e] eqn:Hh; [|discriminate].
  apply readHeader_shorter in Hh.
  destruct (_ <=? _)%nat.
  - destruct (Unmarshal _); [|discriminate]. intros [= _ <-].
    rewrite length_drop. lia.
  - destruct (negb _); [discriminate|]. destruct (_ =? _)%nat; discriminate.
Qed.

(** A complete length prefix followed by fewer bytes than it announces:
    the runtime decides, and then the number of bytes that follow. *)
Lemma ReadDelimited_short_body (hdr body : list byte) :
  header hdr →
  (length body < N.to_nat (varint_value hdr))%nat →
  pbutil.ReadDelimited (hdr ++ body)
  = if makeslice (N.to_nat (varint_value hdr))
    then Some (inr (if (length body =? 0)%nat then EOF else ErrUnexpectedEOF))
    else None.
Proof.
  intros (conts & last & -> & Hc & Hl & Hlen) Hbody.
  unfold pbutil.ReadDelimited. rewrite <- app_assoc. cbn [app].
  rewrite (readHeader_header conts last body []);
    [| constructor | exact Hc | exact Hl | exact Hlen
     | unfold binary.MaxVarintLen32 in *; lia].
  cbn [app]. unfold pbutil.ReadFull.
  assert ((N.to_nat (varint_value (conts ++ [last])) <=? length body)%nat = false)
    as -> by lia.
  destruct (makeslice _); cbn [negb]; [|reflexivity].
  by destruct (length body =? 0)%nat.
Qed.

(** The shapes of a buffer and what [ReadDelimited] makes of each. *)
Lemma ReadDelimited_EOF (r : list byte) :
  ends_in_EOF r → (header r → granted r) →
  pbutil.ReadDelimited r = Some (inr EOF).
Proof.
  intros [[Hr Hlen] | [Hhdr Hpos]] Hgrant.
  - unfold pbutil.ReadDelimited.
    rewrite (readHeader_EOF r []); [reflexivity | constructor | exact Hr | exact Hlen|].
    unfold binary.MaxVarintLen32 in *. lia.
  - pose proof (ReadDelimited_short_body r [] Hhdr) as Hshort.
    rewrite app_nil_r in Hshort. rewrite Hshort by (cbn [length]; lia).
    unfold granted in Hgrant. by rewrite (Hgrant Hhdr).
Qed.

Lemma ReadDelimited_truncated_body (hdr body : list byte) :
  header hdr →
  (0 < length body < N.to_nat (varint_value hdr))%nat →
  granted hdr →
  pbutil.ReadDelimited (hdr ++ body) = Some (inr ErrUnexpectedEOF).
Proof.
  intros Hhdr Hbody Hgrant.
  rewrite (ReadDelimited_short_body hdr body Hhdr) by lia.
  unfold granted in Hgrant. rewrite Hgrant.
  by assert ((length body =? 0)%nat = false) as -> by lia.
Qed.

Lemma ReadDelimited_refused (rest : list byte) :
  refused rest → pbutil.ReadDelimited rest = None.
Proof.
  intros (hdr & body & -> & Hhdr & Hbody & Hno).
  rewrite (ReadDelimited_short_body hdr body Hhdr Hbody). by rewrite Hno.
Qed.

Lemma ReadDelimited_invalid_varint (h tail : list byte) :
  conts_only h → length h = binary.MaxVarintLen32 →
  pbutil.ReadDelimited (h ++ tail) = Some (inr errInvalidVarint).
Proof.
  intros Hh Hlen. unfold pbutil.ReadDelimited.
  rewrite (readHeader_invalid h tail []);
    [reflexivity | constructor | exact Hh | exact Hlen | rewrite Hlen; lia].
Qed.

Lemma ReadDelimited_frame (hdr body tail : list byte) :
  header hdr →
  length body = N.to_nat (varint_value hdr) →
  pbutil.ReadDelimited (hdr ++ body ++ tail)
  = match Unmarshal body with
    | Some m => Some (inl (m, tail))
    | None => Some (inr ErrUnmarshal)
    end.
Proof.
  intros (conts & last & -> & Hc & Hl & Hlen) Hbody.
  unfold pbutil.ReadDelimited. rewrite <- app_assoc. cbn [app].
  rewrite (readHeader_header conts last (body ++ tail) []);
    [| constructor | exact Hc | exact Hl | exact Hlen
     | unfold binary.MaxVarintLen32 in *; lia].
  cbn [app]. unfold pbutil.ReadFull. rewrite <- Hbody.
  assert ((length body <=? length (body ++ tail))%nat = true) as ->.
  { rewrite length_app. lia. }
  rewrite take_app_length, drop_app_length. reflexivity.
Qed.

(** Every buffer has one of the shapes. *)
Lemma buffer_shapes (r : list byte) (k : nat) :
  (conts_only r ∧ (length r < k)%nat)
  ∨ (∃ conts last tail,
       r = conts ++ last :: tail ∧ conts_only conts ∧ cont last = false
       ∧ (length conts < k)%nat)
  ∨ (∃ h tail, r = h ++ tail ∧ conts_only h ∧ length h = k).
Proof.
  revert r. induction k as [|k IH]; intros r.
  - right; right. exists [], r. repeat split. constructor.
  - destruct r as [|b r].
    + left. split; [constructor | cbn [length]; lia].
    + destruct (cont b) eqn:Hb.
      * destruct (IH r) as [[Hr Hlen] | [(conts & last & tail & -> & Hc & Hl & Hlen)
                                        | (h & tail & -> & Hh & Hlen)]].
        -- left. split; [by constructor | cbn [length]; lia].
        -- right; left. exists (b :: conts), last, tail.
           repeat split; [by constructor | exact Hl | cbn [length]; lia].
        -- right; right. exists (b :: h), tail.
           repeat split; [by constructor | cbn [length]; lia].
      * right; left. exists [], b, r.
        split; [reflexivity|]. split; [constructor|]. split; [exact Hb|].
        cbn [length]. lia.
Qed.

End ReadDelimited.

Section Decoder.
Context {Msg : Type} `{!Proto Msg}.

Local Abbreviation conts_only := (Forall (λ b, cont b = true)).

(** The loop decodes what [reads] decodes and ends on the first read that
    does not give a message: with the error of that read, or with the
    process when that read kills it.  Fuel above the length of the buffer
    is never used up. *)
Lemma rawDataIntoRequests_loop_reads
    (fuel : nat) (acc : list Msg) (input : list byte)
    (msgs : list Msg) (rest : list byte) (stop : option error) :
  reads input msgs rest →
  pbutil.ReadDelimited rest = inr <$> stop →
  (length input < fuel)%nat →
  rawDataIntoRequests_loop fuel acc input
  = (λ err, if errors_Is_EOF err then (acc ++ msgs, None) else ([], Some err)) <$> stop.
Proof.
  intros Hreads Hstop. revert fuel acc.
  induction Hreads as [r | r r' r'' m msgs Hread Hreads IH]; intros fuel acc Hfuel;
    (destruct fuel as [|fuel]; [lia|]); cbn [rawDataIntoRequests_loop].
  - rewrite Hstop. destruct stop as [err|]; cbn; [|reflexivity].
    destruct (errors_Is_EOF err); by rewrite ?app_nil_r.
  - rewrite Hread. rewrite (IH Hstop).
    + destruct stop as [err|]; cbn; [|reflexivity]. by rewrite <- app_assoc.
    + apply ReadDelimited_shorter in Hread. lia.
Qed.

(** Every buffer is a run of messages followed by a rest on which the read
    gives no message. *)
Lemma reads_to_failure (input : list byte) :
  ∃ msgs rest stop, reads input msgs rest ∧ pbutil.ReadDelimited rest = inr <$> stop.
Proof.
  remember (length input) as n eqn:Hn. revert input Hn.
  induction (lt_wf n) as [n _ IH]. intros input ->.
  destruct (pbutil.ReadDelimited input) as [[[m r']|err]|] eqn:Hread.
  - destruct (IH (length r') (ReadDelimited_shorter _ _ _ Hread) r' eq_refl)
      as (msgs & rest & stop & Hreads & Hstop).
    exists (m :: msgs), rest, stop. split; [|exact Hstop].
    by apply (reads_more input r' rest).
  - exists [], input, (Some err). split; [constructor | exact Hread].
  - exists [], input, None. split; [constructor | exact Hread].
Qed.

(** A rest on which the read gives no message has one of five shapes. *)
Lemma ReadDelimited_failure_shape (r : list byte) (stop : option error) :
  pbutil.ReadDelimited r = inr <$> stop →
  match stop with
  | Some err =>
      (err = EOF ∧ ends_in_EOF r ∧ (header r → granted r))
      ∨ (err = ErrUnexpectedEOF
         ∧ ∃ hdr body, r = hdr ++ body ∧ header hdr
             ∧ (0 < length body < N.to_nat (varint_value hdr))%nat
             ∧ granted hdr)
      ∨ (err = errInvalidVarint
         ∧ ∃ h tail, r = h ++ tail ∧ conts_only h ∧ length h = binary.MaxVarintLen32)
      ∨ (err = ErrUnmarshal
         ∧ ∃ hdr body tail, r = hdr ++ body ++ tail ∧ header hdr
             ∧ length body = N.to_nat (varint_value hdr) ∧ Unmarshal body = None)
  | None => refused r
  end.
Proof.
  intros Hstop.
  destruct (buffer_shapes r binary.MaxVarintLen32)
    as [[Hr Hlen] | [(conts & last & tail & -> & Hc & Hl & Hlen)
                    | (h & tail & -> & Hh & Hlen)]].
  - assert (ends_in_EOF r) as Hend by (left; by split).
    assert (header r → granted r) as Hgrant.
    { intros (conts & last & -> & _ & Hl & _).
      apply Forall_app in Hr as [_ Hlast]. apply Forall_cons in Hlast as [Hlast _].
      congruence. }
    rewrite (ReadDelimited_EOF r Hend Hgrant) in Hstop.
    destruct stop as [err|]; [|discriminate]. injection Hstop as <-.
    left. by repeat split.
  - assert (header (conts ++ [last])) as Hhdr by (exists conts, last; by repeat split).
    set (n := N.to_nat (varint_value (conts ++ [last]))).
    destruct (le_lt_dec n (length tail)) as [Hle|Hgt].
    + pose proof (ReadDelimited_frame (conts ++ [last]) (take n tail) (drop n tail) Hhdr)
        as Hframe.
      rewrite take_drop, <- app_assoc in Hframe. cbn [app] in Hframe.
      rewrite Hframe in Hstop by (rewrite length_take; subst n; lia).
      destruct (Unmarshal (take n tail)) eqn:Hu; [by destruct stop|].
      destruct stop as [err|]; [|discriminate]. injection Hstop as <-.
      right; right; right. split; [reflexivity|].
      exists (conts ++ [last]), (take n tail), (drop n tail).
      rewrite take_drop, <- app_assoc. cbn [app].
      repeat split; [exact Hhdr | rewrite length_take; subst n; lia | exact Hu].
    + pose proof (ReadDelimited_short_body (conts ++ [last]) tail Hhdr Hgt) as Hshort.
      rewrite <- app_assoc in Hshort. cbn [app] in Hshort. rewrite Hshort in Hstop.
      fold n in Hstop. destruct (makeslice n) eqn:Hmake.
      * destruct stop as [err|]; [|discriminate]. injection Hstop as <-.
        destruct tail as [|b tail]; cbn [length Nat.eqb].
        -- left. split; [reflexivity|]. split; [|by intros _].
           right. split; [exact Hhdr|]. cbn [length] in Hgt. subst n. lia.
        -- right; left. split; [reflexivity|].
           exists (conts ++ [last]), (b :: tail). rewrite <- app_assoc. cbn [app].
           repeat split; [exact Hhdr | cbn [length]; lia | exact Hgt | exact Hmake].
      * destruct stop as [err|]; [discriminate|].
        exists (conts ++ [last]), tail. rewrite <- app_assoc. cbn [app].
        by repeat split.
  - rewrite (ReadDelimited_invalid_varint h tail Hh Hlen) in Hstop.
    destruct stop as [err|]; [|discriminate]. injection Hstop as <-.
    right; right; left. split; [reflexivity|]. by exists h, tail.
Qed.

End Decoder.

Section DecoderSpec.

Local Abbreviation conts_only := (Forall (λ b, cont b = true)).
Local Abbreviation wire_decode := (@rawDataIntoRequests (list byte) Sample.wire).

(** C4, as the code has it.  Every buffer is a run of well-formed records
    followed by a rest on which the next read gives no record.  The decoder
    returns the records and no error exactly when the reader reports
    [io.EOF]: the rest is empty, or is a length prefix cut short, or is a
    complete non-zero length prefix with no byte of the message after it.
    Every other error is fatal and returns no records: a message cut short
    after at least one of its bytes ([io.ErrUnexpectedEOF]), five
    continuation bytes in the length prefix, or a message that does not
    unmarshal.  The reader allocates the buffer of a message before it
    reads it: over a length prefix that announces more bytes than follow
    and more than the runtime allocates the process is killed, and nothing
    is returned at all. *)
Theorem rawDataIntoRequests_spec :
  (∀ (Msg : Type) (P : Proto Msg) (input : list byte),
     ∃ msgs rest stop,
       reads input msgs rest
       ∧ pbutil.ReadDelimited rest = inr <$> stop
       ∧ match stop with
         | Some err =>
             rawDataIntoRequests input
             = Some (if errors_Is_EOF err then (msgs, None) else ([], Some err))
             ∧ ((err = EOF ∧ ends_in_EOF rest ∧ (header rest → granted rest))
                ∨ (err = ErrUnexpectedEOF
                   ∧ ∃ hdr body, rest = hdr ++ body ∧ header hdr
                       ∧ (0 < length body < N.to_nat (varint_value hdr))%nat
                       ∧ granted hdr)
                ∨ (err = errInvalidVarint
                   ∧ ∃ h tail, rest = h ++ tail ∧ conts_only h
                       ∧ length h = binary.MaxVarintLen32)
                ∨ (err = ErrUnmarshal
                   ∧ ∃ hdr body tail, rest = hdr ++ body ++ tail ∧ header hdr
                       ∧ length body = N.to_nat (varint_value hdr)
                       ∧ Unmarshal body = None))
         | None => rawDataIntoRequests input = None ∧ refused rest
         end)
  ∧ (∀ (Msg : Type) (P : Proto Msg) (input : list byte) (msgs : list Msg)
       (rest : list byte),
       reads input msgs rest →
       (ends_in_EOF rest → (header rest → granted rest) →
        rawDataIntoRequests input = Some (msgs, None))
       ∧ (∀ hdr body,
            rest = hdr ++ body → header hdr →
            (0 < length body < N.to_nat (varint_value hdr))%nat → granted hdr →
            rawDataIntoRequests input = Some ([], Some ErrUnexpectedEOF))
       ∧ (∀ h tail,
            rest = h ++ tail → conts_only h → length h = binary.MaxVarintLen32 →
            rawDataIntoRequests input = Some ([], Some errInvalidVarint))
       ∧ (∀ hdr body tail,
            rest = hdr ++ body ++ tail → header hdr →
            length body = N.to_nat (varint_value hdr) → Unmarshal body = None →
            rawDataIntoRequests input = Some ([], Some ErrUnmarshal))
       ∧ (refused rest → rawDataIntoRequests input = None))
  ∧ wire_decode [x02; x0a; x00; x04; x0a; x00; x0a; x00]
    = Some ([[x0a; x00]; [x0a; x00; x0a; x00]], None)
  ∧ wire_decode [x02; x0a; x00; x80] = Some ([[x0a; x00]], None)
  ∧ wire_decode [x02; x0a; x00; x02] = Some ([[x0a; x00]], None)
  ∧ wire_decode [x02; x0a; x00; xff; xff; xff; xff; xff; x00]
    = Some ([], Some errInvalidVarint)
  ∧ wire_decode [x02; x0a; x00; x01; x08] = Some ([], Some ErrUnmarshal)
  ∧ wire_decode [x02; x0a; x00; xff; xff; xff; xff; x7f] = None.
Proof.
  split; [|split; [|split; [|split; [|split; [|split; [|split]]]]]];
    [| | vm_compute; reflexivity | vm_compute; reflexivity | vm_compute; reflexivity
     | vm_compute; reflexivity | vm_compute; reflexivity | ].
  3: { unfold rawDataIntoRequests.
       rewrite (rawDataIntoRequests_loop_reads _ [] _ [[x0a; x00]]
                  [xff; xff; xff; xff; x7f] None); [reflexivity | | | cbn [length]; lia].
       - apply (reads_more _ [xff; xff; xff; xff; x7f]);
           [vm_compute; reflexivity | constructor].
       - apply ReadDelimited_refused. exists [xff; xff; xff; xff; x7f], [].
         split; [reflexivity|]. split.
         { exists [xff; xff; xff; xff], x7f.
           repeat split; [repeat constructor | unfold binary.MaxVarintLen32; simpl; lia]. }
         change (varint_value [xff; xff; xff; xff; x7f]) with 34359738367%N.
         split; [cbn [length]; lia|].
         change ((N.of_nat (N.to_nat 34359738367) <=? 1048576)%N = false).
         rewrite N2Nat.id. reflexivity. }
  - intros Msg P input.
    destruct (reads_to_failure input) as (msgs & rest & stop & Hreads & Hstop).
    exists msgs, rest, stop. split; [exact Hreads|]. split; [exact Hstop|].
    pose proof (ReadDelimited_failure_shape rest stop Hstop) as Hshape.
    unfold rawDataIntoRequests.
    rewrite (rawDataIntoRequests_loop_reads _ [] input msgs rest stop Hreads Hstop) by lia.
    destruct stop as [err|]; by split.
  - intros Msg P input msgs rest Hreads.
    assert (∀ stop, pbutil.ReadDelimited rest = inr <$> stop →
              rawDataIntoRequests input
              = (λ err, if errors_Is_EOF err then (msgs, None) else ([], Some err))
                  <$> stop)
      as Hrun.
    { intros stop Hstop. unfold rawDataIntoRequests.
      by rewrite (rawDataIntoRequests_loop_reads _ [] input msgs rest stop Hreads Hstop)
        by lia. }
    split; [|split; [|split; [|split]]].
    + intros Hend Hgrant. apply (Hrun (Some EOF)). by apply ReadDelimited_EOF.
    + intros hdr body -> Hhdr Hbody Hgrant. apply (Hrun (Some ErrUnexpectedEOF)).
      by apply ReadDelimited_truncated_body.
    + intros h tail -> Hh Hlen. apply (Hrun (Some errInvalidVarint)).
      by apply ReadDelimited_invalid_varint.
    + intros hdr body tail -> Hhdr Hbody Hu. apply (Hrun (Some ErrUnmarshal)).
      rewrite (ReadDelimited_frame hdr body tail Hhdr Hbody). by rewrite Hu.
    + intros Hrefused. apply (Hrun None). by apply ReadDelimited_refused.
Qed.

(** The second part at a buffer of one record followed by a length prefix
    that promises two bytes and delivers none. *)
Lemma rawDataIntoRequests_spec_witness :
  wire_decode [x02; x0a; x00; x02] = Some ([[x0a; x00]], None).
Proof.
  refine (proj1 (proj1 (proj2 rawDataIntoRequests_spec) (list byte) Sample.wire
                   [x02; x0a; x00; x02] [[x0a; x00]] [x02] _) _ _).
  - apply (reads_more _ [x02]); [vm_compute; reflexivity | constructor].
  - right. split; [|vm_compute; reflexivity].
    exists [], x02. repeat split; [constructor | unfold binary.MaxVarintLen32; simpl; lia].
  - intros _. vm_compute. reflexivity.
Defined.

(** C4 as stated fails: a trailing record cut short inside its body is a
    fatal error, and the record decoded before it is not returned.  The
    first record is a request with one empty resource entry; of the second,
    which announces the same two bytes, one byte is there. *)
Lemma rawDataIntoRequests_truncated_body_is_fatal :
  wire_decode [x02; x0a; x00; x02; x0a] = Some ([], Some ErrUnexpectedEOF)
  ∧ wire_decode [x02; x0a; x00] = Some ([[x0a; x00]], None)
  ∧ errors_Is_EOF ErrUnexpectedEOF = false.
Proof. repeat split; vm_compute; reflexivity. Qed.

End DecoderSpec.

Section RoundTrip.
Context {Msg : Type} `{!Proto Msg}.

Lemma frame_header (body : list byte) :
  (N.of_nat (length body) < 2 ^ 35)%N →
  ∃ hdr, frame body = hdr ++ body ∧ header hdr
         ∧ varint_value hdr = N.of_nat (length body).
Proof.
  intros Hlen.
  destruct (PutUvarint_from_header binary.MaxVarintLen64 4 (N.of_nat (length body)))
    as (conts & last & Hput & Hc & Hl & Hk & Hval).
  { unfold binary.MaxVarintLen64. lia. }
  { exact Hlen. }
  exists (conts ++ [last]). unfold frame, binary.PutUvarint. rewrite Hput.
  split; [reflexivity|]. split; [|exact Hval].
  exists conts, last. repeat split; [exact Hc | exact Hl|].
  unfold binary.MaxVarintLen32. lia.
Qed.

Lemma ReadDelimited_canonical_frame (body tail : list byte) (m : Msg) :
  Unmarshal body = Some m →
  (N.of_nat (length body) < 2 ^ 35)%N →
  pbutil.ReadDelimited (frame body ++ tail) = Some (inl (m, tail)).
Proof.
  intros Hu Hlen. destruct (frame_header body Hlen) as (hdr & -> & Hhdr & Hval).
  rewrite <- app_assoc.
  rewrite (ReadDelimited_frame hdr body tail Hhdr) by (rewrite Hval; lia).
  by rewrite Hu.
Qed.

Lemma canonical_reads (x : list byte) (msgs : list Msg) :
  canonical x msgs → reads x msgs [].
Proof.
  induction 1 as [|body x m msgs Hu Hm Hlen _ IH]; [constructor|].
  apply (reads_more _ x); [|exact IH].
  by apply ReadDelimited_canonical_frame.
Qed.

Lemma canonical_encode (x : list byte) (msgs : list Msg) (b : list byte) :
  canonical x msgs → requestsIntoRawData_loop b msgs = (b ++ x, None).
Proof.
  intros Hc. revert b. induction Hc as [|body x m msgs Hu Hm Hlen _ IH]; intros b.
  - cbn [requestsIntoRawData_loop]. by rewrite app_nil_r.
  - cbn [requestsIntoRawData_loop]. unfold pbutil.WriteDelimited. rewrite Hm.
    fold (frame body). rewrite IH. by rewrite <- app_assoc.
Qed.

Lemma canonical_of_batch (batch : list Msg) :
  Forall (λ m, ∃ body, Marshal m = Some body ∧ Unmarshal body = Some m
                       ∧ (N.of_nat (length body) < 2 ^ 35)%N) batch →
  ∃ x, canonical x batch.
Proof.
  induction 1 as [|m batch (body & Hm & Hu & Hlen) _ [x Hx]].
  - exists []. constructor.
  - exists (frame body ++ x). by constructor.
Qed.

End RoundTrip.

Section RoundTripSpec.

Local Abbreviation sample_decode := (@rawDataIntoRequests (list byte) Sample.proto).
Local Abbreviation sample_encode := (@requestsIntoRawData (list byte) Sample.proto).

(** C5, as the code has it.  A batch whose messages survive
    [Unmarshal (Marshal m)] and are shorter than 2^35 bytes is decoded back
    from its encoding; and a buffer of frames in the encoder's own form
    (shortest length prefix, body equal to the marshalling of its message)
    is encoded back from its decoding. *)
Theorem codec_round_trip :
  (∀ (Msg : Type) (P : Proto Msg) (batch : list Msg),
     Forall (λ m, ∃ body, Marshal m = Some body ∧ Unmarshal body = Some m
                          ∧ (N.of_nat (length body) < 2 ^ 35)%N) batch →
     ∃ x, requestsIntoRawData batch = (x, None)
          ∧ rawDataIntoRequests x = Some (batch, None))
  ∧ (∀ (Msg : Type) (P : Proto Msg) (x : list byte) (batch : list Msg),
       canonical x batch →
       rawDataIntoRequests x = Some (batch, None)
       ∧ requestsIntoRawData batch = (x, None))
  ∧ sample_encode [[x08; x01]; []; [x0a]] = ([x02; x08; x01; x00; x01; x0a], None)
  ∧ sample_decode [x02; x08; x01; x00; x01; x0a] = Some ([[x08; x01]; []; [x0a]], None).
Proof.
  assert (∀ (Msg : Type) (P : Proto Msg) (x : list byte) (batch : list Msg),
            canonical x batch →
            rawDataIntoRequests x = Some (batch, None)
            ∧ requestsIntoRawData batch = (x, None)) as Hcanon.
  { intros Msg P x batch Hc. split.
    - unfold rawDataIntoRequests.
      rewrite (rawDataIntoRequests_loop_reads _ [] x batch [] (Some EOF));
        [reflexivity | by apply canonical_reads | reflexivity | lia].
    - unfold requestsIntoRawData. by rewrite (canonical_encode x batch []). }
  split; [|split; [exact Hcanon | split; vm_compute; reflexivity]].
  intros Msg P batch Hbatch. destruct (canonical_of_batch batch Hbatch) as [x Hx].
  exists x. destruct (Hcanon Msg P x batch Hx). by split.
Qed.

(** The first part at a batch of three messages. *)
Lemma codec_round_trip_witness :
  ∃ x, sample_encode [[x08; x01]; []; [x0a]] = (x, None)
       ∧ sample_decode x = Some ([[x08; x01]; []; [x0a]], None).
Proof.
  apply (proj1 codec_round_trip (list byte) Sample.proto).
  repeat constructor; eexists; (split; [reflexivity|]); (split; [reflexivity|]);
    vm_compute; reflexivity.
Defined.

(** C5 as stated fails: the two bytes [80 00] are a frame the decoder
    accepts (a length prefix of value 0 in two bytes, and an empty message),
    and encoding what was decoded gives the one byte [00]. *)
Lemma codec_reencodes_length_prefix :
  sample_decode [x80; x00] = Some ([[]], None)
  ∧ sample_encode [[]] = ([x00], None)
  ∧ @Marshal _ Sample.proto [] = Some []
  ∧ @Unmarshal _ Sample.proto [] = Some [].
Proof. repeat split; vm_compute; reflexivity. Qed.

End RoundTripSpec.

(* ===================================================================== *)
(** * Properties: the resource tag cache                                   *)
(* ===================================================================== *)

Section CacheFacts.
Context `{!JSON, !Tagging}.

(** An entry that has not expired is read from the file: no fetch. *)
Lemma getOrCacheResources_fresh
    (fileCachePath namespace : string) (region : option string)
    (cacheExpiration : Z) (w : World) (file : File) :
  let filePath := cachePath fileCachePath namespace in
  files w !! filePath = Some file →
  (clock w (ticks w) <= modTime file + cacheExpiration)%Z →
  getOrCacheResources fileCachePath namespace region cacheExpiration true w
  = Returns
      (match UnmarshalResources (data file) with
       | Some resources => inl resources
       | None => inr ErrUnmarshal
       end,
       log_event (CacheRead namespace filePath) (opened namespace filePath true w)).
Proof.
  intros filePath Hfile Hfresh. unfold getOrCacheResources. cbn [negb].
  fold filePath. rewrite Hfile. unfold opened, time_Now, log_event. cbn.
  assert ((modTime file + cacheExpiration <? clock w (ticks w))%Z = false) as -> by lia.
  cbn. destruct (UnmarshalResources (data file)); reflexivity.
Qed.

(** A missing or expired entry is fetched anew and, on success, written. *)
Lemma getOrCacheResources_refresh
    (fileCachePath namespace : string) (region : option string)
    (cacheExpiration : Z) (w : World) :
  let filePath := cachePath fileCachePath namespace in
  match files w !! filePath with
  | None => True
  | Some file => (modTime file + cacheExpiration < clock w (ticks w))%Z
  end →
  getOrCacheResources fileCachePath namespace region cacheExpiration true w
  = match retrieveResources namespace region
            (opened namespace filePath (bool_decide (is_Some (files w !! filePath))) w) with
    | Panics => Panics
    | Returns (inr err, w) => Returns (inr err, w)
    | Returns (inl resources, w) =>
        match MarshalResources resources with
        | None => Returns (inr ErrMarshal, w)
        | Some b =>
            Returns (inl resources,
                     log_event (CacheWrite namespace filePath) (write_file filePath b w))
        end
    end.
Proof.
  intros filePath Hstale. unfold getOrCacheResources. cbn [negb].
  fold filePath. destruct (files w !! filePath) as [file|] eqn:Hfile.
  - unfold opened, time_Now, log_event. cbn.
    assert ((modTime file + cacheExpiration <? clock w (ticks w))%Z = true) as -> by lia.
    cbn. reflexivity.
  - cbn. reflexivity.
Qed.

End CacheFacts.

Section CacheSpec.

(** C6, as the code has it: an entry written at [t0] is stale, and fetched
    anew, exactly when the clock reads more than [t0 + d]; up to and
    including [t0 + d] the file is read and no fetch is made. *)
Theorem getOrCacheResources_staleness :
  ∀ (J : JSON) (T : Tagging) (fileCachePath namespace reg : string)
    (d : Z) (w : World) (file : File),
    let filePath := cachePath fileCachePath namespace in
    let t0 := modTime file in
    let t := clock w (ticks w) in
    files w !! filePath = Some file →
    ((t0 + d < t)%Z →
     ∃ res w' tail,
       getOrCacheResources fileCachePath namespace (Some reg) d true w = Returns (res, w')
       ∧ calls w' = S (calls w)
       ∧ trace w' = trace w ++ CacheOpen namespace filePath :: Fetch namespace reg :: tail
       ∧ (∀ resources, res = inl resources →
            resources = (GetResources (calls w) namespace reg).1
            ∧ ∃ b, MarshalResources resources = Some b
                   ∧ files w'
                     = <[filePath := {| data := b; modTime := clock w (S (ticks w)) |}]>
                         (files w)))
    ∧ ((t <= t0 + d)%Z →
       ∃ w',
         getOrCacheResources fileCachePath namespace (Some reg) d true w
         = Returns (match UnmarshalResources (data file) with
                    | Some resources => inl resources
                    | None => inr ErrUnmarshal
                    end, w')
         ∧ calls w' = calls w
         ∧ files w' = files w
         ∧ trace w'
           = trace w ++ [CacheOpen namespace filePath; CacheRead namespace filePath]).
Proof.
  intros J T fileCachePath namespace reg d w file filePath t0 t Hfile. split.
  - intros Hstale.
    pose proof (getOrCacheResources_refresh fileCachePath namespace (Some reg) d w) as Hr.
    cbv zeta in Hr. fold filePath in Hr. rewrite Hfile in Hr. specialize (Hr Hstale).
    rewrite Hr. clear Hr.
    rewrite bool_decide_eq_true_2 by eauto.
    unfold retrieveResources, opened, time_Now, log_event, next_call. cbn.
    destruct (GetResources (calls w) namespace reg) as [resources [e|]] eqn:Hget; cbn.
    + destruct (bool_decide (e = ErrExpectedToFindResources)); cbn.
      * destruct (MarshalResources resources) as [b|] eqn:Hb.
        -- eexists _, _, _. split; [reflexivity|]. cbn.
           split; [reflexivity|]. split; [by rewrite <- !app_assoc|].
           intros ? [= <-]. split; [reflexivity|]. exists b. by split.
        -- eexists _, _, []. split; [reflexivity|]. cbn.
           split; [reflexivity|]. split; [by rewrite <- !app_assoc|]. discriminate.
      * eexists _, _, []. split; [reflexivity|]. cbn.
        split; [reflexivity|]. split; [by rewrite <- !app_assoc|]. discriminate.
    + destruct (MarshalResources resources) as [b|] eqn:Hb.
      * eexists _, _, _. split; [reflexivity|]. cbn.
        split; [reflexivity|]. split; [by rewrite <- !app_assoc|].
        intros ? [= <-]. split; [reflexivity|]. exists b. by split.
      * eexists _, _, []. split; [reflexivity|]. cbn.
        split; [reflexivity|]. split; [by rewrite <- !app_assoc|]. discriminate.
  - intros Hfresh.
    rewrite (getOrCacheResources_fresh fileCachePath namespace (Some reg) d w file Hfile Hfresh).
    eexists. split; [reflexivity|]. cbn.
    split; [reflexivity|]. split; [reflexivity|]. by rewrite <- app_assoc.
Qed.

Local Abbreviation sample_get client :=
  (@getOrCacheResources Sample.json client "/tmp" "AWS/EC2" (Some "us-east-1")).

(** A day-old file and a TTL of an hour: the entry is fetched anew. *)
Lemma getOrCacheResources_staleness_witness :
  ∃ res w' tail,
    sample_get (Sample.client [([Sample.ec2Resource], None)]) 3600 true
      (Sample.cache_world 87400 "[]")
    = Returns (res, w')
    ∧ calls w' = 1%nat
    ∧ trace w' = CacheOpen "AWS/EC2" "/tmp/cache-AWS-EC2"
                 :: Fetch "AWS/EC2" "us-east-1" :: tail.
Proof.
  destruct (proj1 (getOrCacheResources_staleness Sample.json
                     (Sample.client [([Sample.ec2Resource], None)])
                     "/tmp" "AWS/EC2" "us-east-1" 3600 (Sample.cache_world 87400 "[]")
                     {| data := "[]"; modTime := 1000 |}
                     ltac:(vm_compute; reflexivity))
              ltac:(vm_compute; reflexivity))
    as (res & w' & tail & Hget & Hcalls & Htrace & _).
  exists res, w', tail. split; [exact Hget|]. split; [exact Hcalls | exact Htrace].
Defined.

(** C6 as stated fails: at exactly [t0 + d] the persisted entry is returned
    and the client, which would have failed, is not called. *)
Lemma getOrCacheResources_boundary_is_fresh :
  ∃ w',
    sample_get (Sample.client []) 3600 true
      (Sample.cache_world (1000 + 3600) Sample.ec2Cached)
    = Returns (inl [Sample.ec2Resource], w')
    ∧ calls w' = 0%nat
    ∧ trace w' = [ CacheOpen "AWS/EC2" "/tmp/cache-AWS-EC2";
                   CacheRead "AWS/EC2" "/tmp/cache-AWS-EC2" ].
Proof. eexists. split; [vm_compute; reflexivity | split; reflexivity]. Qed.

End CacheSpec.

Section CorruptEntry.

(** C7, as the code has it: an unexpired entry that does not parse makes the
    cache get return the parse error; no fetch is made and the file stays as
    it is.  In the orchestrator the data point is then skipped when
    [continueOnResourceFailure] is set, and the error is returned from
    [enhanceRequests] otherwise; the in-memory map gets no entry. *)
Theorem getOrCacheResources_corrupt :
  (∀ (J : JSON) (T : Tagging) (fileCachePath namespace : string)
     (region : option string) (d : Z) (w : World) (file : File),
     files w !! cachePath fileCachePath namespace = Some file →
     (clock w (ticks w) <= modTime file + d)%Z →
     UnmarshalResources (data file) = None →
     ∃ w',
       getOrCacheResources fileCachePath namespace region d true w
       = Returns (inr ErrUnmarshal, w')
       ∧ calls w' = calls w
       ∧ files w' = files w)
  ∧ (∀ (J : JSON) (T : Tagging) (A : Associators) (cfg : Settings)
       (namespace : string) (st : EnrichState) (file : File),
       resourceCache st !! namespace = None →
       fileCacheEnabled cfg = true →
       files (world st) !! cachePath (fileCachePath cfg) namespace = Some file →
       (clock (world st) (ticks (world st)) <= modTime file + fileCacheExpiration cfg)%Z →
       UnmarshalResources (data file) = None →
       ∃ st',
         ensureResources cfg namespace st
         = Returns (inr (if continueOnResourceFailure cfg then dp_continue
                         else dp_return ErrUnmarshal, st'))
         ∧ resourceCache st' = resourceCache st
         ∧ calls (world st') = calls (world st)
         ∧ files (world st') = files (world st)).
Proof.
  split.
  - intros J T fileCachePath namespace region d w file Hfile Hfresh Hcorrupt.
    rewrite (getOrCacheResources_fresh fileCachePath namespace region d w file Hfile Hfresh).
    rewrite Hcorrupt. eexists. split; [reflexivity|]. by split.
  - intros J T A cfg namespace st file Hmiss Hon Hfile Hfresh Hcorrupt.
    unfold ensureResources. rewrite Hmiss, Hon.
    rewrite (getOrCacheResources_fresh _ namespace _ _ _ file Hfile Hfresh).
    rewrite Hcorrupt. cbn.
    destruct (continueOnResourceFailure cfg); eexists; (split; [reflexivity|]); by cbn.
Qed.

Local Abbreviation sample_get :=
  (@getOrCacheResources Sample.json (Sample.client [([Sample.ec2Resource], None)])
     "/tmp" "AWS/EC2" (Some "us-east-1")).

(** The first part at a file that holds half a JSON document. *)
Lemma getOrCacheResources_corrupt_witness :
  ∃ w',
    sample_get 3600 true (Sample.cache_world 2000 "[{")
    = Returns (inr ErrUnmarshal, w')
    ∧ calls w' = 0%nat
    ∧ files w' = files (Sample.cache_world 2000 "[{").
Proof.
  apply (proj1 getOrCacheResources_corrupt Sample.json
           (Sample.client [([Sample.ec2Resource], None)])
           "/tmp" "AWS/EC2" (Some "us-east-1") 3600%Z (Sample.cache_world 2000 "[{")
           {| data := "[{"; modTime := 1000 |});
    vm_compute; (reflexivity || discriminate).
Defined.

(** C7 as stated fails: the corrupt entry is not treated as absent.  The
    client would have answered, but it is not asked; the error comes back
    and the file is left as it was. *)
Lemma getOrCacheResources_corrupt_not_refreshed :
  ∃ w',
    sample_get 3600 true (Sample.cache_world 2000 "[{")
    = Returns (inr ErrUnmarshal, w')
    ∧ calls w' = 0%nat
    ∧ files w' !! "/tmp/cache-AWS-EC2" = Some {| data := "[{"; modTime := 1000 |}.
Proof. eexists. split; [vm_compute; reflexivity | split; reflexivity]. Qed.

End CorruptEntry.

(* ===================================================================== *)
(** * Properties: the enrichment orchestrator                              *)
(* ===================================================================== *)

Section ForEach.
Context {A S : Type}.
Implicit Types (body : A → S → outcome (A * S * option error)).

(** A loop that ends without an error has visited every element; [proj]
    is the part of the loop's state that the relation speaks of. *)
Lemma for_each_visits {T : Type} (R : A → T → A → T → Prop) (proj : S → T) body :
  (∀ a s a' s', body a s = Returns (a', s', None) → R a (proj s) a' (proj s')) →
  ∀ l s l' s', for_each body l s = Returns (l', s', None) →
               visits R l (proj s) l' (proj s').
Proof.
  intros Hbody l. induction l as [|a l IH]; intros s l' s'; cbn [for_each].
  - intros [= <- <-]. constructor.
  - destruct (body a s) as [[[a1 s1] [err|]]|] eqn:Ha; try discriminate.
    destruct (for_each body l s1) as [[[l1 s2] err]|] eqn:Hl; [|discriminate].
    intros [= <- <- ->]. econstructor; [by eapply Hbody | by eapply IH].
Qed.

(** What a loop that ends without an error has appended to a list it
    carries in its state. *)
Lemma for_each_visits_appended {B T : Type} (R : A → T → list B → T → Prop)
    (acc : S → list B) (proj : S → T) body :
  (∀ a s a' s', body a s = Returns (a', s', None) →
                ∃ out, R a (proj s) out (proj s') ∧ acc s' = acc s ++ out) →
  ∀ l s l' s', for_each body l s = Returns (l', s', None) →
               ∃ outs, visits R l (proj s) outs (proj s')
                       ∧ acc s' = acc s ++ concat outs.
Proof.
  intros Hbody l. induction l as [|a l IH]; intros s l' s'; cbn [for_each].
  - intros [= _ <-]. exists []. split; [constructor | by rewrite app_nil_r].
  - destruct (body a s) as [[[a1 s1] [err|]]|] eqn:Ha; try discriminate.
    destruct (for_each body l s1) as [[[l1 s2] err]|] eqn:Hl; [|discriminate].
    intros [= _ <- ->].
    destruct (Hbody _ _ _ _ Ha) as (out & Hout & Hacc).
    destruct (IH _ _ _ Hl) as (outs & Houts & Haccs).
    exists (out :: outs). split; [by econstructor|].
    rewrite Haccs, Hacc. cbn [concat]. by rewrite app_assoc.
Qed.

(** A loop whose body always returns always returns. *)
Lemma for_each_returns body :
  (∀ a s, ∃ res, body a s = Returns res) →
  ∀ l s, ∃ res, for_each body l s = Returns res.
Proof.
  intros Hbody l. induction l as [|a l IH]; intros s; cbn [for_each]; [eauto|].
  destruct (Hbody a s) as [[[a1 s1] [err|]] ->]; [eauto|].
  destruct (IH s1) as [[[l1 s2] err] ->]. eauto.
Qed.

(** A loop whose body never returns an error never returns one. *)
Lemma for_each_no_error body :
  (∀ a s a' s' err, body a s = Returns (a', s', err) → err = None) →
  ∀ l s l' s' err, for_each body l s = Returns (l', s', err) → err = None.
Proof.
  intros Hbody l. induction l as [|a l IH]; intros s l' s' err; cbn [for_each].
  - by intros [= _ _ <-].
  - destruct (body a s) as [[[a1 s1] [e|]]|] eqn:Ha; try discriminate.
    + by apply Hbody in Ha.
    + destruct (for_each body l s1) as [[[l1 s2] e]|] eqn:Hl; [|discriminate].
      intros [= _ _ <-]. by eapply IH.
Qed.

End ForEach.

Lemma visits_length {A B S : Type} (R : A → S → B → S → Prop)
    (l : list A) (s : S) (bs : list B) (s' : S) :
  visits R l s bs s' → length bs = length l.
Proof.
  induction 1 as [|a l s b s1 bs s2 _ _ IH]; cbn [length]; [reflexivity | by rewrite IH].
Qed.

Section GaugeValues.
Context `{!Promutil}.
Import metricspb.

Lemma filter_enabled_cons (m : gmap string bool) (x : string * float)
    (l : list (string * float)) :
  filter (λ sv, enabled m sv.1 = true) (x :: l)
  = if enabled m x.1 then x :: filter (λ sv, enabled m sv.1 = true) l
    else filter (λ sv, enabled m sv.1 = true) l.
Proof.
  rewrite filter_cons. destruct (decide (enabled m x.1 = true)) as [->|Hne];
    [reflexivity|]. by destruct (enabled m x.1).
Qed.

(** The gauges of a data point are those of its statistics that are
    enabled. *)
Lemma summaryToGauges_values (cwm : model.Metric) (dp : SummaryDataPoint)
    (attrs : list commonpb.KeyValue) (enabledStats : gmap string bool) :
  summaryToGauges cwm dp attrs enabledStats
  = statistic_gauge cwm dp attrs
      <$> filter (λ sv, enabled enabledStats sv.1 = true) (available_values dp).
Proof.
  unfold summaryToGauges, available_values.
  set (name := BuildMetricName (model.Namespace cwm) (model.MetricName cwm)).
  set (ts := sdp_TimeUnixNano dp). set (startTs := sdp_StartTimeUnixNano dp).
  set (gauge := statistic_gauge cwm dp attrs).
  assert (∀ (qvs : list ValueAtQuantile) (acc : list Metric)
            (stats : list (string * float)),
            acc = gauge <$> filter (λ sv, enabled enabledStats sv.1 = true) stats →
            fold_left
              (λ gauges qv,
                 let stat := quantileToStatistic (Quantile qv) in
                 if enabled enabledStats stat
                 then gauges ++ [newGauge (name stat) (Value qv) ts startTs attrs]
                 else gauges) qvs acc
            = gauge <$> filter (λ sv, enabled enabledStats sv.1 = true)
                          (stats ++ ((λ qv, (quantileToStatistic (Quantile qv), Value qv))
                                       <$> qvs))) as Hloop.
  { induction qvs as [|qv qvs IH]; intros acc stats Hacc;
      cbn [fold_left fmap list_fmap].
    - by rewrite app_nil_r.
    - cbv zeta.
      replace (stats ++ (quantileToStatistic (Quantile qv), Value qv)
                 :: ((λ qv, (quantileToStatistic (Quantile qv), Value qv)) <$> qvs))
        with ((stats ++ [(quantileToStatistic (Quantile qv), Value qv)])
                ++ ((λ qv, (quantileToStatistic (Quantile qv), Value qv)) <$> qvs))
        by (by rewrite <- app_assoc).
      apply IH.
      rewrite filter_app, filter_enabled_cons, filter_nil. cbn [fst].
      destruct (enabled enabledStats (quantileToStatistic (Quantile qv))).
      + rewrite fmap_app, Hacc. reflexivity.
      + by rewrite app_nil_r. }
  rewrite !app_assoc. apply Hloop.
  rewrite !filter_app, !filter_enabled_cons, !filter_nil. cbn [fst].
  destruct (0 <? sdp_Count dp)%Z;
    rewrite ?filter_enabled_cons, ?filter_nil, ?andb_true_r, ?andb_false_r; cbn [fst];
    destruct (enabled enabledStats "SampleCount"), (enabled enabledStats "Sum"),
      (enabled enabledStats "Average"); reflexivity.
Qed.

End GaugeValues.

Section Levels.
Context `{!Promutil, !GoModel, !JSON, !Tagging, !Associators}.
Variable cfg : Settings.
Import metricspb.

(** The range loops over maps are counted by the label builder alone. *)
Lemma getOrCacheResources_seed (fileCachePath namespace : string)
    (region : option string) (d : Z) (cacheEnabled : bool) (w w' : World)
    (res : list model.TaggedResource + error) :
  getOrCacheResources fileCachePath namespace region d cacheEnabled w
  = Returns (res, w') →
  seed w' = seed w.
Proof.
  unfold getOrCacheResources, retrieveResources.
  destruct region as [reg|].
  - destruct cacheEnabled; cbn [negb].
    + destruct (files w !! _) as [file|]; cbn.
      * destruct (_ <? _)%Z; cbn.
        -- destruct (GetResources _ _ _) as [resources [e|]]; cbn;
             [destruct (bool_decide _); cbn|]; try destruct (MarshalResources _);
             by intros [= _ <-].
        -- destruct (UnmarshalResources _); by intros [= _ <-].
      * destruct (GetResources _ _ _) as [resources [e|]]; cbn;
          [destruct (bool_decide _); cbn|]; try destruct (MarshalResources _);
          by intros [= _ <-].
    + destruct (GetResources _ _ _) as [resources [e|]];
        [destruct (negb _)|]; by intros [= _ <-].
  - destruct cacheEnabled; cbn [negb]; [|discriminate].
    destruct (files w !! _) as [file|]; cbn; [|discriminate].
    destruct (_ <? _)%Z; cbn; [discriminate|].
    destruct (UnmarshalResources _); by intros [= _ <-].
Qed.

(** The block that looks the resources of a namespace up. *)
Lemma ensureResources_spec (namespace : string) (st : EnrichState)
    (res : EnrichState + dp_step * EnrichState) :
  ensureResources cfg namespace st = Returns res →
  match res with
  | inl st1 =>
      is_Some (resourceCache st1 !! namespace)
      ∧ associatorCache st1 = associatorCache st
      ∧ seed (world st1) = seed (world st)
  | inr (step, st1) =>
      resourceCache st !! namespace = None
      ∧ resourceCache st1 = resourceCache st
      ∧ associatorCache st1 = associatorCache st
      ∧ ∃ err,
          getOrCacheResources (fileCachePath cfg) namespace (region cfg)
            (fileCacheExpiration cfg) (fileCacheEnabled cfg) (world st)
          = Returns (inr err, world st1)
          ∧ err ≠ ErrExpectedToFindResources
          ∧ step = if continueOnResourceFailure cfg then dp_continue else dp_return err
  end.
Proof.
  unfold ensureResources.
  destruct (resourceCache st !! namespace) as [held|] eqn:Hheld.
  { intros [= <-]. rewrite Hheld. by eauto. }
  destruct (getOrCacheResources _ _ _ _ _ _) as [[[resources|err] w]|] eqn:Hget;
    [| |discriminate].
  - intros [= <-]. cbn. rewrite lookup_insert_eq.
    apply getOrCacheResources_seed in Hget. by eauto.
  - destruct (bool_decide_reflect (err = ErrExpectedToFindResources)) as [->|Hne];
      cbn [negb].
    + intros [= <-]. cbn. rewrite lookup_insert_eq.
      apply getOrCacheResources_seed in Hget. by eauto.
    + destruct (continueOnResourceFailure cfg); intros [= <-]; cbn;
        (split; [reflexivity|]); (split; [reflexivity|]); (split; [reflexivity|]);
        by exists err.
Qed.

(** The visit of a data point ends as [dp_outcome] says. *)
Lemma enrichDataPoint_outcome (accountID effectiveRegion : string)
    (dp : SummaryDataPoint) (st st' : EnrichState) (step : dp_step) :
  enrichDataPoint cfg accountID effectiveRegion dp st = Returns (step, st') →
  dp_outcome cfg accountID effectiveRegion dp st step st'.
Proof.
  unfold enrichDataPoint, dp_outcome. cbv zeta.
  set (cwm := buildCloudWatchMetricFromKeyValues (sdp_Attributes dp)).
  destruct (String.eqb_spec (model.MetricName cwm) "") as [Hname|Hname]; cbn [orb].
  { intros [= <- <-]. left. by eauto. }
  destruct (String.eqb_spec (model.Namespace cwm) "") as [Hns|Hns].
  { intros [= <- <-]. left. by eauto. }
  destruct (GetService (model.Namespace cwm)) as [svc|] eqn:Hsvc.
  2:{ intros [= <- <-]. left. by eauto. }
  destruct (ensureResources cfg (model.Namespace cwm) st) as [[st1|[step1 st1]]|] eqn:He;
    [| |discriminate]; apply ensureResources_spec in He.
  - destruct He as ([resources Hres] & Hasc & Hseed).
    destruct (associatorCache st1 !! model.Namespace cwm) as [asc|] eqn:Hheld;
      destruct (AssociateMetricToResource _ cwm) as [r skip] eqn:Hanswer;
      intros [= <- <-]; cbn;
      (split; [reflexivity|]); (split; [exact Hname|]); (split; [exact Hns|]).
    + exists svc, resources, asc. rewrite <- Hasc, Hheld, Hanswer, Hseed. by eauto.
    + exists svc, resources, (NewAssociator svc resources).
      rewrite Hres in Hanswer. cbn in Hanswer.
      rewrite <- Hasc, Hheld, lookup_insert_eq, Hseed, Hanswer, Hres. by eauto.
  - destruct He as (Hnone & _ & _ & err & Hget & Hne & ->).
    destruct (continueOnResourceFailure cfg) eqn:Hc; intros [= <- <-].
    + right. by eauto 10.
    + by eauto 10.
Qed.

(** One data point, in expansion mode: its gauges go to the end of
    [newMetrics]. *)
Lemma dataPoint_body_expanded (accountID effectiveRegion : string)
    (dp dp' : SummaryDataPoint) (ls ls' : LoopState) :
  yaceCompatMode cfg = true →
  dataPoint_body cfg accountID effectiveRegion dp ls = Returns (dp', ls', None) →
  ∃ gauges,
    dp_expanded cfg accountID effectiveRegion dp (enrich ls) gauges (enrich ls')
    ∧ newMetrics ls' = newMetrics ls ++ gauges.
Proof.
  intros Hmode. unfold dataPoint_body, dp_expanded. rewrite Hmode.
  destruct (enrichDataPoint _ _ _ _ _) as [[[| err | cwm labels] st1]|] eqn:He;
    try discriminate; intros [= _ <-]; cbn.
  - exists []. split; [|by rewrite app_nil_r].
    exists dp_continue. split; [reflexivity|].
    split; [by apply enrichDataPoint_outcome | reflexivity].
  - eexists. split; [|reflexivity].
    exists (dp_labelled cwm labels). split; [reflexivity|].
    split; [by apply enrichDataPoint_outcome | apply summaryToGauges_values].
Qed.

(** One data point, in compatibility mode: it and the name of its metric
    are as [dp_in_place] says, and [newMetrics] does not change. *)
Lemma dataPoint_body_in_place (accountID effectiveRegion : string)
    (dp dp' : SummaryDataPoint) (ls ls' : LoopState) :
  yaceCompatMode cfg = false →
  dataPoint_body cfg accountID effectiveRegion dp ls = Returns (dp', ls', None) →
  dp_in_place cfg accountID effectiveRegion dp (metricName ls, enrich ls)
    dp' (metricName ls', enrich ls').
Proof.
  intros Hmode. unfold dataPoint_body, dp_in_place. rewrite Hmode.
  destruct (enrichDataPoint _ _ _ _ _) as [[[| err | cwm labels] st1]|] eqn:He;
    try discriminate; intros [= <- <-]; cbn.
  - exists dp_continue. split; [reflexivity|].
    split; [by apply enrichDataPoint_outcome | by split].
  - exists (dp_labelled cwm labels). split; [reflexivity|].
    split; [by apply enrichDataPoint_outcome | by split].
Qed.

Lemma metric_body_expansion (accountID effectiveRegion : string)
    (metric metric' : Metric) (acc acc' : list Metric * EnrichState) :
  yaceCompatMode cfg = true →
  metric_body cfg accountID effectiveRegion metric acc = Returns (metric', acc', None) →
  ∃ out, metric_expansion cfg accountID effectiveRegion metric acc.2 out acc'.2
         ∧ acc'.1 = acc.1 ++ out.
Proof.
  intros Hmode. unfold metric_body, metric_expansion. rewrite Hmode.
  destruct (Data metric) as [ndps | dps | payload].
  - intros [= _ <-]. by eexists.
  - destruct (for_each _ dps _) as [[[dps' ls] err]|] eqn:Hloop; [|discriminate].
    intros [= _ <- ->]. cbn [fst snd].
    destruct (for_each_visits_appended (dp_expanded cfg accountID effectiveRegion)
                newMetrics enrich (dataPoint_body cfg accountID effectiveRegion)
                ltac:(intros a s a' s' Ha; by eapply dataPoint_body_expanded)
                _ _ _ _ Hloop) as (gss & Hgss & Hacc).
    exists (concat gss). split; [by exists gss | exact Hacc].
  - intros [= _ <-]. by eexists.
Qed.

Lemma metric_body_in_place (accountID effectiveRegion : string)
    (metric metric' : Metric) (acc acc' : list Metric * EnrichState) :
  yaceCompatMode cfg = false →
  metric_body cfg accountID effectiveRegion metric acc = Returns (metric', acc', None) →
  metric_in_place cfg accountID effectiveRegion metric acc.2 metric' acc'.2.
Proof.
  intros Hmode. unfold metric_body, metric_in_place. rewrite Hmode.
  destruct (Data metric) as [ndps | dps | payload].
  - by intros [= <- <-].
  - destruct (for_each _ dps _) as [[[dps' ls] err]|] eqn:Hloop; [|discriminate].
    intros [= <- <- ->]. exists dps', (metricName ls). split; [|reflexivity].
    apply (for_each_visits (dp_in_place cfg accountID effectiveRegion)
             (λ ls, (metricName ls, enrich ls))
             (dataPoint_body cfg accountID effectiveRegion)
             ltac:(intros a s a' s' Ha; by eapply dataPoint_body_in_place)
             _ _ _ _ Hloop).
  - by intros [= <- <-].
Qed.

Lemma scope_body_enriched (accountID effectiveRegion : string)
    (sm sm' : ScopeMetrics) (st st' : EnrichState) :
  scope_body cfg accountID effectiveRegion sm st = Returns (sm', st', None) →
  scope_enriched cfg accountID effectiveRegion sm st sm' st'.
Proof.
  unfold scope_body, scope_enriched.
  destruct (for_each _ (Metrics sm) _) as [[[metrics' [new st1]] [err|]]|] eqn:Hloop;
    try discriminate.
  intros [= <- <-].
  destruct (yaceCompatMode cfg) eqn:Hmode.
  - destruct (for_each_visits_appended
                (metric_expansion cfg accountID effectiveRegion) fst snd
                (metric_body cfg accountID effectiveRegion)
                ltac:(intros a s a' s' Ha; by eapply metric_body_expansion)
                _ _ _ _ Hloop) as (outs & Houts & Hacc).
    exists outs. split; [exact Houts|]. cbn in Hacc. by rewrite Hacc.
  - pose proof (for_each_visits (metric_in_place cfg accountID effectiveRegion) snd
                  (metric_body cfg accountID effectiveRegion)
                  ltac:(intros a s a' s' Ha; by eapply metric_body_in_place)
                  _ _ _ _ Hloop) as Hall.
    exists metrics'. split; [exact Hall|]. split; [|reflexivity].
    by eapply visits_length.
Qed.

Lemma resource_body_enriched (rm rm' : ResourceMetrics) (st st' : EnrichState) :
  resource_body cfg rm st = Returns (rm', st', None) →
  resource_enriched cfg rm st rm' st'.
Proof.
  unfold resource_body, resource_enriched.
  destruct (extractResourceAttributes rm) as [accountID resourceRegion]. cbn [fst snd].
  destruct (for_each _ (ScopeMetrics_ rm) _) as [[[sms st1] err]|] eqn:Hloop;
    [|discriminate].
  intros [= <- <- ->]. exists sms. split; [|reflexivity].
  eapply (for_each_visits _ (λ s, s)); [|exact Hloop].
  intros a s a' s' Ha. by eapply scope_body_enriched.
Qed.

Lemma request_body_enriched
    (req req' : metricsservicepb.ExportMetricsServiceRequest) (st st' : EnrichState) :
  request_body cfg req st = Returns (req', st', None) →
  request_enriched cfg req st req' st'.
Proof.
  unfold request_body, request_enriched.
  destruct (for_each _ _ _) as [[[rms st1] err]|] eqn:Hloop; [|discriminate].
  intros [= <- <- ->]. exists rms. split; [|reflexivity].
  eapply (for_each_visits _ (λ s, s)); [|exact Hloop].
  intros a s a' s' Ha. by eapply resource_body_enriched.
Qed.

Lemma enhanceRequests_enriched
    (batch batch' : list metricsservicepb.ExportMetricsServiceRequest)
    (st st' : EnrichState) :
  enhanceRequests cfg batch st = Returns (batch', st', None) →
  visits (request_enriched cfg) batch st batch' st'.
Proof.
  intros Hrun. eapply (for_each_visits _ (λ s, s)); [|exact Hrun].
  intros a s a' s' Ha. by eapply request_body_enriched.
Qed.

End Levels.

Section Totality.
Context `{!Promutil, !GoModel, !JSON, !Tagging, !Associators}.
Variable cfg : Settings.
Variable reg : string.
Hypothesis region_set : region cfg = Some reg.
Import metricspb.

(** With a region at hand nothing panics: every call returns. *)
Lemma getOrCacheResources_returns (fileCachePath namespace : string)
    (d : Z) (cacheEnabled : bool) (w : World) :
  ∃ res, getOrCacheResources fileCachePath namespace (Some reg) d cacheEnabled w
         = Returns res.
Proof.
  unfold getOrCacheResources, retrieveResources.
  destruct cacheEnabled; cbn [negb].
  - destruct (files w !! _) as [file|]; cbn.
    + destruct (_ <? _)%Z; cbn.
      * destruct (GetResources _ _ _) as [resources [e|]]; cbn;
          [destruct (bool_decide _); cbn|]; try destruct (MarshalResources _); eauto.
      * destruct (UnmarshalResources _); eauto.
    + destruct (GetResources _ _ _) as [resources [e|]]; cbn;
        [destruct (bool_decide _); cbn|]; try destruct (MarshalResources _); eauto.
  - destruct (GetResources _ _ _) as [resources [e|]];
      [destruct (negb _)|]; eauto.
Qed.

Lemma enrichDataPoint_returns (accountID effectiveRegion : string)
    (dp : SummaryDataPoint) (st : EnrichState) :
  ∃ res, enrichDataPoint cfg accountID effectiveRegion dp st = Returns res.
Proof.
  unfold enrichDataPoint, ensureResources. rewrite region_set.
  destruct (_ || _)%bool; [eauto|].
  destruct (GetService _); [|eauto].
  destruct (resourceCache st !! _).
  - destruct (associatorCache st !! _); destruct (AssociateMetricToResource _ _); eauto.
  - destruct (getOrCacheResources_returns (fileCachePath cfg)
                (model.Namespace (buildCloudWatchMetricFromKeyValues (sdp_Attributes dp)))
                (fileCacheExpiration cfg) (fileCacheEnabled cfg) (world st))
      as [[[resources|err] w] ->].
    + cbn. destruct (_ !! _); destruct (AssociateMetricToResource _ _); eauto.
    + destruct (negb _); [destruct (continueOnResourceFailure cfg); eauto|].
      cbn. destruct (_ !! _); destruct (AssociateMetricToResource _ _); eauto.
Qed.

Lemma dataPoint_body_returns (accountID effectiveRegion : string)
    (dp : SummaryDataPoint) (ls : LoopState) :
  ∃ res, dataPoint_body cfg accountID effectiveRegion dp ls = Returns res.
Proof.
  unfold dataPoint_body.
  destruct (enrichDataPoint_returns accountID effectiveRegion dp (enrich ls))
    as [[[| err | cwm labels] st] ->]; [eauto | eauto |].
  destruct (yaceCompatMode cfg); eauto.
Qed.

Lemma metric_body_returns (accountID effectiveRegion : string)
    (metric : Metric) (acc : list Metric * EnrichState) :
  ∃ res, metric_body cfg accountID effectiveRegion metric acc = Returns res.
Proof.
  unfold metric_body. destruct (Data metric) as [ndps | dps | payload].
  - destruct (yaceCompatMode cfg); eauto.
  - destruct (for_each_returns (dataPoint_body cfg accountID effectiveRegion)
                (dataPoint_body_returns accountID effectiveRegion) dps
                {| metricName := Name metric; newMetrics := acc.1; enrich := acc.2 |})
      as [[[dps' ls] err] ->]. eauto.
  - destruct (yaceCompatMode cfg); eauto.
Qed.

Lemma scope_body_returns (accountID effectiveRegion : string)
    (sm : ScopeMetrics) (st : EnrichState) :
  ∃ res, scope_body cfg accountID effectiveRegion sm st = Returns res.
Proof.
  unfold scope_body.
  destruct (for_each_returns (metric_body cfg accountID effectiveRegion)
              (metric_body_returns accountID effectiveRegion) (Metrics sm) ([], st))
    as [[[metrics' [new st1]] [err|]] ->]; eauto.
Qed.

Lemma resource_body_returns (rm : ResourceMetrics) (st : EnrichState) :
  ∃ res, resource_body cfg rm st = Returns res.
Proof.
  unfold resource_body. destruct (extractResourceAttributes rm) as [accountID rr].
  match goal with |- context [for_each (scope_body cfg ?a ?r) _ _] =>
    destruct (for_each_returns (scope_body cfg a r) (scope_body_returns a r)
                (ScopeMetrics_ rm) st) as [[[sms st1] err] ->] end.
  eauto.
Qed.

Lemma enhanceRequests_returns
    (batch : list metricsservicepb.ExportMetricsServiceRequest) (st : EnrichState) :
  ∃ res, enhanceRequests cfg batch st = Returns res.
Proof.
  apply for_each_returns. intros req st1. unfold request_body.
  destruct (for_each_returns (resource_body cfg) resource_body_returns
              (metricsservicepb.ResourceMetrics req) st1) as [[[rms st2] err] ->].
  eauto.
Qed.

End Totality.

Section NoError.
Context `{!Promutil, !GoModel, !JSON, !Tagging, !Associators}.
Variable cfg : Settings.
Hypothesis continue_set : continueOnResourceFailure cfg = true.
Import metricspb.

(** Under the continue-on-failure policy no error is returned. *)
Lemma enhanceRequests_no_error
    (batch batch' : list metricsservicepb.ExportMetricsServiceRequest)
    (st st' : EnrichState) (err : option error) :
  enhanceRequests cfg batch st = Returns (batch', st', err) → err = None.
Proof.
  assert (∀ a r dp ls dp' ls' e,
            dataPoint_body cfg a r dp ls = Returns (dp', ls', e) → e = None) as Hdp.
  { intros a r dp ls dp' ls' e. unfold dataPoint_body.
    destruct (enrichDataPoint _ _ _ _ _) as [[[| err1 | cwm labels] st1]|] eqn:He;
      try discriminate.
    - by intros [= _ _ <-].
    - apply enrichDataPoint_outcome in He as (_ & _ & _ & Hc & _). congruence.
    - destruct (yaceCompatMode cfg); by intros [= _ _ <-]. }
  assert (∀ a r m acc m' acc' e,
            metric_body cfg a r m acc = Returns (m', acc', e) → e = None) as Hm.
  { intros a r m acc m' acc' e. unfold metric_body.
    destruct (Data m) as [ndps | dps | payload].
    - destruct (yaceCompatMode cfg); by intros [= _ _ <-].
    - destruct (for_each _ dps _) as [[[dps' ls] e1]|] eqn:Hloop; [|discriminate].
      intros [= _ _ <-]. eapply for_each_no_error; [|exact Hloop]. apply Hdp.
    - destruct (yaceCompatMode cfg); by intros [= _ _ <-]. }
  assert (∀ a r sm s sm' s' e,
            scope_body cfg a r sm s = Returns (sm', s', e) → e = None) as Hs.
  { intros a r sm s sm' s' e. unfold scope_body.
    destruct (for_each _ (Metrics sm) _) as [[[ms [new s1]] [e1|]]|] eqn:Hloop;
      try discriminate.
    - pose proof (for_each_no_error _ (Hm a r) _ _ _ _ _ Hloop). discriminate.
    - by intros [= _ _ <-]. }
  assert (∀ rm s rm' s' e, resource_body cfg rm s = Returns (rm', s', e) → e = None) as Hr.
  { intros rm s rm' s' e. unfold resource_body.
    destruct (extractResourceAttributes rm) as [a rr].
    destruct (for_each _ (ScopeMetrics_ rm) _) as [[[sms s1] e1]|] eqn:Hloop;
      [|discriminate].
    intros [= _ _ <-]. eapply for_each_no_error; [|exact Hloop]. apply Hs. }
  unfold enhanceRequests. apply for_each_no_error.
  intros req s req' s' e. unfold request_body.
  destruct (for_each _ _ _) as [[[rms s1] e1]|] eqn:Hloop; [|discriminate].
  intros [= _ _ <-]. eapply for_each_no_error; [|exact Hloop]. apply Hr.
Qed.

End NoError.

Section MetricLists.
Import metricspb.

Local Abbreviation sample_enhance yace batch :=
  (@enhanceRequests Sample.promutil Sample.gomodel Sample.json (Sample.client [])
     Sample.associators (Sample.settings yace true) batch Sample.filled).

(** C9: when [enhanceRequests] returns without an error, the batch it
    leaves is the batch it got, visited in order as [request_enriched]
    says, down to the data points.  In expansion mode the metric list of a
    scope is the concatenation, metric by metric in the old order, of the
    gauges of the data points of a summary and of the metric itself when it
    is not a summary; a data point that was skipped gives no gauge, and one
    that got labels gives a gauge per enabled statistic it has, each a
    single data point with those labels, the time stamps of the summary
    data point and the value of the statistic.  In compatibility mode the
    list has its old length and each metric stands where it stood: a summary
    with the name the last of its labelled data points gave it, those data
    points with the labels for attributes and nothing else changed, any
    other metric as it was.  Which data points are skipped and what the
    labels are is as [dp_outcome] says.  With a region at hand the call
    always returns, and under the continue-on-failure policy it returns no
    error.  Last come the batches the call makes, in either mode, of the
    request of the repository's test and of a request with a data point
    that has no attributes. *)
Theorem enhanceRequests_metric_lists :
  (∀ (P : Promutil) (G : GoModel) (J : JSON) (T : Tagging) (A : Associators)
     (cfg : Settings)
     (batch batch' : list metricsservicepb.ExportMetricsServiceRequest)
     (st st' : EnrichState),
     enhanceRequests cfg batch st = Returns (batch', st', None) →
     visits (request_enriched cfg) batch st batch' st')
  ∧ (∀ (P : Promutil) (G : GoModel) (J : JSON) (T : Tagging) (A : Associators)
       (cfg : Settings) (accountID effectiveRegion : string)
       (dp : SummaryDataPoint) (st st' : EnrichState) (step : dp_step),
       enrichDataPoint cfg accountID effectiveRegion dp st = Returns (step, st') →
       dp_outcome cfg accountID effectiveRegion dp st step st')
  ∧ (∀ (P : Promutil) (G : GoModel) (J : JSON) (T : Tagging) (A : Associators)
       (cfg : Settings) (reg : string)
       (batch : list metricsservicepb.ExportMetricsServiceRequest) (st : EnrichState),
       region cfg = Some reg →
       ∃ batch' st' err,
         enhanceRequests cfg batch st = Returns (batch', st', err)
         ∧ (continueOnResourceFailure cfg = true → err = None))
  ∧ (let labels : list commonpb.KeyValue :=
       [ commonpb.strKV "region" "us-east-1";
         commonpb.strKV "account_id" "123456789012";
         commonpb.strKV "namespace" "AWS/EC2";
         commonpb.strKV "name"
           "arn:aws:ec2:us-east-1:123456789012:instance/i-1234567890abcdef0";
         commonpb.strKV "dimension_instance_id" "i-1234567890abcdef0";
         commonpb.strKV "tag_name" "my-instance";
         commonpb.strKV "tag_environment" "prod" ] in
     let gauge (name : string) (value : float) : Metric :=
       {| Name := name; Description := ""; Unit := "";
          Data := Metric_Gauge
                    [ {| ndp_Attributes := Some <$> labels;
                         ndp_StartTimeUnixNano := 900000000;
                         ndp_TimeUnixNano := 1000000000;
                         ndp_Value := Some (NumberDataPoint_AsDouble value) |} ] |} in
     let gauges : list Metric :=
       [ gauge "aws_ec2_cpuutilization_sample_count" 10%float;
         gauge "aws_ec2_cpuutilization_sum" 50%float;
         gauge "aws_ec2_cpuutilization_average" 5%float;
         gauge "aws_ec2_cpuutilization_minimum" 2%float;
         gauge "aws_ec2_cpuutilization_maximum" 10%float ] in
     let other : Metric :=
       {| Name := "other"; Description := ""; Unit := ""; Data := Metric_Gauge [] |} in
     let labelled : SummaryDataPoint :=
       {| sdp_Attributes := Some <$> labels;
          sdp_StartTimeUnixNano := 900000000;
          sdp_TimeUnixNano := 1000000000;
          sdp_Count := 10;
          sdp_Sum := 50;
          sdp_QuantileValues := [ {| Quantile := 0; Value := 2 |};
                                  {| Quantile := 1; Value := 10 |} ];
          sdp_Flags := 0 |} in
     let bare : SummaryDataPoint :=
       {| sdp_Attributes := [];
          sdp_StartTimeUnixNano := 900000000;
          sdp_TimeUnixNano := 1000000000;
          sdp_Count := 1;
          sdp_Sum := 1;
          sdp_QuantileValues := [];
          sdp_Flags := 0 |} in
     let request (metrics : list Metric) : metricsservicepb.ExportMetricsServiceRequest :=
       {| metricsservicepb.ResourceMetrics :=
            [ {| Resource :=
                   Some [ Some (commonpb.strKV "cloud.account.id" "123456789012");
                          Some (commonpb.strKV "cloud.region" "us-east-1") ];
                 ScopeMetrics_ :=
                   [ {| Scope := ""; Metrics := metrics; sm_SchemaUrl := "" |} ];
                 rm_SchemaUrl := "" |} ] |} in
     (∃ st', sample_enhance true [Sample.request]
             = Returns ([ request (gauges ++ [other]) ], st', None))
     ∧ (∃ st', sample_enhance false [Sample.request]
               = Returns
                   ([ request
                        [ {| Name := "aws_ec2_cpuutilization";
                             Description := ""; Unit := "";
                             Data := Metric_Summary [labelled] |};
                          other ] ], st', None))
     ∧ (∃ st', sample_enhance true [Sample.mixed]
               = Returns ([ request (gauges ++ [other]) ], st', None))
     ∧ (∃ st', sample_enhance false [Sample.mixed]
               = Returns
                   ([ request
                        [ {| Name := "aws_ec2_cpuutilization";
                             Description := "cpu"; Unit := "Percent";
                             Data := Metric_Summary [labelled; bare] |};
                          {| Name := "second"; Description := ""; Unit := "";
                             Data := Metric_Summary [bare] |};
                          other ] ], st', None))).
Proof.
  split; [|split; [|split]].
  - intros P G J T A cfg batch batch' st st' Hrun. by apply enhanceRequests_enriched.
  - intros P G J T A cfg accountID effectiveRegion dp st st' step Hstep.
    by apply enrichDataPoint_outcome.
  - intros P G J T A cfg reg batch st Hreg.
    destruct (enhanceRequests_returns cfg reg Hreg batch st) as [[[batch' st'] err] Hrun].
    exists batch', st', err. split; [exact Hrun|].
    intros Hc. by eapply enhanceRequests_no_error.
  - cbv zeta. repeat split; eexists; vm_compute; reflexivity.
Qed.

(** The first part at the request of the repository's test, in expansion
    mode. *)
Lemma enhanceRequests_metric_lists_witness :
  ∃ batch' st',
    visits (@request_enriched Sample.promutil Sample.gomodel Sample.json
              (Sample.client []) Sample.associators (Sample.settings true true))
      [Sample.request] Sample.filled batch' st'
    ∧ metric_names batch'
      = [ "aws_ec2_cpuutilization_sample_count"; "aws_ec2_cpuutilization_sum";
          "aws_ec2_cpuutilization_average"; "aws_ec2_cpuutilization_minimum";
          "aws_ec2_cpuutilization_maximum"; "other" ].
Proof.
  destruct enhanceRequests_metric_lists as (Hlists & _ & _ & Hclosed).
  cbv zeta in Hclosed. destruct Hclosed as ((st' & Hrun) & _).
  eexists _, st'. split; [exact (Hlists _ _ _ _ _ _ _ _ _ _ Hrun)|].
  reflexivity.
Defined.

End MetricLists.

Section Quiet.
Context `{!Promutil, !GoModel, !JSON, !Tagging, !Associators}.
Variable cfg : Settings.
Import metricspb.

Lemma quiet_refl (st : EnrichState) : quiet st st.
Proof. split; [auto|]. exists []. split; [by rewrite app_nil_r | constructor]. Qed.

Lemma quiet_trans (st1 st2 st3 : EnrichState) :
  quiet st1 st2 → quiet st2 st3 → quiet st1 st3.
Proof.
  intros [Hk1 (evs1 & Ht1 & He1)] [Hk2 (evs2 & Ht2 & He2)]. split; [auto|].
  exists (evs1 ++ evs2). split; [by rewrite Ht2, Ht1, app_assoc|].
  apply Forall_app. split; [exact He1|].
  eapply Forall_impl; [exact He2|]. intros ev Hev. cbn in Hev.
  destruct (resourceCache st1 !! event_namespace ev) as [rs|] eqn:Hrs; [|reflexivity].
  apply Hk1 in Hrs. congruence.
Qed.

(** Whatever the cache get does to the outside, it does for its namespace. *)
Lemma getOrCacheResources_trace (fileCachePath namespace : string)
    (region : option string) (d : Z) (cacheEnabled : bool) (w w' : World)
    (res : list model.TaggedResource + error) :
  getOrCacheResources fileCachePath namespace region d cacheEnabled w = Returns (res, w') →
  ∃ ev evs,
    trace w' = trace w ++ ev :: evs
    ∧ Forall (λ ev, event_namespace ev = namespace) (ev :: evs)
    ∧ (cacheEnabled = false → ∃ reg, ev = Fetch namespace reg).
Proof.
  assert (∀ w1 w2 res1,
            retrieveResources namespace region w1 = Returns (res1, w2) →
            ∃ reg, trace w2 = trace w1 ++ [Fetch namespace reg]) as Hfetch.
  { intros w1 w2 res1. unfold retrieveResources. destruct region as [reg|]; [|discriminate].
    destruct (GetResources _ _ _) as [resources [e|]];
      [destruct (negb _)|]; intros [= _ <-]; by exists reg. }
  unfold getOrCacheResources. destruct cacheEnabled; cbn [negb].
  - set (filePath := cachePath fileCachePath namespace).
    destruct (files w !! filePath) as [file|]; cbn -[retrieveResources].
    + destruct (_ <? _)%Z; cbn -[retrieveResources].
      * destruct (retrieveResources _ _ _) as [[[resources|e] w2]|] eqn:Hr; [| |discriminate];
          apply Hfetch in Hr as [reg Hr]; cbn in Hr.
        -- destruct (MarshalResources resources); intros [= <- <-]; cbn; rewrite Hr;
             rewrite <- ?app_assoc; cbn [app]; eexists _, _;
             (split; [reflexivity|]); (split; [repeat constructor | discriminate]).
        -- intros [= <- <-]. rewrite Hr, <- app_assoc. cbn [app]. eexists _, _.
           split; [reflexivity|]. split; [repeat constructor | discriminate].
      * destruct (UnmarshalResources _); intros [= <- <-]; cbn;
          rewrite <- app_assoc; cbn [app]; eexists _, _;
          (split; [reflexivity|]); (split; [repeat constructor | discriminate]).
    + destruct (retrieveResources _ _ _) as [[[resources|e] w2]|] eqn:Hr; [| |discriminate];
        apply Hfetch in Hr as [reg Hr]; cbn in Hr.
      * destruct (MarshalResources resources); intros [= <- <-]; cbn; rewrite Hr;
          rewrite <- ?app_assoc; cbn [app]; eexists _, _;
          (split; [reflexivity|]); (split; [repeat constructor | discriminate]).
      * intros [= <- <-]. rewrite Hr, <- app_assoc. cbn [app]. eexists _, _.
        split; [reflexivity|]. split; [repeat constructor | discriminate].
  - intros Hr. apply Hfetch in Hr as [reg Hr]. exists (Fetch namespace reg), [].
    split; [exact Hr|]. split; [repeat constructor | eauto].
Qed.

Lemma ensureResources_quiet (namespace : string) (st st' : EnrichState)
    (out : EnrichState + dp_step * EnrichState) :
  ensureResources cfg namespace st = Returns out →
  st' = match out with inl st' => st' | inr (_, st') => st' end →
  quiet st st'.
Proof.
  unfold ensureResources. intros Hrun ->.
  destruct (resourceCache st !! namespace) as [rs|] eqn:Hrs.
  { injection Hrun as <-. apply quiet_refl. }
  destruct (getOrCacheResources _ _ _ _ _ _) as [[res w]|] eqn:Hget; [|discriminate].
  apply getOrCacheResources_trace in Hget as (ev & evs & Htrace & Hns & _).
  assert (Forall (λ ev, resourceCache st !! event_namespace ev = None) (ev :: evs)) as Hevs.
  { eapply Forall_impl; [exact Hns|]. intros ev' Hev'. cbn in Hev'. by rewrite Hev'. }
  assert (∀ rs ns resources,
            resourceCache st !! ns = Some resources →
            <[namespace := rs]> (resourceCache st) !! ns = Some resources) as Hkeep.
  { intros rs ns resources Hns'. rewrite lookup_insert_ne; [exact Hns'|]. congruence. }
  destruct res as [resources|err].
  - injection Hrun as <-. split; cbn; [apply Hkeep | eauto].
  - destruct (negb _); [destruct (continueOnResourceFailure cfg)|];
      injection Hrun as <-; split; cbn; eauto.
Qed.

Lemma enrichDataPoint_quiet (accountID effectiveRegion : string)
    (dp : SummaryDataPoint) (st st' : EnrichState) (step : dp_step) :
  enrichDataPoint cfg accountID effectiveRegion dp st = Returns (step, st') →
  quiet st st'.
Proof.
  unfold enrichDataPoint.
  destruct (_ || _)%bool; [intros [= _ <-]; apply quiet_refl|].
  destruct (GetService _); [|intros [= _ <-]; apply quiet_refl].
  destruct (ensureResources _ _ _) as [[st1|[step1 st1]]|] eqn:He; [| |discriminate].
  - pose proof (ensureResources_quiet _ _ st1 _ He eq_refl) as Hq.
    destruct (associatorCache st1 !! _) as [asc|];
      destruct (AssociateMetricToResource _ _) as [r skip];
      intros [= _ <-]; (eapply quiet_trans; [exact Hq|]);
      (split; [auto|]); exists []; cbn; (split; [by rewrite app_nil_r | constructor]).
  - intros [= _ <-]. by eapply ensureResources_quiet.
Qed.

(** A loop is quiet when its body is. *)
Lemma for_each_quiet {A S : Type} (get : S → EnrichState)
    (body : A → S → outcome (A * S * option error)) :
  (∀ a s a' s' err, body a s = Returns (a', s', err) → quiet (get s) (get s')) →
  ∀ l s l' s' err, for_each body l s = Returns (l', s', err) → quiet (get s) (get s').
Proof.
  intros Hbody l. induction l as [|a l IH]; intros s l' s' err; cbn [for_each].
  - intros [= _ <- _]. apply quiet_refl.
  - destruct (body a s) as [[[a1 s1] [e|]]|] eqn:Ha; try discriminate.
    + intros [= _ <- _]. by eapply Hbody.
    + destruct (for_each body l s1) as [[[l1 s2] e]|] eqn:Hl; [|discriminate].
      intros [= _ <- _]. eapply quiet_trans; [by eapply Hbody | by eapply IH].
Qed.

Lemma dataPoint_body_quiet (accountID effectiveRegion : string)
    (dp dp' : SummaryDataPoint) (ls ls' : LoopState) (err : option error) :
  dataPoint_body cfg accountID effectiveRegion dp ls = Returns (dp', ls', err) →
  quiet (enrich ls) (enrich ls').
Proof.
  unfold dataPoint_body.
  destruct (enrichDataPoint _ _ _ _ _) as [[[| e | cwm labels] st1]|] eqn:He;
    try discriminate; apply enrichDataPoint_quiet in He;
    [| |destruct (yaceCompatMode cfg)]; by intros [= _ <- _].
Qed.

Lemma metric_body_quiet (accountID effectiveRegion : string)
    (metric metric' : Metric) (acc acc' : list Metric * EnrichState)
    (err : option error) :
  metric_body cfg accountID effectiveRegion metric acc = Returns (metric', acc', err) →
  quiet acc.2 acc'.2.
Proof.
  unfold metric_body. destruct (Data metric) as [ndps | dps | payload].
  - destruct (yaceCompatMode cfg); intros [= _ <- _]; apply quiet_refl.
  - destruct (for_each _ dps _) as [[[dps' ls] e]|] eqn:Hloop; [|discriminate].
    intros [= _ <- _]. cbn.
    apply (for_each_quiet enrich _
             (λ a s a' s' e, dataPoint_body_quiet accountID effectiveRegion a a' s s' e))
      in Hloop.
    exact Hloop.
  - destruct (yaceCompatMode cfg); intros [= _ <- _]; apply quiet_refl.
Qed.

Lemma scope_body_quiet (accountID effectiveRegion : string)
    (sm sm' : ScopeMetrics) (st st' : EnrichState) (err : option error) :
  scope_body cfg accountID effectiveRegion sm st = Returns (sm', st', err) →
  quiet st st'.
Proof.
  unfold scope_body.
  destruct (for_each _ (Metrics sm) _) as [[[ms [new st1]] [e|]]|] eqn:Hloop;
    try discriminate; intros [= _ <- _];
    apply (for_each_quiet snd _
             (λ a s a' s' e, metric_body_quiet accountID effectiveRegion a a' s s' e))
      in Hloop;
    exact Hloop.
Qed.

Lemma resource_body_quiet (rm rm' : ResourceMetrics) (st st' : EnrichState)
    (err : option error) :
  resource_body cfg rm st = Returns (rm', st', err) → quiet st st'.
Proof.
  unfold resource_body. destruct (extractResourceAttributes rm) as [a rr].
  destruct (for_each _ (ScopeMetrics_ rm) _) as [[[sms st1] e]|] eqn:Hloop;
    [|discriminate].
  intros [= _ <- _].
  match type of Hloop with for_each (scope_body cfg ?a ?r) _ _ = _ =>
    apply (for_each_quiet id _ (λ x s x' s' e, scope_body_quiet a r x x' s s' e))
      in Hloop end.
  exact Hloop.
Qed.

Lemma request_body_quiet
    (req req' : metricsservicepb.ExportMetricsServiceRequest)
    (st st' : EnrichState) (err : option error) :
  request_body cfg req st = Returns (req', st', err) → quiet st st'.
Proof.
  unfold request_body.
  destruct (for_each _ _ _) as [[[rms st1] e]|] eqn:Hloop; [|discriminate].
  intros [= _ <- _].
  apply (for_each_quiet id _ (λ x s x' s' e, resource_body_quiet x x' s s' e)) in Hloop.
  exact Hloop.
Qed.

End Quiet.

Section InMemoryMap.
Import metricspb.

Local Abbreviation sample_run script :=
  (@enhanceRequests Sample.promutil Sample.gomodel Sample.json (Sample.client script)
     Sample.associators (Sample.settings true true) [Sample.threePoints] Sample.fresh).

(** C10.  From any state on, [enhanceRequests] and each of its loops keep
    every entry of the in-memory map and touch the outside (cache file,
    tagging client) only for namespaces that have no entry; a data point
    whose namespace has one leaves files, client and trace as they are,
    whatever the clock says.  A fetch answered with "no resources found" is
    a success and its result is stored.  A cache get that fails is skipped
    under the continue-on-failure policy without an entry being stored, and
    a namespace without an entry is always asked for again. *)
Theorem enhanceRequests_in_memory_map :
  (∀ (P : Promutil) (G : GoModel) (J : JSON) (T : Tagging) (A : Associators)
     (cfg : Settings),
     (∀ batch st batch' st' err,
        enhanceRequests cfg batch st = Returns (batch', st', err) → quiet st st')
     ∧ (∀ rms st rms' st' err,
          for_each (resource_body cfg) rms st = Returns (rms', st', err) → quiet st st')
     ∧ (∀ a r sms st sms' st' err,
          for_each (scope_body cfg a r) sms st = Returns (sms', st', err) → quiet st st')
     ∧ (∀ a r ms acc ms' acc' err,
          for_each (metric_body cfg a r) ms acc = Returns (ms', acc', err) →
          quiet acc.2 acc'.2)
     ∧ (∀ a r dps ls dps' ls' err,
          for_each (dataPoint_body cfg a r) dps ls = Returns (dps', ls', err) →
          quiet (enrich ls) (enrich ls'))
     ∧ (∀ a r dp st step st' resources,
          resourceCache st
            !! model.Namespace (buildCloudWatchMetricFromKeyValues (sdp_Attributes dp))
          = Some resources →
          enrichDataPoint cfg a r dp st = Returns (step, st') →
          resourceCache st' = resourceCache st
          ∧ trace (world st') = trace (world st)
          ∧ calls (world st') = calls (world st)
          ∧ files (world st') = files (world st))
     ∧ (∀ namespace reg w resources,
          GetResources (calls w) namespace reg
          = (resources, Some ErrExpectedToFindResources) →
          ∃ w', retrieveResources namespace (Some reg) w = Returns (inl resources, w'))
     ∧ (∀ namespace st resources w',
          resourceCache st !! namespace = None →
          getOrCacheResources (fileCachePath cfg) namespace (region cfg)
            (fileCacheExpiration cfg) (fileCacheEnabled cfg) (world st)
          = Returns (inl resources, w') →
          ∃ st', ensureResources cfg namespace st = Returns (inl st')
                 ∧ resourceCache st' = <[namespace := resources]> (resourceCache st)
                 ∧ world st' = w')
     ∧ (∀ namespace st err w',
          resourceCache st !! namespace = None →
          continueOnResourceFailure cfg = true →
          err ≠ ErrExpectedToFindResources →
          getOrCacheResources (fileCachePath cfg) namespace (region cfg)
            (fileCacheExpiration cfg) (fileCacheEnabled cfg) (world st)
          = Returns (inr err, w') →
          ∃ st', ensureResources cfg namespace st = Returns (inr (dp_continue, st'))
                 ∧ resourceCache st' = resourceCache st
                 ∧ world st' = w')
     ∧ (∀ namespace st out,
          resourceCache st !! namespace = None →
          ensureResources cfg namespace st = Returns out →
          ∃ ev evs,
            trace (world (match out with inl st' => st' | inr (_, st') => st' end))
            = trace (world st) ++ ev :: evs
            ∧ event_namespace ev = namespace
            ∧ (fileCacheEnabled cfg = false → ∃ reg, ev = Fetch namespace reg)))
  ∧ (∃ batch' st',
       sample_run [([], Some (ErrTagging "throttled")); ([Sample.ec2Resource], None)]
       = Returns (batch', st', None)
       ∧ trace (world st')
         = [Fetch "AWS/EC2" "us-east-1"; Fetch "AWS/EC2" "us-east-1"]
       ∧ calls (world st') = 2%nat
       ∧ resourceCache st' !! "AWS/EC2" = Some [Sample.ec2Resource]).
Proof.
  split; [|eexists _, _; split; [vm_compute; reflexivity | repeat split]].
  intros P G J T A cfg.
  split; [|split; [|split; [|split; [|split; [|split; [|split; [|split; [|split]]]]]]]].
  - intros batch st batch' st' err Hrun.
    apply (for_each_quiet id _ (λ x s x' s' e, request_body_quiet cfg x x' s s' e)) in Hrun.
    exact Hrun.
  - intros rms st rms' st' err Hrun.
    apply (for_each_quiet id _ (λ x s x' s' e, resource_body_quiet cfg x x' s s' e)) in Hrun.
    exact Hrun.
  - intros a r sms st sms' st' err Hrun.
    apply (for_each_quiet id _ (λ x s x' s' e, scope_body_quiet cfg a r x x' s s' e)) in Hrun.
    exact Hrun.
  - intros a r ms acc ms' acc' err Hrun.
    apply (for_each_quiet snd _ (λ x s x' s' e, metric_body_quiet cfg a r x x' s s' e))
      in Hrun.
    exact Hrun.
  - intros a r dps ls dps' ls' err Hrun.
    apply (for_each_quiet enrich _ (λ x s x' s' e, dataPoint_body_quiet cfg a r x x' s s' e))
      in Hrun.
    exact Hrun.
  - intros a r dp st step st' resources Hin. unfold enrichDataPoint, ensureResources.
    destruct (_ || _)%bool; [by intros [= _ <-]|].
    destruct (GetService _); [|by intros [= _ <-]].
    rewrite Hin.
    destruct (associatorCache st !! _); destruct (AssociateMetricToResource _ _);
      by intros [= _ <-].
  - intros namespace reg w resources Hget. unfold retrieveResources. rewrite Hget.
    cbn. eauto.
  - intros namespace st resources w' Hmiss Hget. unfold ensureResources.
    rewrite Hmiss, Hget. eexists. split; [reflexivity|]. by split.
  - intros namespace st err w' Hmiss Hcont Herr Hget. unfold ensureResources.
    rewrite Hmiss, Hget, Hcont. rewrite bool_decide_eq_false_2 by exact Herr. cbn.
    eexists. split; [reflexivity|]. by split.
  - intros namespace st out Hmiss. unfold ensureResources. rewrite Hmiss.
    destruct (getOrCacheResources _ _ _ _ _ _) as [[res w']|] eqn:Hget; [|discriminate].
    apply getOrCacheResources_trace in Hget as (ev & evs & Htrace & Hns & Hfetch).
    assert (event_namespace ev = namespace) as Hev by (by inversion Hns).
    destruct res as [resources|err];
      [|destruct (negb _); [destruct (continueOnResourceFailure cfg)|]];
      intros [= <-]; cbn; eauto.
Qed.

(** The first part at the three data points of one namespace, from maps
    that already hold the namespace: nothing is done to the outside, though
    the client would have failed. *)
Lemma enhanceRequests_in_memory_map_witness :
  ∃ batch' st',
    @enhanceRequests Sample.promutil Sample.gomodel Sample.json (Sample.client [])
      Sample.associators (Sample.settings false false) [Sample.threePoints] Sample.filled
    = Returns (batch', st', None)
    ∧ quiet Sample.filled st'
    ∧ trace (world st') = [].
Proof.
  pose (run := @enhanceRequests Sample.promutil Sample.gomodel Sample.json
                 (Sample.client []) Sample.associators (Sample.settings false false)
                 [Sample.threePoints] Sample.filled).
  let r := eval vm_compute in run in
  match r with
  | Returns (?b, ?s, ?e) =>
      assert (run = Returns (b, s, e)) as Hrun by (vm_compute; reflexivity);
      exists b, s
  end.
  split; [exact Hrun|]. split; [|reflexivity].
  exact (proj1 (proj1 enhanceRequests_in_memory_map Sample.promutil Sample.gomodel
                  Sample.json (Sample.client []) Sample.associators
                  (Sample.settings false false)) _ _ _ _ _ Hrun).
Defined.

End InMemoryMap.

(* ===================================================================== *)
(** * Further properties: attribute helpers                                *)
(* ===================================================================== *)

Section AttributeHelpers.
Import commonpb.

(** X1.  [attrValue] is decided by the first non-nil attribute of the key:
    it returns that attribute's string value, the empty string when the
    value is nil or not a string, and does not look at later attributes of
    the same key.  Without such an attribute it returns the empty string. *)
Theorem attrValue_first_match :
  ∀ (key : string) (before after : list (option KeyValue)) (kv : KeyValue),
    Forall (λ a, has_key key a = false) before →
    GetKey kv = key →
    attrValue (before ++ Some kv :: after) key = string_of (Some kv)
    ∧ attrValue before key = "".
Proof.
  intros key before after kv Hbefore Hkey.
  induction Hbefore as [|a before Ha _ [IH1 IH2]]; cbn [app attrValue].
  - split; [|reflexivity]. rewrite Hkey, String.eqb_refl. reflexivity.
  - destruct a as [kv'|]; [|by split]. cbn [has_key] in Ha. rewrite Ha. by split.
Qed.

Lemma attrValue_first_match_witness :
  attrValue [ None; Some (strKV "Namespace" "AWS/EC2");
              Some (Build_KeyValue "Statistic" None);
              Some (strKV "Statistic" "Sum") ] "Statistic" = ""
  ∧ attrValue [None; Some (strKV "Namespace" "AWS/EC2")] "Statistic" = "".
Proof.
  apply (attrValue_first_match "Statistic"
           [None; Some (strKV "Namespace" "AWS/EC2")]
           [Some (strKV "Statistic" "Sum")] (Build_KeyValue "Statistic" None)).
  - repeat constructor.
  - reflexivity.
Defined.

Lemma last_value_snoc (key : string) (attrs : list (option KeyValue))
    (a : option KeyValue) :
  last_value key (attrs ++ [a])
  = if counts_for key a then string_of a else last_value key attrs.
Proof.
  unfold last_value. rewrite rev_app_distr. cbn [rev app List.find].
  destruct (counts_for key a); reflexivity.
Qed.

Lemma counts_for_Some (key : string) (kv : KeyValue) (v : AnyValue) :
  GetValue kv = Some v → counts_for key (Some kv) = String.eqb (GetKey kv) key.
Proof.
  intros Hv. cbn [counts_for]. rewrite Hv.
  rewrite bool_decide_eq_true_2 by eauto. apply andb_true_r.
Qed.

Lemma counts_for_nil_value (key : string) (kv : KeyValue) :
  GetValue kv = None → counts_for key (Some kv) = false.
Proof.
  intros Hv. cbn [counts_for]. rewrite Hv.
  rewrite bool_decide_eq_false_2 by (intros [? [=]]). apply andb_false_r.
Qed.

(** X2.  [extractResourceAttributes] gives the string value of the last
    [cloud.account.id] attribute and of the last [cloud.region] attribute
    that have a value; every other attribute, and a missing resource, leave
    both empty. *)
Theorem extractResourceAttributes_last_value :
  ∀ rm : metricspb.ResourceMetrics,
    extractResourceAttributes rm
    = match metricspb.Resource rm with
      | None => ("", "")
      | Some attrs =>
          (last_value "cloud.account.id" attrs, last_value "cloud.region" attrs)
      end.
Proof.
  intros rm. unfold extractResourceAttributes.
  destruct (metricspb.Resource rm) as [attrs|]; [|reflexivity].
  induction attrs as [|a attrs IH] using rev_ind; [reflexivity|].
  rewrite fold_left_app, IH, !last_value_snoc. cbn [fold_left].
  unfold extractResourceAttributes_step.
  destruct a as [kv|]; [|reflexivity].
  destruct (GetValue kv) as [v|] eqn:Hv.
  - rewrite !(counts_for_Some _ kv v Hv). cbn [string_of]. rewrite Hv.
    destruct (String.eqb (GetKey kv) "cloud.account.id") eqn:Ha.
    + apply String.eqb_eq in Ha. rewrite Ha. reflexivity.
    + destruct (String.eqb (GetKey kv) "cloud.region"); reflexivity.
  - rewrite !(counts_for_nil_value _ kv Hv).
    destruct (String.eqb (GetKey kv) "cloud.account.id");
      [|destruct (String.eqb (GetKey kv) "cloud.region")]; reflexivity.
Qed.

Lemma appendDimensions_app (dims : list model.Dimension)
    (kvs : list (option KeyValue)) :
  appendDimensions dims kvs
  = dims ++ omap (λ kv, match kv with
                        | Some kv =>
                            match GetValue kv with
                            | Some v =>
                                Some {| model.dim_Name := GetKey kv;
                                        model.dim_Value := GetStringValue v |}
                            | None => None
                            end
                        | None => None
                        end) kvs.
Proof.
  unfold appendDimensions. revert dims.
  induction kvs as [|kv kvs IH]; intros dims; cbn [fold_left omap list_omap].
  - by rewrite app_nil_r.
  - rewrite IH. destruct kv as [kv|]; [|reflexivity].
    destruct (GetValue kv); [|reflexivity]. by rewrite <- app_assoc.
Qed.

Lemma descriptor_scans :
  ∀ attrs : list (option KeyValue),
    buildCloudWatchMetricFromKeyValues attrs
    = {| model.Namespace := last_value "Namespace" attrs;
         model.MetricName := last_value "MetricName" attrs;
         model.Dimensions := attrs ≫= dimensions_of |}.
Proof.
  intros attrs. unfold buildCloudWatchMetricFromKeyValues.
  induction attrs as [|a attrs IH] using rev_ind; [reflexivity|].
  rewrite fold_left_app, IH, !last_value_snoc, bind_app. cbn [fold_left].
  unfold buildCloudWatchMetric_step. cbn [mbind list_bind]. rewrite app_nil_r.
  destruct a as [kv|]; cbn [dimensions_of]; [|by rewrite app_nil_r].
  destruct (GetValue kv) as [v|] eqn:Hv.
  - rewrite !(counts_for_Some _ kv v Hv). cbn [string_of]. rewrite Hv.
    cbn [model.Namespace model.MetricName model.Dimensions].
    destruct (String.eqb (GetKey kv) "MetricName") eqn:Hm.
    + apply String.eqb_eq in Hm. rewrite Hm. cbn. by rewrite app_nil_r.
    + destruct (String.eqb (GetKey kv) "Namespace") eqn:Hn.
      * apply String.eqb_eq in Hn. rewrite Hn. cbn. by rewrite app_nil_r.
      * destruct (String.eqb (GetKey kv) "Dimensions");
          [|by rewrite app_nil_r].
        destruct (GetKvlistValue v) as [kvs|]; [|by rewrite app_nil_r].
        by rewrite appendDimensions_app.
  - rewrite !(counts_for_nil_value _ kv Hv).
    destruct (String.eqb (GetKey kv) "Dimensions"); by rewrite app_nil_r.
Qed.

(** X3.  The descriptor of a data point is made of three independent scans
    of its attributes: the namespace and the metric name are the string
    values of the last [Namespace] and [MetricName] attributes that have a
    value, and the dimensions are those of all [Dimensions] attributes, in
    order.  Attributes of any other key, nil attributes and attributes
    without a value do not matter. *)
Theorem buildCloudWatchMetricFromKeyValues_scans :
  ∀ attrs : list (option KeyValue),
    buildCloudWatchMetricFromKeyValues attrs
    = {| model.Namespace := last_value "Namespace" attrs;
         model.MetricName := last_value "MetricName" attrs;
         model.Dimensions := attrs ≫= dimensions_of |}.
Proof. exact descriptor_scans. Qed.

Lemma last_value_filter (key : string) (attrs : list (option KeyValue)) :
  last_value key attrs = last_value key (filter (λ a, counts_for key a = true) attrs).
Proof.
  induction attrs as [|a attrs IH] using rev_ind; [reflexivity|].
  rewrite filter_app, last_value_snoc.
  destruct (counts_for key a) eqn:Ha.
  - rewrite filter_cons_True by exact Ha. rewrite filter_nil, last_value_snoc, Ha.
    reflexivity.
  - rewrite filter_cons_False by congruence. rewrite filter_nil, app_nil_r. exact IH.
Qed.

Lemma dimensions_of_filter (attrs : list (option KeyValue)) :
  attrs ≫= dimensions_of
  = filter (λ a, counts_for "Dimensions" a = true) attrs ≫= dimensions_of.
Proof.
  induction attrs as [|a attrs IH]; [reflexivity|].
  cbn [mbind list_bind]. destruct (counts_for "Dimensions" a) eqn:Ha.
  - rewrite filter_cons_True by exact Ha. cbn [mbind list_bind]. by f_equal.
  - rewrite filter_cons_False by congruence.
    assert (dimensions_of a = []) as ->; [|exact IH].
    destruct a as [kv|]; [|reflexivity]. cbn [counts_for dimensions_of] in *.
    destruct (String.eqb (GetKey kv) "Dimensions"); [|reflexivity].
    destruct (GetValue kv); [|reflexivity].
    rewrite bool_decide_eq_true_2 in Ha by eauto. discriminate.
Qed.

Lemma short_Permutation_eq {A : Type} (l l' : list A) :
  (length l <= 1)%nat → l ≡ₚ l' → l = l'.
Proof.
  intros Hlen Hperm. destruct l as [|x [|y l]]; cbn [length] in Hlen; [| |lia].
  - by apply Permutation_nil_l in Hperm.
  - by apply Permutation_singleton_l in Hperm.
Qed.

(** X4.  When each of [Namespace], [MetricName] and [Dimensions] has at
    most one attribute with a value, the order of the attributes does not
    matter to the descriptor. *)
Theorem buildCloudWatchMetricFromKeyValues_order :
  ∀ attrs attrs' : list (option KeyValue),
    attrs ≡ₚ attrs' →
    (∀ key, key ∈ ["Namespace"; "MetricName"; "Dimensions"] →
            (length (filter (λ a, counts_for key a = true) attrs) <= 1)%nat) →
    buildCloudWatchMetricFromKeyValues attrs
    = buildCloudWatchMetricFromKeyValues attrs'.
Proof.
  intros attrs attrs' Hperm Hone.
  assert (∀ key, key ∈ ["Namespace"; "MetricName"; "Dimensions"] →
                 filter (λ a, counts_for key a = true) attrs
                 = filter (λ a, counts_for key a = true) attrs') as Hfilter.
  { intros key Hkey. apply short_Permutation_eq; [by apply Hone|]. by rewrite Hperm. }
  rewrite !descriptor_scans.
  rewrite (last_value_filter "Namespace" attrs), (last_value_filter "Namespace" attrs').
  rewrite (last_value_filter "MetricName" attrs), (last_value_filter "MetricName" attrs').
  rewrite (dimensions_of_filter attrs), (dimensions_of_filter attrs').
  rewrite !Hfilter by set_solver. reflexivity.
Qed.

(** The attributes of the repository's test, in another order and with an
    attribute of another key among them. *)
Lemma buildCloudWatchMetricFromKeyValues_order_witness :
  buildCloudWatchMetricFromKeyValues
    (Some (strKV "Other" "x") :: Sample.ec2InputAttrsOTLP10 "i-1")
  = buildCloudWatchMetricFromKeyValues
      (rev (Some (strKV "Other" "x") :: Sample.ec2InputAttrsOTLP10 "i-1")).
Proof.
  apply buildCloudWatchMetricFromKeyValues_order.
  - apply Permutation_rev.
  - intros key Hkey. repeat (apply elem_of_cons in Hkey as [->|Hkey]);
      [vm_compute; lia .. | by apply elem_of_nil in Hkey].
Defined.

End AttributeHelpers.

(* ===================================================================== *)
(** * Further properties: configuration parsers                            *)
(* ===================================================================== *)

Section StatisticSelection.
Context `{!JSON}.

Lemma enabled_fold_insert (stats : list string) (acc : gmap string bool) (s : string) :
  enabled (fold_left (λ enabled s, <[s := true]> enabled) stats acc) s = true
  ↔ s ∈ stats ∨ enabled acc s = true.
Proof.
  revert acc. induction stats as [|x stats IH]; intros acc; cbn [fold_left].
  - rewrite elem_of_nil. tauto.
  - rewrite IH, elem_of_cons. unfold enabled.
    destruct (decide (x = s)) as [->|Hne].
    + rewrite lookup_insert_eq. cbn. tauto.
    + rewrite lookup_insert_ne by exact Hne. split; [tauto|].
      intros [[?|?]|?]; [congruence | tauto | tauto].
Qed.

(** X5.  The statistic selection: an unset variable enables exactly the
    five default statistics.  Any other value goes to the JSON decoder: when
    it decodes as a list of strings, exactly the listed names are enabled,
    so the array [[]] enables none, and neither does the document [null],
    which the decoder takes for the empty list; when the decoder returns an
    error, as on malformed JSON or on a document of another type, the
    error is returned and nothing is enabled. *)
Theorem parseYACEStats_enabled :
  (∀ env : string,
     let '(stats, err) := parseYACEStats env in
     if String.eqb env "" then
       err = None ∧ ∀ s, enabled stats s = true ↔ s ∈ defaultYACEStats
     else
       match UnmarshalStrings env with
       | Some names => err = None ∧ ∀ s, enabled stats s = true ↔ s ∈ names
       | None => err = Some ErrUnmarshal ∧ ∀ s, enabled stats s = false
       end)
  ∧ @parseYACEStats Sample.json "null" = (∅, None)
  ∧ @parseYACEStats Sample.json "[]" = (∅, None)
  ∧ @parseYACEStats Sample.json ("[" +:+ Sample.quoted "p99" +:+ "]")
    = ({[ "p99" := true ]}, None)
  ∧ @parseYACEStats Sample.json "Sum,Average" = (∅, Some ErrUnmarshal)
  ∧ @parseYACEStats Sample.json (Sample.quoted "Sum") = (∅, Some ErrUnmarshal)
  ∧ @parseYACEStats Sample.json "{}" = (∅, Some ErrUnmarshal).
Proof.
  split; [|repeat split; vm_compute; reflexivity].
  intros env. unfold parseYACEStats. destruct (String.eqb env "").
  - split; [reflexivity|]. intros s. rewrite enabled_fold_insert.
    unfold enabled. rewrite lookup_empty. cbn. split; [intros [?|?]|]; auto; discriminate.
  - destruct (UnmarshalStrings env) as [names|].
    + split; [reflexivity|]. intros s. rewrite enabled_fold_insert.
      unfold enabled. rewrite lookup_empty. cbn.
      split; [intros [?|?]|]; auto; discriminate.
    + split; [reflexivity|]. intros s. unfold enabled. by rewrite lookup_empty.
Qed.

(** When the loop of [parseStaticLabels] meets a bad entry, the labels
    before it are in the map that comes back with the error. *)
Lemma parseStaticLabels_loop_partial
    (good : list string) (bad : string) (rest : list string)
    (acc : gmap string string) :
  Forall (λ l, strings.Contains l "=" = true) good →
  strings.Contains bad "=" = false →
  ∃ e, parseStaticLabels_loop (good ++ bad :: rest) acc
       = Returns (fold_left (λ m l, <[(key_value l).1 := (key_value l).2]> m) good acc,
                  Some e).
Proof.
  intros Hgood Hbad. revert acc.
  induction Hgood as [|l good Hl _ IH]; intros acc; cbn [app fold_left].
  - cbn [parseStaticLabels_loop]. destruct (String.eqb bad ""); [eauto|].
    rewrite Hbad. cbn. eauto.
  - cbn [parseStaticLabels_loop].
    unfold strings.Contains in Hl.
    destruct (strings.Index l "=") as [m|] eqn:Hi; [|discriminate].
    assert (String.eqb l "" = false) as ->.
    { apply String.eqb_neq. intros ->. simpl in Hi. discriminate. }
    unfold strings.Contains at 1. rewrite Hi. cbn [negb].
    rewrite (Split_head _ _ _ Hi), (SplitN2_second _ _ _ Hi).
    destruct (IH (<[strings.take m l := strings.drop (S m) l]> acc)) as [e He].
    exists e. rewrite He. unfold key_value. rewrite Hi. reflexivity.
Qed.

(** X6.  A bad entry does not undo the entries before it: the parser
    returns, next to the error, the map of the labels that precede the
    first entry without an ['='], and nothing of what follows it. *)
Theorem parseStaticLabels_partial_map :
  ∀ (env : string) (good : list string) (bad : string) (rest : list string),
    env ≠ "" →
    UnmarshalStrings env = Some (good ++ bad :: rest) →
    Forall (λ l, strings.Contains l "=" = true) good →
    strings.Contains bad "=" = false →
    ∃ e, parseStaticLabels env
         = Returns (list_to_map (reverse (key_value <$> good)), Some e).
Proof.
  intros env good bad rest Henv Hjson Hgood Hbad. unfold parseStaticLabels.
  apply String.eqb_neq in Henv. rewrite Henv, Hjson.
  destruct (parseStaticLabels_loop_partial good bad rest ∅ Hgood Hbad) as [e He].
  exists e. rewrite He. do 2 f_equal.
  transitivity (fold_left (λ (m : gmap string string) kv, <[kv.1 := kv.2]> m)
                  (key_value <$> good) ∅).
  - clear. generalize (∅ : gmap string string).
    induction good as [|l ls IH]; intros acc; [reflexivity|]. simpl. apply IH.
  - rewrite fold_insert_list_to_map. apply (right_id_L ∅ (∪)).
Qed.

End StatisticSelection.

Section StatisticSelectionWitness.

Lemma parseStaticLabels_partial_map_witness :
  ∃ e, @parseStaticLabels Sample.json
         ("[" +:+ Sample.quoted "env=prod" +:+ "," +:+ Sample.quoted "team"
              +:+ "," +:+ Sample.quoted "tier=web" +:+ "]")
       = Returns ({[ "env" := "prod" ]}, Some e).
Proof.
  destruct (@parseStaticLabels_partial_map Sample.json
              ("[" +:+ Sample.quoted "env=prod" +:+ "," +:+ Sample.quoted "team"
                   +:+ "," +:+ Sample.quoted "tier=web" +:+ "]")
              ["env=prod"] "team" ["tier=web"]
              ltac:(discriminate) ltac:(vm_compute; reflexivity)
              ltac:(repeat constructor) ltac:(vm_compute; reflexivity)) as [e He].
  exists e. rewrite He. reflexivity.
Defined.

End StatisticSelectionWitness.

(* ===================================================================== *)
(** * Further properties: the statistic expander                           *)
(* ===================================================================== *)

Section GaugeShape.
Context `{!Promutil}.
Import metricspb.

(** X7.  The gauges of a data point are one per statistic that is both
    available and enabled, in the order count, sum, average, quantiles.
    Each is a metric named after its statistic by [BuildMetricName], with no
    description and no unit, whose data is a gauge with a single data point:
    the attributes handed in, the two time stamps of the summary data point,
    and the value of the statistic as a double. *)
Theorem summaryToGauges_shape :
  ∀ (cwm : model.Metric) (dp : SummaryDataPoint)
    (attrs : list commonpb.KeyValue) (enabledStats : gmap string bool),
    summaryToGauges cwm dp attrs enabledStats
    = (λ sv : string * float,
         {| Name := BuildMetricName (model.Namespace cwm) (model.MetricName cwm) sv.1;
            Description := "";
            Unit := "";
            Data :=
              Metric_Gauge
                [ {| ndp_Attributes := Some <$> attrs;
                     ndp_StartTimeUnixNano := sdp_StartTimeUnixNano dp;
                     ndp_TimeUnixNano := sdp_TimeUnixNano dp;
                     ndp_Value := Some (NumberDataPoint_AsDouble sv.2) |} ] |})
        <$> filter (λ sv, enabled enabledStats sv.1 = true) (available_values dp).
Proof.
  intros cwm dp attrs enabledStats. apply summaryToGauges_values.
Qed.

End GaugeShape.

(* ===================================================================== *)
(** * Further properties: the wire codec                                   *)
(* ===================================================================== *)

Section CodecComposition.
Context {Msg : Type} `{!Proto Msg}.

Lemma requestsIntoRawData_loop_frames (reqs : list Msg) (b : list byte) :
  requestsIntoRawData_loop b reqs
  = match mapM Marshal reqs with
    | Some bodies => (b ++ concat (frame <$> bodies), None)
    | None => ([], Some ErrMarshal)
    end.
Proof.
  revert b. induction reqs as [|r reqs IH]; intros b; cbn [requestsIntoRawData_loop mapM].
  - cbn. by rewrite app_nil_r.
  - unfold pbutil.WriteDelimited. destruct (Marshal r) as [body|]; cbn; [|reflexivity].
    rewrite IH. destruct (mapM Marshal reqs) as [bodies|]; cbn; [|reflexivity].
    fold (frame body). by rewrite <- app_assoc.
Qed.

(** X8.  The encoder is all or nothing: when every request marshals, the
    output is the frames of the requests one after the other and in their
    order, each the length of the body as a varint and the body; when one
    does not, the output is empty and the frames already written are given
    up with it. *)
Theorem requestsIntoRawData_frames :
  ∀ reqs : list Msg,
    requestsIntoRawData reqs
    = match mapM Marshal reqs with
      | Some bodies => (concat (frame <$> bodies), None)
      | None => ([], Some ErrMarshal)
      end.
Proof. intros reqs. apply (requestsIntoRawData_loop_frames reqs []). Qed.

Lemma canonical_reads_app (x : list byte) (msgs : list Msg) (y : list byte) :
  canonical x msgs → reads (x ++ y) msgs y.
Proof.
  induction 1 as [|body x m msgs Hu Hm Hlen _ IH]; [constructor|].
  rewrite <- app_assoc. apply (reads_more _ (x ++ y)); [|exact IH].
  by apply ReadDelimited_canonical_frame.
Qed.

Lemma reads_app (r r' r'' : list byte) (msgs msgs' : list Msg) :
  reads r msgs r' → reads r' msgs' r'' → reads r (msgs ++ msgs') r''.
Proof.
  induction 1 as [|r r1 r2 m msgs Hread _ IH]; intros Hrest; [exact Hrest|].
  cbn [app]. apply (reads_more _ r1); [exact Hread | by apply IH].
Qed.

Lemma rawDataIntoRequests_of_reads
    (input : list byte) (msgs : list Msg) (rest : list byte) (stop : option error) :
  reads input msgs rest →
  pbutil.ReadDelimited rest = inr <$> stop →
  rawDataIntoRequests input
  = (λ err, if errors_Is_EOF err then (msgs, None) else ([], Some err)) <$> stop.
Proof.
  intros Hreads Hstop. unfold rawDataIntoRequests.
  rewrite (rawDataIntoRequests_loop_reads _ [] input msgs rest stop Hreads Hstop);
    [reflexivity | lia].
Qed.

(** X9.  Decoding composes over concatenation.  After a buffer of frames in
    the encoder's form, the decoder goes on with what follows: the messages
    of the frames come first, then those of the rest; and a fatal error in
    the rest is the result for the whole, with no messages. *)
Theorem rawDataIntoRequests_app :
  ∀ (x : list byte) (batch : list Msg) (y : list byte),
    canonical x batch →
    rawDataIntoRequests (x ++ y)
    = match rawDataIntoRequests y with
      | Some (msgs, None) => Some (batch ++ msgs, None)
      | other => other
      end.
Proof.
  intros x batch y Hx.
  destruct (reads_to_failure y) as (msgs & rest & stop & Hreads & Hstop).
  rewrite (rawDataIntoRequests_of_reads y msgs rest stop Hreads Hstop).
  rewrite (rawDataIntoRequests_of_reads (x ++ y) (batch ++ msgs) rest stop);
    [| by apply (reads_app _ y), Hreads; apply canonical_reads_app | exact Hstop].
  destruct stop as [err|]; [|reflexivity]. cbn. by destruct (errors_Is_EOF err).
Qed.

Lemma reads_length (input : list byte) (msgs : list Msg) (rest : list byte) :
  reads input msgs rest → (length msgs + length rest <= length input)%nat.
Proof.
  induction 1 as [|r r' r'' m msgs Hread _ IH]; cbn [length]; [lia|].
  apply ReadDelimited_shorter in Hread. lia.
Qed.

(** With every message buffer granted, the decoder returns. *)
Lemma rawDataIntoRequests_total (input : list byte) :
  (∀ n, makeslice n = true) →
  ∃ requests err, rawDataIntoRequests input = Some (requests, err).
Proof.
  intros Hgrant.
  destruct (reads_to_failure input) as (msgs & rest & stop & Hreads & Hstop).
  rewrite (rawDataIntoRequests_of_reads input msgs rest stop Hreads Hstop).
  destruct stop as [err|]; cbn.
  - destruct (errors_Is_EOF err); eauto.
  - apply ReadDelimited_failure_shape in Hstop as (hdr & body & _ & _ & _ & Hno).
    rewrite Hgrant in Hno. discriminate.
Qed.

(** X10.  When the decoder returns, it hands back records or an error,
    never both, and the error is never [io.EOF].  The one way in which it
    does not return is the death of the process over the buffer of a
    message: after a run of well-formed records comes a length prefix that
    announces more bytes than follow it and more than the runtime
    allocates.  Where the runtime grants every such buffer, the decoder
    returns on every input. *)
Theorem rawDataIntoRequests_records_or_error :
  ∀ input : list byte,
    match rawDataIntoRequests input with
    | Some (requests, Some e) => requests = [] ∧ errors_Is_EOF e = false
    | Some (requests, None) => (length requests <= length input)%nat
    | None => ∃ msgs rest, reads input msgs rest ∧ refused rest
    end
    ∧ ((∃ msgs rest, reads input msgs rest ∧ refused rest) →
       rawDataIntoRequests input = None)
    ∧ ((∀ n, makeslice n = true) →
       ∃ requests err, rawDataIntoRequests input = Some (requests, err)).
Proof.
  intros input. split; [|split].
  - destruct (reads_to_failure input) as (msgs & rest & stop & Hreads & Hstop).
    rewrite (rawDataIntoRequests_of_reads input msgs rest stop Hreads Hstop).
    destruct stop as [err|]; cbn.
    + destruct (errors_Is_EOF err) eqn:He; [|by split].
      pose proof (reads_length _ _ _ Hreads). lia.
    + exists msgs, rest. split; [exact Hreads|].
      by apply (ReadDelimited_failure_shape rest None).
  - intros (msgs & rest & Hreads & Hrefused).
    apply (rawDataIntoRequests_of_reads input msgs rest None Hreads).
    by apply ReadDelimited_refused.
  - apply rawDataIntoRequests_total.
Qed.

End CodecComposition.

Section CodecCompositionWitness.

Lemma rawDataIntoRequests_app_witness :
  @rawDataIntoRequests _ Sample.proto ([x02; x08; x01; x00] ++ [x01; x0a; x03; x01])
  = match @rawDataIntoRequests _ Sample.proto [x01; x0a; x03; x01] with
    | Some (msgs, None) => Some ([[x08; x01]; []] ++ msgs, None)
    | other => other
    end.
Proof.
  apply (@rawDataIntoRequests_app _ Sample.proto [x02; x08; x01; x00] [[x08; x01]; []]).
  apply (canonical_cons [x08; x01] [x00] [x08; x01] [[]]);
    [reflexivity | reflexivity | vm_compute; reflexivity |].
  apply (canonical_cons [] [] [] []);
    [reflexivity | reflexivity | vm_compute; reflexivity | constructor].
Defined.

(** A record, then a length prefix that announces 2^35 - 1 bytes and is
    followed by none: under a runtime that allocates up to 1 MiB for a
    message the decoder does not return; under one that grants every buffer
    it does. *)
Lemma rawDataIntoRequests_records_or_error_witness :
  @rawDataIntoRequests _ Sample.wire [x02; x0a; x00; xff; xff; xff; xff; x7f] = None
  ∧ ∃ requests err,
      @rawDataIntoRequests _ Sample.proto [x02; x0a; x00; xff; xff; xff; xff; x7f]
      = Some (requests, err).
Proof.
  split.
  - destruct (@rawDataIntoRequests_records_or_error _ Sample.wire
                [x02; x0a; x00; xff; xff; xff; xff; x7f]) as (_ & Hdead & _).
    apply Hdead. clear Hdead.
    exists [[x0a; x00]], [xff; xff; xff; xff; x7f]. split.
    + apply (reads_more _ [xff; xff; xff; xff; x7f]);
        [vm_compute; reflexivity | constructor].
    + exists [xff; xff; xff; xff; x7f], [].
      split; [reflexivity|]. split.
      { exists [xff; xff; xff; xff], x7f.
        repeat split; [repeat constructor | unfold binary.MaxVarintLen32; simpl; lia]. }
      change (varint_value [xff; xff; xff; xff; x7f]) with 34359738367%N.
      split; [cbn [length]; lia|].
      change (((N.of_nat (N.to_nat 34359738367) <=? 1048576)%N) = false).
      rewrite N2Nat.id. reflexivity.
  - destruct (@rawDataIntoRequests_records_or_error _ Sample.proto
                [x02; x0a; x00; xff; xff; xff; xff; x7f]) as (_ & _ & Hreturns).
    apply Hreturns. clear Hreturns.
    intros n. reflexivity.
Defined.

End CodecCompositionWitness.

(* ===================================================================== *)
(** * Further properties: the resource tag cache                           *)
(* ===================================================================== *)

Section CacheFiles.
Context `{!JSON}.

(** What a successful call leaves in the file of the namespace. *)
Lemma getOrCacheResources_leaves_file `{!Tagging}
    (fileCachePath namespace : string) (region : option string) (d : Z)
    (w w' : World) (resources : list model.TaggedResource) :
  getOrCacheResources fileCachePath namespace region d true w
  = Returns (inl resources, w') →
  ∃ file,
    files w' !! cachePath fileCachePath namespace = Some file
    ∧ (UnmarshalResources (data file) = Some resources
       ∨ MarshalResources resources = Some (data file)).
Proof.
  unfold getOrCacheResources. cbn [negb].
  set (filePath := cachePath fileCachePath namespace).
  assert (∀ w0 : World,
            match retrieveResources namespace region w0 with
            | Panics => Panics
            | Returns (inr err, w) => Returns (inr err, w)
            | Returns (inl resources, w) =>
                match MarshalResources resources with
                | None => Returns (inr ErrMarshal, w)
                | Some b =>
                    Returns (inl resources,
                             log_event (CacheWrite namespace filePath)
                               (write_file filePath b w))
                end
            end = Returns (inl resources, w') →
            ∃ file, files w' !! filePath = Some file
                    ∧ (UnmarshalResources (data file) = Some resources
                       ∨ MarshalResources resources = Some (data file))) as Hrefresh.
  { intros w0. destruct (retrieveResources namespace region w0) as [[[rs|e] w1]|];
      try discriminate.
    destruct (MarshalResources rs) as [b|] eqn:Hb; [|discriminate].
    intros [= <- <-]. eexists. split.
    - unfold log_event, write_file, time_Now. cbn. apply lookup_insert_eq.
    - right. exact Hb. }
  destruct (files w !! filePath) as [file|] eqn:Hfile.
  - cbn [time_Now]. destruct (modTime file + d <? _)%Z; cbn [orb bool_decide].
    + rewrite bool_decide_eq_false_2 by discriminate. cbn [orb]. apply Hrefresh.
    + rewrite bool_decide_eq_false_2 by discriminate. cbn [orb].
      destruct (UnmarshalResources (data file)) as [rs|] eqn:Hu; [|discriminate].
      intros [= <- <-]. exists file. split; [exact Hfile | by left].
  - rewrite bool_decide_eq_true_2 by reflexivity. cbn [orb]. apply Hrefresh.
Qed.

(** X11.  What the cache hands out it hands out again.  After a call that
    returned resources, the file of the namespace holds them: as long as the
    file is as the call left it and has not expired, every later call, with
    any client and from any state of the rest of the world, returns the same
    resources without a fetch and leaves the files alone.  This needs the
    JSON of the resources to parse back to them. *)
Theorem getOrCacheResources_read_back :
  ∀ (T : Tagging) (fileCachePath namespace : string) (region : option string)
    (d : Z) (w w' : World) (resources : list model.TaggedResource),
    getOrCacheResources fileCachePath namespace region d true w
    = Returns (inl resources, w') →
    (∀ b, MarshalResources resources = Some b → UnmarshalResources b = Some resources) →
    ∃ file,
      files w' !! cachePath fileCachePath namespace = Some file
      ∧ ∀ (T' : Tagging) (region' : option string) (w1 : World),
          files w1 !! cachePath fileCachePath namespace = Some file →
          (clock w1 (ticks w1) <= modTime file + d)%Z →
          ∃ w2,
            @getOrCacheResources _ T' fileCachePath namespace region' d true w1
            = Returns (inl resources, w2)
            ∧ calls w2 = calls w1 ∧ files w2 = files w1.
Proof.
  intros T fileCachePath namespace region d w w' resources Hrun Hjson.
  destruct (getOrCacheResources_leaves_file _ _ _ _ _ _ _ Hrun) as (file & Hfile & Hdata).
  exists file. split; [exact Hfile|]. intros T' region' w1 Hfile1 Hfresh.
  rewrite (@getOrCacheResources_fresh _ T' fileCachePath namespace region' d w1 file
             Hfile1 Hfresh).
  assert (UnmarshalResources (data file) = Some resources) as ->
    by (destruct Hdata as [?|Hm]; [assumption | by apply Hjson]).
  eexists. split; [reflexivity|]. by split.
Qed.

Lemma getOrCacheResources_touches :
  ∀ (T : Tagging) (fileCachePath namespace : string) (region : option string)
    (d : Z) (cacheEnabled : bool) (w w' : World)
    (res : list model.TaggedResource + error),
    getOrCacheResources fileCachePath namespace region d cacheEnabled w
    = Returns (res, w') →
    (∀ path, path ≠ cachePath fileCachePath namespace →
             files w' !! path = files w !! path)
    ∧ (cacheEnabled = false ∨ (∃ err, res = inr err) ∨ calls w' = calls w →
       files w' = files w).
Proof.
  intros T fileCachePath namespace region d cacheEnabled w w' res.
  unfold getOrCacheResources.
  set (filePath := cachePath fileCachePath namespace).
  assert (∀ w0 : World,
            retrieveResources namespace region w0 = Returns (res, w') →
            files w' = files w0) as Hfetch.
  { intros w0. unfold retrieveResources. destruct region as [reg|]; [|discriminate].
    destruct (GetResources (calls w0) namespace reg) as [rs [e|]];
      [destruct (negb _)|]; by intros [= _ <-]. }
  assert (∀ w0 : World,
            files w0 = files w →
            match retrieveResources namespace region w0 with
            | Panics => Panics
            | Returns (inr err, w) => Returns (inr err, w)
            | Returns (inl resources, w) =>
                match MarshalResources resources with
                | None => Returns (inr ErrMarshal, w)
                | Some b =>
                    Returns (inl resources,
                             log_event (CacheWrite namespace filePath)
                               (write_file filePath b w))
                end
            end = Returns (res, w') →
            calls w' = S (calls w0)
            ∧ (∀ path, path ≠ filePath → files w' !! path = files w !! path)
            ∧ ((∃ err, res = inr err) → files w' = files w)) as Hrefresh.
  { intros w0 Hw0. unfold retrieveResources. destruct region as [reg|]; [|discriminate].
    destruct (GetResources (calls w0) namespace reg) as [rs [e|]].
    - destruct (negb _).
      + intros [= <- <-]. cbn. rewrite Hw0. by repeat split.
      + destruct (MarshalResources rs) as [b|]; intros [= <- <-]; cbn.
        * split; [reflexivity|]. split; [|by intros [? ?]].
          intros path Hne. rewrite lookup_insert_ne by congruence. by rewrite Hw0.
        * rewrite Hw0. by repeat split.
    - destruct (MarshalResources rs) as [b|]; intros [= <- <-]; cbn.
      + split; [reflexivity|]. split; [|by intros [? ?]].
        intros path Hne. rewrite lookup_insert_ne by congruence. by rewrite Hw0.
      + rewrite Hw0. by repeat split. }
  destruct cacheEnabled; cbn [negb].
  - destruct (files w !! filePath) as [file|] eqn:Hfile.
    + cbn [time_Now]. rewrite bool_decide_eq_false_2 by discriminate. cbn [orb].
      destruct (modTime file + d <? _)%Z.
      * intros Hrun. apply Hrefresh in Hrun as (Hcalls & Hother & Herr); [|reflexivity].
        split; [exact Hother|]. cbn in Hcalls.
        intros [?|[?|?]]; [discriminate | by apply Herr | lia].
      * destruct (UnmarshalResources (data file)); intros [= <- <-]; by split.
    + rewrite bool_decide_eq_true_2 by reflexivity. cbn [orb].
      intros Hrun. apply Hrefresh in Hrun as (Hcalls & Hother & Herr); [|reflexivity].
      split; [exact Hother|]. cbn in Hcalls.
      intros [?|[?|?]]; [discriminate | by apply Herr | lia].
  - intros Hrun. apply Hfetch in Hrun. rewrite Hrun. by split.
Qed.

(** X12.  The only file a call can change is the cache file of its
    namespace, and it writes nothing before it has resources to write: with
    the cache switched off, when no fetch was made, when the client
    answers with an error other than [ErrExpectedToFindResources], or when
    the resources do not marshal, the files are as they were. *)
Theorem getOrCacheResources_files :
  ∀ (T : Tagging) (fileCachePath namespace : string) (region : option string)
    (d : Z) (cacheEnabled : bool) (w w' : World)
    (res : list model.TaggedResource + error),
    getOrCacheResources fileCachePath namespace region d cacheEnabled w
    = Returns (res, w') →
    (∀ path, path ≠ cachePath fileCachePath namespace →
             files w' !! path = files w !! path)
    ∧ (cacheEnabled = false
       ∨ calls w' = calls w
       ∨ (∃ reg e, region = Some reg
                   ∧ (GetResources (calls w) namespace reg).2 = Some e
                   ∧ e ≠ ErrExpectedToFindResources)
       ∨ (∃ reg, region = Some reg
                 ∧ MarshalResources (GetResources (calls w) namespace reg).1 = None) →
       files w' = files w).
Proof.
  intros T fileCachePath namespace region d cacheEnabled w w' res Hrun.
  destruct (getOrCacheResources_touches T _ _ _ _ _ _ _ _ Hrun) as [Hother Hsame].
  split; [exact Hother|].
  intros [Hoff|[Hcalls|Hfails]]; [apply Hsame; by left | apply Hsame; by right; right|].
  destruct cacheEnabled; [|apply Hsame; by left].
  apply Hsame. revert Hrun. unfold getOrCacheResources. cbn [negb].
  set (filePath := cachePath fileCachePath namespace).
  assert (∀ w0 : World,
            calls w0 = calls w →
            match retrieveResources namespace region w0 with
            | Panics => Panics
            | Returns (inr err, w) => Returns (inr err, w)
            | Returns (inl resources, w) =>
                match MarshalResources resources with
                | None => Returns (inr ErrMarshal, w)
                | Some b =>
                    Returns (inl resources,
                             log_event (CacheWrite namespace filePath)
                               (write_file filePath b w))
                end
            end = Returns (res, w') →
            (true = false ∨ (∃ err, res = inr err) ∨ calls w' = calls w)) as Hrefresh.
  { intros w0 Hw0. unfold retrieveResources.
    destruct Hfails as [(reg & e & -> & He & Hne)|(reg & -> & Hm)]; rewrite Hw0.
    - destruct (GetResources (calls w) namespace reg) as [rs err]. cbn in He. subst err.
      rewrite bool_decide_eq_false_2 by exact Hne. cbn [negb].
      intros [= <- <-]. right. left. by eexists.
    - destruct (GetResources (calls w) namespace reg) as [rs [e|]]; cbn in Hm.
      + destruct (negb _); [intros [= <- <-]; right; left; by eexists|].
        rewrite Hm. intros [= <- <-]. right. left. by eexists.
      + rewrite Hm. intros [= <- <-]. right. left. by eexists. }
  destruct (files w !! filePath) as [file|].
  - cbn [time_Now]. rewrite bool_decide_eq_false_2 by discriminate. cbn [orb].
    destruct (modTime file + d <? _)%Z; [by apply Hrefresh|].
    destruct (UnmarshalResources (data file)); intros [= <- <-]; by right; right.
  - rewrite bool_decide_eq_true_2 by reflexivity. cbn [orb]. by apply Hrefresh.
Qed.

(** X13.  The client's [ErrExpectedToFindResources] is not a failure: the
    resources that came with it are returned, and with the cache on they are
    written to the file of the namespace like any others. *)
Theorem getOrCacheResources_expected_to_find :
  ∀ (T : Tagging) (fileCachePath namespace reg : string) (d : Z) (w : World)
    (resources : list model.TaggedResource) (b : string),
    files w !! cachePath fileCachePath namespace = None →
    GetResources (calls w) namespace reg = (resources, Some ErrExpectedToFindResources) →
    MarshalResources resources = Some b →
    (∃ w', getOrCacheResources fileCachePath namespace (Some reg) d false w
           = Returns (inl resources, w')
           ∧ files w' = files w)
    ∧ (∃ w', getOrCacheResources fileCachePath namespace (Some reg) d true w
             = Returns (inl resources, w')
             ∧ files w'
               = <[cachePath fileCachePath namespace :=
                     {| data := b; modTime := clock w (ticks w) |}]> (files w)).
Proof.
  intros T fileCachePath namespace reg d w resources b Hmiss Hget Hb.
  unfold getOrCacheResources, retrieveResources. cbn [negb]. rewrite Hmiss.
  rewrite bool_decide_eq_true_2 by reflexivity. cbn. rewrite Hget. cbn.
  rewrite bool_decide_eq_true_2 by reflexivity. cbn.
  split; [|rewrite Hb]; eexists; (split; [reflexivity|]); reflexivity.
Qed.

Lemma ReplaceAll1_fixed (s : string) (old : ascii) (new : string) :
  strings.Index new (String old "") = None →
  strings.ReplaceAll1 (strings.ReplaceAll1 s old new) old new
  = strings.ReplaceAll1 s old new.
Proof.
  intros Hnew.
  assert (∀ t u, strings.Index t (String old "") = None →
                 strings.ReplaceAll1 (t +:+ u) old new
                 = t +:+ strings.ReplaceAll1 u old new) as Happ.
  { induction t as [|c t IH]; intros u Ht; [reflexivity|].
    change (String c t +:+ u) with (String c (t +:+ u)).
    cbn [strings.Index strings.HasPrefix] in Ht. cbn [strings.ReplaceAll1].
    destruct (Ascii.eqb c old); [by rewrite HasPrefix_empty in Ht|].
    destruct (strings.Index t (String old "")); [discriminate|].
    by rewrite IH. }
  induction s as [|c s IH]; [reflexivity|]. cbn [strings.ReplaceAll1].
  destruct (Ascii.eqb c old) eqn:Hc.
  - rewrite Happ by exact Hnew. by rewrite IH.
  - cbn [strings.ReplaceAll1]. by rewrite Hc, IH.
Qed.

(** X14.  The name of the cache file does not tell a ['/'] in the namespace
    from a ['-']: two namespaces that differ only there share one file, and
    as long as it has not expired a call for either returns what the file
    holds. *)
Theorem getOrCacheResources_shared_file :
  ∀ (T : Tagging) (fileCachePath namespace : string) (region : option string)
    (d : Z) (w : World) (file : File),
    let namespace' := strings.ReplaceAll1 namespace "/" "-" in
    files w !! cachePath fileCachePath namespace = Some file →
    (clock w (ticks w) <= modTime file + d)%Z →
    cachePath fileCachePath namespace' = cachePath fileCachePath namespace
    ∧ ∃ res w1 w2,
        getOrCacheResources fileCachePath namespace region d true w = Returns (res, w1)
        ∧ getOrCacheResources fileCachePath namespace' region d true w = Returns (res, w2)
        ∧ calls w1 = calls w ∧ calls w2 = calls w.
Proof.
  intros T fileCachePath namespace region d w file namespace' Hfile Hfresh.
  assert (cachePath fileCachePath namespace' = cachePath fileCachePath namespace) as Hpath.
  { unfold cachePath, namespace'. by rewrite ReplaceAll1_fixed. }
  split; [exact Hpath|].
  rewrite (getOrCacheResources_fresh fileCachePath namespace region d w file Hfile Hfresh).
  rewrite (getOrCacheResources_fresh fileCachePath namespace' region d w file)
    by (by rewrite ?Hpath).
  eexists _, _, _. split; [reflexivity|]. split; [reflexivity|]. by split.
Qed.

End CacheFiles.

Section CacheFilesWitness.

Local Abbreviation one_answer := (Sample.client [([Sample.ec2Resource], None)]).
Local Abbreviation sample_get client :=
  (@getOrCacheResources Sample.json client "/tmp" "AWS/EC2" (Some "us-east-1")).

Lemma getOrCacheResources_read_back_witness :
  ∃ file,
    file = {| data := Sample.ec2Cached; modTime := 0 |}
    ∧ ∀ (T' : Tagging) (region' : option string) (w1 : World),
        files w1 !! "/tmp/cache-AWS-EC2" = Some file →
        (clock w1 (ticks w1) <= modTime file + 3600)%Z →
        ∃ w2,
          @getOrCacheResources Sample.json T' "/tmp" "AWS/EC2" region' 3600 true w1
          = Returns (inl [Sample.ec2Resource], w2)
          ∧ calls w2 = calls w1 ∧ files w2 = files w1.
Proof.
  pose (run := sample_get one_answer 3600%Z true Sample.emptyWorld).
  pose (w' := match run with Returns (_, w') => w' | Panics => Sample.emptyWorld end).
  destruct (@getOrCacheResources_read_back Sample.json one_answer "/tmp" "AWS/EC2"
              (Some "us-east-1") 3600%Z Sample.emptyWorld w' [Sample.ec2Resource])
    as (file & Hfile & Hnext).
  - vm_compute. reflexivity.
  - intros b [= <-]. vm_compute. reflexivity.
  - exists file. split; [|exact Hnext].
    vm_compute in Hfile. by injection Hfile as <-.
Defined.

Lemma getOrCacheResources_files_witness :
  ∃ w', sample_get (Sample.client []) 3600%Z true Sample.emptyWorld
        = Returns (inr (ErrTagging "no answer scripted"), w')
        ∧ files w' = ∅.
Proof.
  pose (run := sample_get (Sample.client []) 3600%Z true Sample.emptyWorld).
  pose (w' := match run with Returns (_, w') => w' | Panics => Sample.emptyWorld end).
  exists w'. split; [vm_compute; reflexivity|].
  apply (@getOrCacheResources_files Sample.json (Sample.client []) "/tmp" "AWS/EC2"
           (Some "us-east-1") 3600%Z true Sample.emptyWorld w'
           (inr (ErrTagging "no answer scripted")) ltac:(vm_compute; reflexivity)).
  right. right. left. exists "us-east-1", (ErrTagging "no answer scripted").
  split; [reflexivity|]. split; [reflexivity | discriminate].
Defined.

Lemma getOrCacheResources_expected_to_find_witness :
  ∃ w', sample_get (Sample.client [([], Some ErrExpectedToFindResources)]) 3600%Z true
          Sample.emptyWorld
        = Returns (inl [], w')
        ∧ files w' = {[ "/tmp/cache-AWS-EC2" := {| data := "[]"; modTime := 0 |} ]}.
Proof.
  destruct (@getOrCacheResources_expected_to_find Sample.json
              (Sample.client [([], Some ErrExpectedToFindResources)])
              "/tmp" "AWS/EC2" "us-east-1" 3600%Z Sample.emptyWorld [] "[]"
              ltac:(reflexivity) ltac:(reflexivity) ltac:(reflexivity))
    as [_ (w' & Hrun & Hfiles)].
  exists w'. split; [exact Hrun|]. rewrite Hfiles. reflexivity.
Defined.

Lemma getOrCacheResources_shared_file_witness :
  ∃ res w1 w2,
    sample_get (Sample.client []) 3600%Z true (Sample.cache_world 2000 Sample.ec2Cached)
    = Returns (res, w1)
    ∧ @getOrCacheResources Sample.json (Sample.client []) "/tmp" "AWS-EC2"
        (Some "us-east-1") 3600%Z true (Sample.cache_world 2000 Sample.ec2Cached)
      = Returns (res, w2)
    ∧ calls w1 = 0%nat ∧ calls w2 = 0%nat.
Proof.
  apply (@getOrCacheResources_shared_file Sample.json (Sample.client []) "/tmp" "AWS/EC2"
           (Some "us-east-1") 3600%Z (Sample.cache_world 2000 Sample.ec2Cached)
           {| data := Sample.ec2Cached; modTime := 1000 |});
    vm_compute; (reflexivity || discriminate).
Defined.

End CacheFilesWitness.

(* ===================================================================== *)
(** * Further properties: the enrichment orchestrator                      *)
(* ===================================================================== *)

Section ForEachMore.
Context {A S : Type}.
Implicit Types (body : A → S → outcome (A * S * option error)).

(** A loop whose body changes the state by [g] and the element by [f]. *)
Lemma for_each_fold (f : A → A) (g : A → S → S) body (l : list A) :
  (∀ a s, a ∈ l → body a s = Returns (f a, g a s, None)) →
  ∀ s, for_each body l s = Returns (f <$> l, foldl (λ s a, g a s) s l, None).
Proof.
  induction l as [|a l IH]; intros Hbody s; cbn [for_each]; [reflexivity|].
  rewrite Hbody by apply list_elem_of_here.
  rewrite IH by (intros; apply Hbody; by apply list_elem_of_further).
  reflexivity.
Qed.

(** A loop whose body leaves the state as it is. *)
Lemma for_each_fixed (f : A → A) body (l : list A) (s : S) :
  (∀ a, a ∈ l → body a s = Returns (f a, s, None)) →
  for_each body l s = Returns (f <$> l, s, None).
Proof.
  induction l as [|a l IH]; intros Hbody; cbn [for_each]; [reflexivity|].
  rewrite Hbody by apply list_elem_of_here.
  rewrite IH by (intros; apply Hbody; by apply list_elem_of_further).
  reflexivity.
Qed.

(** A property of the state that every iteration keeps is kept by the
    loop, however it ends. *)
Lemma for_each_preserves (I : S → Prop) body :
  (∀ a s a' s' e, I s → body a s = Returns (a', s', e) → I s') →
  ∀ l s l' s' e, I s → for_each body l s = Returns (l', s', e) → I s'.
Proof.
  intros Hbody l. induction l as [|a l IH]; intros s l' s' e Hs; cbn [for_each].
  - by intros [= _ <- _].
  - destruct (body a s) as [[[a1 s1] [e1|]]|] eqn:Ha; try discriminate.
    + intros [= _ <- _]. by eapply Hbody.
    + destruct (for_each body l s1) as [[[l1 s2] e2]|] eqn:Hl; [|discriminate].
      intros [= _ <- _]. eapply IH; [|exact Hl]. by eapply Hbody.
Qed.

End ForEachMore.

Section NothingToEnrich.
Context `{!Promutil, !GoModel, !JSON, !Tagging, !Associators}.
Variable cfg : Settings.
Import metricspb.

Lemma enrichDataPoint_unenrichable (accountID effectiveRegion : string)
    (dp : SummaryDataPoint) (st : EnrichState) :
  unenrichable dp = true →
  enrichDataPoint cfg accountID effectiveRegion dp st = Returns (dp_continue, st).
Proof.
  unfold unenrichable, enrichDataPoint. cbv zeta.
  destruct (String.eqb _ "" || String.eqb _ "")%bool; [reflexivity|]. cbn [orb].
  by destruct (GetService _).
Qed.

Lemma metric_body_unenrichable (accountID effectiveRegion : string)
    (metric : Metric) (new : list Metric) (st : EnrichState) :
  Forall (λ dp, unenrichable dp = true)
    match Data metric with Metric_Summary dps => dps | _ => [] end →
  metric_body cfg accountID effectiveRegion metric (new, st)
  = Returns (metric,
             (if (yaceCompatMode cfg && negb (is_summary metric))%bool
              then new ++ [metric] else new, st), None).
Proof.
  intros Hdps. unfold metric_body, is_summary. destruct metric as [name descr unit data].
  cbn [Data Name Description Unit fst snd] in *.
  destruct data as [ndps | dps | payload]; cbn [negb];
    [by destruct (yaceCompatMode cfg) | | by destruct (yaceCompatMode cfg)].
  rewrite (for_each_fixed id).
  - rewrite list_fmap_id, andb_false_r. reflexivity.
  - intros dp Hdp. unfold dataPoint_body. cbn [enrich metricName newMetrics].
    rewrite enrichDataPoint_unenrichable; [reflexivity|].
    by eapply (proj1 (Forall_forall _ _) Hdps).
Qed.

Lemma scope_body_unenrichable (accountID effectiveRegion : string)
    (sm : ScopeMetrics) (st : EnrichState) :
  Forall (λ dp, unenrichable dp = true)
    (metric ← Metrics sm;
     match Data metric with Metric_Summary dps => dps | _ => [] end) →
  scope_body cfg accountID effectiveRegion sm st
  = Returns ({| Scope := Scope sm;
                Metrics := if yaceCompatMode cfg
                           then filter (λ metric, is_summary metric = false) (Metrics sm)
                           else Metrics sm;
                sm_SchemaUrl := sm_SchemaUrl sm |}, st, None).
Proof.
  intros Hdps. unfold scope_body.
  rewrite (for_each_fold id
             (λ metric acc,
                (if (yaceCompatMode cfg && negb (is_summary metric))%bool
                 then acc.1 ++ [metric] else acc.1, acc.2))).
  - rewrite list_fmap_id.
    assert (∀ (l : list Metric) (new : list Metric),
              foldl (λ (s : list Metric * EnrichState) (a : Metric),
                       (if (yaceCompatMode cfg && negb (is_summary a))%bool
                        then s.1 ++ [a] else s.1, s.2)) (new, st) l
              = (new ++ (if yaceCompatMode cfg
                         then filter (λ metric, is_summary metric = false) l
                         else []), st)) as ->.
    { induction l as [|m l IH]; intros new; cbn [foldl fst snd].
      - destruct (yaceCompatMode cfg); by rewrite ?filter_nil, app_nil_r.
      - rewrite IH. destruct (yaceCompatMode cfg); cbn [andb]; [|reflexivity].
        rewrite filter_cons. destruct (is_summary m); cbn [negb].
        + by rewrite decide_False by discriminate.
        + rewrite decide_True by reflexivity. by rewrite <- app_assoc. }
    cbn [app]. by destruct (yaceCompatMode cfg).
  - intros metric [new st1] Hm. rewrite metric_body_unenrichable; [reflexivity|].
    apply Forall_bind in Hdps. by eapply (proj1 (Forall_forall _ _) Hdps).
Qed.

(** X15.  A batch with nothing to enrich.  When every data point of every
    summary lacks a metric name or a namespace among its attributes, or
    names a namespace that is not a supported service, the call returns no
    error and leaves the maps and the world as they were: no file is opened
    and the client is not called.  In compatibility mode the batch comes
    back as it went in; in expansion mode every summary is gone from its
    scope and the other metrics stay in their order. *)
Theorem enhanceRequests_nothing_to_enrich :
  ∀ (batch : list metricsservicepb.ExportMetricsServiceRequest) (st : EnrichState),
    Forall (λ dp, unenrichable dp = true) (summary_points batch) →
    enhanceRequests cfg batch st
    = Returns (if yaceCompatMode cfg then without_summaries batch else batch, st, None).
Proof.
  intros batch st Hdps. unfold enhanceRequests, summary_points in *.
  set (scope := λ sm : ScopeMetrics,
         {| Scope := Scope sm;
            Metrics := if yaceCompatMode cfg
                       then filter (λ metric, is_summary metric = false) (Metrics sm)
                       else Metrics sm;
            sm_SchemaUrl := sm_SchemaUrl sm |}).
  set (resource := λ rm : ResourceMetrics,
         {| Resource := Resource rm; ScopeMetrics_ := scope <$> ScopeMetrics_ rm;
            rm_SchemaUrl := rm_SchemaUrl rm |}).
  set (request := λ req : metricsservicepb.ExportMetricsServiceRequest,
         {| metricsservicepb.ResourceMetrics :=
              resource <$> metricsservicepb.ResourceMetrics req |}).
  rewrite (for_each_fixed request).
  - f_equal. f_equal. f_equal. destruct (yaceCompatMode cfg) eqn:Hmode.
    + unfold without_summaries, request, resource, scope. reflexivity.
    + rewrite <- (list_fmap_id batch) at 2. apply list_fmap_ext. intros _ [rms] _.
      unfold request. cbn. f_equal.
      rewrite <- (list_fmap_id rms) at 2. apply list_fmap_ext. intros _ [res sms url] _.
      unfold resource. cbn. f_equal.
      rewrite <- (list_fmap_id sms) at 2. apply list_fmap_ext. by intros _ [sc ms surl] _.
  - intros req Hreq. unfold request_body.
    apply Forall_bind in Hdps. pose proof (proj1 (Forall_forall _ _) Hdps req Hreq) as Hreqs.
    rewrite (for_each_fixed resource); [reflexivity|].
    intros rm Hrm. unfold resource_body.
    destruct (extractResourceAttributes rm) as [accountID resourceRegion].
    apply Forall_bind in Hreqs.
    pose proof (proj1 (Forall_forall _ _) Hreqs rm Hrm) as Hrms.
    rewrite (for_each_fixed scope); [reflexivity|].
    intros sm Hsm. apply scope_body_unenrichable.
    apply Forall_bind in Hrms. by apply (proj1 (Forall_forall _ _) Hrms sm Hsm).
Qed.

(** A property of the maps and the world that the body of the data-point
    loop keeps up to its labels is kept by the whole call. *)
Lemma enhanceRequests_preserves (I : EnrichState → Prop) :
  (∀ accountID effectiveRegion dp st step st',
     I st →
     enrichDataPoint cfg accountID effectiveRegion dp st = Returns (step, st') →
     I st') →
  ∀ batch st batch' st' err,
    I st → enhanceRequests cfg batch st = Returns (batch', st', err) → I st'.
Proof.
  intros Hdp.
  assert (∀ a r dp ls dp' ls' e,
            I (enrich ls) → dataPoint_body cfg a r dp ls = Returns (dp', ls', e) →
            I (enrich ls')) as Hpoint.
  { intros a r dp ls dp' ls' e Hls. unfold dataPoint_body.
    destruct (enrichDataPoint _ _ _ _ _) as [[[| err1 | cwm labels] st1]|] eqn:He;
      try discriminate; apply Hdp in He; try exact Hls.
    - by intros [= _ <- _].
    - by intros [= _ <- _].
    - destruct (yaceCompatMode cfg); by intros [= _ <- _]. }
  assert (∀ a r m acc m' acc' e,
            I acc.2 → metric_body cfg a r m acc = Returns (m', acc', e) → I acc'.2) as Hm.
  { intros a r m acc m' acc' e Hacc. unfold metric_body.
    destruct (Data m) as [ndps | dps | payload].
    - destruct (yaceCompatMode cfg); by intros [= _ <- _].
    - destruct (for_each _ dps _) as [[[dps' ls] e1]|] eqn:Hloop; [|discriminate].
      intros [= _ <- _]. cbn [snd].
      eapply (for_each_preserves (λ ls, I (enrich ls))); [apply Hpoint| |exact Hloop].
      exact Hacc.
    - destruct (yaceCompatMode cfg); by intros [= _ <- _]. }
  assert (∀ a r sm s sm' s' e,
            I s → scope_body cfg a r sm s = Returns (sm', s', e) → I s') as Hs.
  { intros a r sm s sm' s' e Hst. unfold scope_body.
    destruct (for_each _ (Metrics sm) _) as [[[ms [new s1]] e1]|] eqn:Hloop;
      [|discriminate].
    apply (for_each_preserves (λ acc, I acc.2) _ (Hm a r)) in Hloop; [|exact Hst].
    destruct e1; by intros [= _ <- _]. }
  assert (∀ rm s rm' s' e, I s → resource_body cfg rm s = Returns (rm', s', e) → I s')
    as Hr.
  { intros rm s rm' s' e Hst. unfold resource_body.
    destruct (extractResourceAttributes rm) as [a rr].
    destruct (for_each _ (ScopeMetrics_ rm) _) as [[[sms s1] e1]|] eqn:Hloop;
      [|discriminate].
    intros [= _ <- _]. eapply (for_each_preserves I); [apply Hs | exact Hst | exact Hloop]. }
  unfold enhanceRequests. apply for_each_preserves.
  intros req s req' s' e Hst. unfold request_body.
  destruct (for_each _ _ _) as [[[rms s1] e1]|] eqn:Hloop; [|discriminate].
  intros [= _ <- _]. eapply (for_each_preserves I); [apply Hr | exact Hst | exact Hloop].
Qed.

(** X16.  The two maps stay in step.  If before the call every associator
    is the one built from the resources its namespace has in the resource
    map, so it is after the call, however the call ends: an entry of the
    resource map is never replaced, and an associator is only ever built
    from the entry of its own namespace. *)
Theorem enhanceRequests_caches_consistent :
  ∀ (batch batch' : list metricsservicepb.ExportMetricsServiceRequest)
    (st st' : EnrichState) (err : option error),
    caches_consistent st →
    enhanceRequests cfg batch st = Returns (batch', st', err) →
    caches_consistent st'.
Proof.
  intros batch batch' st st' err. apply enhanceRequests_preserves. clear.
  intros accountID effectiveRegion dp st step st' Hst. unfold enrichDataPoint.
  cbv zeta. set (cwm := buildCloudWatchMetricFromKeyValues (sdp_Attributes dp)).
  destruct (String.eqb _ "" || String.eqb _ "")%bool; [by intros [= _ <-]|].
  destruct (GetService (model.Namespace cwm)) as [svc|] eqn:Hsvc; [|by intros [= _ <-]].
  assert (∀ st1 : EnrichState,
            caches_consistent st1 →
            is_Some (resourceCache st1 !! model.Namespace cwm) →
            (let '(asc, st) :=
               match associatorCache st1 !! model.Namespace cwm with
               | Some asc => (asc, st1)
               | None =>
                   (NewAssociator svc
                      (default [] (resourceCache st1 !! model.Namespace cwm)),
                    {| world := world st1; resourceCache := resourceCache st1;
                       associatorCache :=
                         <[model.Namespace cwm :=
                             NewAssociator svc
                               (default [] (resourceCache st1 !! model.Namespace cwm))]>
                           (associatorCache st1) |})
               end in
             let '(r, skip) := AssociateMetricToResource asc cwm in
             Returns (dp_labelled cwm
                        (buildYACELabelsKeyValue (seed (world st)) cwm r skip
                           (staticLabels cfg) (defaultLabels cfg) (labelsSnakeCase cfg)
                           (exportedTags cfg) effectiveRegion accountID),
                      {| world := next_seed (world st);
                         resourceCache := resourceCache st;
                         associatorCache := associatorCache st |}))
            = Returns (step, st') →
            caches_consistent st') as Hassoc.
  { intros st1 Hst1 [resources Hres].
    destruct (associatorCache st1 !! model.Namespace cwm) as [asc|] eqn:Hasc.
    - destruct (AssociateMetricToResource asc cwm) as [r skip]. intros [= _ <-].
      exact Hst1.
    - destruct (AssociateMetricToResource _ cwm) as [r skip]. intros [= _ <-].
      intros ns asc. cbn [associatorCache resourceCache].
      destruct (decide (ns = model.Namespace cwm)) as [->|Hne].
      + rewrite lookup_insert_eq. intros [= <-]. exists svc, resources.
        rewrite Hres. by repeat split.
      + rewrite lookup_insert_ne by congruence. apply Hst1. }
  unfold ensureResources.
  destruct (resourceCache st !! model.Namespace cwm) as [resources|] eqn:Hres.
  - apply Hassoc; [exact Hst | by rewrite Hres].
  - assert (∀ w resources,
              caches_consistent
                {| world := w;
                   resourceCache := <[model.Namespace cwm := resources]> (resourceCache st);
                   associatorCache := associatorCache st |}) as Hstore.
    { intros w resources ns asc Hasc. cbn [associatorCache resourceCache] in *.
      destruct (Hst ns asc Hasc) as (svc' & rs & Hsvc' & Hrs & ->).
      exists svc', rs. rewrite lookup_insert_ne by congruence. by repeat split. }
    destruct (getOrCacheResources _ _ _ _ _ _) as [[[resources|e] w]|]; [| |discriminate].
    + apply Hassoc; [apply Hstore|]. cbn. rewrite lookup_insert_eq. eauto.
    + destruct (negb _).
      * destruct (continueOnResourceFailure cfg); intros [= _ <-]; exact Hst.
      * apply Hassoc; [apply Hstore|]. cbn. rewrite lookup_insert_eq. eauto.
Qed.

(** X17.  The call writes cache files and nothing else: a file whose path
    is not the cache path of a namespace is after the call what it was
    before, and with the file cache switched off so is every file. *)
Theorem enhanceRequests_files :
  ∀ (batch batch' : list metricsservicepb.ExportMetricsServiceRequest)
    (st st' : EnrichState) (err : option error),
    enhanceRequests cfg batch st = Returns (batch', st', err) →
    (∀ path, (∀ namespace, path ≠ cachePath (fileCachePath cfg) namespace) →
             files (world st') !! path = files (world st) !! path)
    ∧ (fileCacheEnabled cfg = false → files (world st') = files (world st)).
Proof.
  intros batch batch' st st' err Hrun.
  apply (enhanceRequests_preserves
           (λ s, (∀ path, (∀ namespace, path ≠ cachePath (fileCachePath cfg) namespace) →
                          files (world s) !! path = files (world st) !! path)
                 ∧ (fileCacheEnabled cfg = false → files (world s) = files (world st))))
    in Hrun; [exact Hrun | | by split].
  clear. intros accountID effectiveRegion dp s step s' Hs. unfold enrichDataPoint.
  cbv zeta. set (cwm := buildCloudWatchMetricFromKeyValues (sdp_Attributes dp)).
  destruct (String.eqb _ "" || String.eqb _ "")%bool; [by intros [= _ <-]|].
  destruct (GetService (model.Namespace cwm)) as [svc|]; [|by intros [= _ <-]].
  destruct (ensureResources cfg (model.Namespace cwm) s) as [[s1|[stop s1]]|] eqn:He;
    [| |discriminate].
  - assert (files (world s1) = files (world s) ∨
            ∃ res w, getOrCacheResources (fileCachePath cfg) (model.Namespace cwm)
                       (region cfg) (fileCacheExpiration cfg) (fileCacheEnabled cfg)
                       (world s) = Returns (res, w) ∧ world s1 = w) as Hw.
    { revert He. unfold ensureResources.
      destruct (resourceCache s !! _); [intros [= <-]; by left|].
      destruct (getOrCacheResources _ _ _ _ _ _) as [[[resources|e] w]|]; [| |discriminate].
      - intros [= <-]. right. by eexists _, _.
      - destruct (negb _); [by destruct (continueOnResourceFailure cfg)|].
        intros [= <-]. right. by eexists _, _. }
    assert ((∀ path, (∀ namespace, path ≠ cachePath (fileCachePath cfg) namespace) →
                     files (world s1) !! path = files (world st) !! path)
            ∧ (fileCacheEnabled cfg = false → files (world s1) = files (world st))) as Hs1.
    { destruct Hw as [Hw|(res & w & Hget & Hw)]; [by rewrite Hw|].
      apply getOrCacheResources_touches in Hget as [Hother Hsame]. rewrite Hw. split.
      - intros path Hpath. rewrite Hother by apply Hpath. by apply Hs.
      - intros Hoff. rewrite Hsame by (by left). by apply Hs. }
    destruct (associatorCache s1 !! _);
      destruct (AssociateMetricToResource _ cwm); by intros [= _ <-].
  - intros [= _ <-]. revert He. unfold ensureResources.
    destruct (resourceCache s !! _); [discriminate|].
    destruct (getOrCacheResources _ _ _ _ _ _) as [[[resources|e] w]|] eqn:Hget;
      [discriminate| |discriminate].
    apply getOrCacheResources_touches in Hget as [Hother Hsame].
    destruct (negb _); [|discriminate].
    destruct (continueOnResourceFailure cfg); intros [= _ <-]; cbn [world]; (split;
      [intros path Hpath; rewrite Hother by apply Hpath; by apply Hs
      |intros Hoff; rewrite Hsame by (by left); by apply Hs]).
Qed.

End NothingToEnrich.

Section NothingToEnrichWitness.

Local Abbreviation sample_enhance yace batch st :=
  (@enhanceRequests Sample.promutil Sample.gomodel Sample.json (Sample.client [])
     Sample.associators (Sample.settings yace true) batch st).

(** A summary for the namespace [AWS/Lambda], which the sample services do
    not list, next to a gauge. *)
Lemma enhanceRequests_nothing_to_enrich_witness :
  let batch :=
    [ {| metricsservicepb.ResourceMetrics :=
           [ {| metricspb.Resource := None;
                metricspb.ScopeMetrics_ :=
                  [ {| metricspb.Scope := "";
                       metricspb.Metrics :=
                         [ {| metricspb.Name := "amazonaws.com/AWS/Lambda/Duration";
                              metricspb.Description := "";
                              metricspb.Unit := "ms";
                              metricspb.Data :=
                                metricspb.Metric_Summary
                                  [ {| metricspb.sdp_Attributes :=
                                         [ Some (commonpb.strKV "Namespace" "AWS/Lambda");
                                           Some (commonpb.strKV "MetricName" "Duration") ];
                                       metricspb.sdp_StartTimeUnixNano := 0;
                                       metricspb.sdp_TimeUnixNano := 0;
                                       metricspb.sdp_Count := 1;
                                       metricspb.sdp_Sum := 1%float;
                                       metricspb.sdp_QuantileValues := [];
                                       metricspb.sdp_Flags := 0 |} ] |};
                           Sample.otherMetric ];
                       metricspb.sm_SchemaUrl := "" |} ];
                metricspb.rm_SchemaUrl := "" |} ] |} ] in
  sample_enhance true batch Sample.filled
  = Returns (@without_summaries batch, Sample.filled, None)
  ∧ metric_names (without_summaries batch) = ["other"].
Proof.
  intros batch. split; [|vm_compute; reflexivity].
  apply (@enhanceRequests_nothing_to_enrich Sample.promutil Sample.gomodel Sample.json
           (Sample.client []) Sample.associators (Sample.settings true true) batch
           Sample.filled).
  repeat constructor.
Defined.

Local Abbreviation answered_enhance batch st :=
  (@enhanceRequests Sample.promutil Sample.gomodel Sample.json
     (Sample.client [([Sample.ec2Resource], None)]) Sample.associators
     (Sample.settings true true) batch st).

Lemma enhanceRequests_caches_consistent_witness :
  ∃ batch' st',
    answered_enhance [Sample.request] Sample.fresh = Returns (batch', st', None)
    ∧ @caches_consistent Sample.associators st'
    ∧ associatorCache st' !! "AWS/EC2" = Some [Sample.ec2Resource].
Proof.
  pose (run := answered_enhance [Sample.request] Sample.fresh).
  pose (out := match run with
               | Returns (batch', st', _) => (batch', st')
               | Panics => ([], Sample.fresh)
               end).
  exists out.1, out.2.
  assert (answered_enhance [Sample.request] Sample.fresh
          = Returns (out.1, out.2, None)) as Hrun by (vm_compute; reflexivity).
  split; [exact Hrun|]. split; [|vm_compute; reflexivity].
  apply (@enhanceRequests_caches_consistent Sample.promutil Sample.gomodel Sample.json
           (Sample.client [([Sample.ec2Resource], None)]) Sample.associators
           (Sample.settings true true)
           [Sample.request] out.1 Sample.fresh out.2 None); [|exact Hrun].
  intros ns asc Hasc. vm_compute in Hasc. discriminate.
Defined.

Lemma enhanceRequests_files_witness :
  ∃ batch' st',
    sample_enhance true [Sample.request] Sample.fresh = Returns (batch', st', None)
    ∧ files (world st') = ∅.
Proof.
  pose (run := sample_enhance true [Sample.request] Sample.fresh).
  pose (out := match run with
               | Returns (batch', st', _) => (batch', st')
               | Panics => ([], Sample.fresh)
               end).
  exists out.1, out.2.
  assert (sample_enhance true [Sample.request] Sample.fresh
          = Returns (out.1, out.2, None)) as Hrun by (vm_compute; reflexivity).
  split; [exact Hrun|].
  apply (@enhanceRequests_files Sample.promutil Sample.gomodel Sample.json
           (Sample.client []) Sample.associators (Sample.settings true true)
           [Sample.request] out.1 Sample.fresh out.2 None Hrun).
  reflexivity.
Defined.

End NothingToEnrichWitness.

(* ===================================================================== *)
(** * Further properties: response records                                 *)
(* ===================================================================== *)

Section Base64.

Lemma sextet_encode (v : N) :
  (v < 64)%N →
  sextet (base64.encode v) = Some v
  ∧ Byte.eqb (base64.encode v) base64.StdPadding = false.
Proof.
  intros Hv. destruct v as [|p]; [by split|].
  do 6 (destruct p as [p|p|]; try (by split); try lia).
Qed.

Lemma lor_shiftl_add (h l k : N) :
  (l < 2 ^ k)%N → N.lor (N.shiftl h k) l = (h * 2 ^ k + l)%N.
Proof.
  intros Hl. rewrite <- N.lxor_lor.
  - rewrite <- N.add_nocarry_lxor; [by rewrite N.shiftl_mul_pow2|].
    apply N.bits_inj. intros n. rewrite N.land_spec, N.bits_0.
    destruct (N.ltb_spec n k) as [Hn|Hn].
    + by rewrite N.shiftl_spec_low.
    + rewrite (N.testbit_eqb l), N.div_small; [by rewrite andb_false_r|].
      eapply N.lt_le_trans; [exact Hl|]. by apply N.pow_le_mono_r.
  - apply N.bits_inj. intros n. rewrite N.land_spec, N.bits_0.
    destruct (N.ltb_spec n k) as [Hn|Hn].
    + by rewrite N.shiftl_spec_low.
    + rewrite (N.testbit_eqb l), N.div_small; [by rewrite andb_false_r|].
      eapply N.lt_le_trans; [exact Hl|]. by apply N.pow_le_mono_r.
Qed.

Lemma land_63 (x : N) : N.land x 63 = (x mod 64)%N.
Proof. exact (N.land_ones x 6). Qed.

Lemma byte_bound (b : byte) : (Byte.to_N b < 256)%N.
Proof. by destruct b. Qed.

Lemma byte_of_N (b : byte) : binary.byte_of (Byte.to_N b) = b.
Proof. unfold binary.byte_of. by rewrite Byte.of_to_N. Qed.

(** Three bytes: the four sextets put together are the three bytes put
    together. *)
Lemma sextets_three (a b c : N) :
  (a < 256)%N → (b < 256)%N → (c < 256)%N →
  let val := N.lor (N.lor (N.shiftl a 16) (N.shiftl b 8)) c in
  val = (a * 65536 + b * 256 + c)%N
  ∧ N.land (N.shiftr val 18) 63 = (val / 262144 mod 64)%N
  ∧ N.land (N.shiftr val 12) 63 = (val / 4096 mod 64)%N
  ∧ N.land (N.shiftr val 6) 63 = (val / 64 mod 64)%N
  ∧ N.land val 63 = (val mod 64)%N.
Proof.
  intros Ha Hb Hc. cbv zeta.
  rewrite !land_63, !N.shiftr_div_pow2.
  split; [|by repeat split].
  rewrite (lor_shiftl_add a (N.shiftl b 8) 16).
  - rewrite N.shiftl_mul_pow2.
    replace (a * 2 ^ 16 + b * 2 ^ 8)%N with (N.shiftl (a * 256 + b) 8)
      by (rewrite N.shiftl_mul_pow2; change (2 ^ 8)%N with 256%N;
          change (2 ^ 16)%N with 65536%N; lia).
    rewrite lor_shiftl_add by (change (2 ^ 8)%N with 256%N; lia).
    change (2 ^ 8)%N with 256%N. lia.
  - rewrite N.shiftl_mul_pow2. change (2 ^ 8)%N with 256%N.
    change (2 ^ 16)%N with 65536%N. lia.
Qed.

Lemma base64_digits (v : N) :
  (v < 16777216)%N →
  (((v / 262144 mod 64 * 64 + v / 4096 mod 64) * 64 + v / 64 mod 64) * 64 + v mod 64
   = v)%N.
Proof. intros. zify. Z.to_euclidean_division_equations. lia. Qed.

Lemma bytes_of_three (a b c : N) :
  (a < 256)%N → (b < 256)%N → (c < 256)%N →
  let v := (a * 65536 + b * 256 + c)%N in
  (v / 65536 = a ∧ v / 256 mod 256 = b ∧ v mod 256 = c)%N.
Proof. intros. cbv zeta. zify. Z.to_euclidean_division_equations. repeat split; lia. Qed.

Lemma mod_64_bound (x : N) : (x mod 64 < 64)%N.
Proof. by apply N.mod_lt. Qed.

Lemma encoded_three (s0 s1 s2 : byte) (src : list byte) :
  ∃ c0 c1 c2 c3,
    base64.encoded (s0 :: s1 :: s2 :: src) = c0 :: c1 :: c2 :: c3 :: base64.encoded src
    ∧ Byte.eqb c3 base64.StdPadding = false
    ∧ ∃ v0 v1 v2 v3,
        sextet c0 = Some v0 ∧ sextet c1 = Some v1 ∧ sextet c2 = Some v2
        ∧ sextet c3 = Some v3
        ∧ let w := (((v0 * 64 + v1) * 64 + v2) * 64 + v3)%N in
          binary.byte_of (w / 65536) = s0
          ∧ binary.byte_of (w / 256 mod 256) = s1
          ∧ binary.byte_of (w mod 256) = s2.
Proof.
  cbn [base64.encoded]. cbv zeta.
  destruct (sextets_three (Byte.to_N s0) (Byte.to_N s1) (Byte.to_N s2)
              (byte_bound s0) (byte_bound s1) (byte_bound s2))
    as (Hval & -> & -> & -> & ->).
  set (val := N.lor _ _) in *.
  eexists _, _, _, _. split; [reflexivity|].
  split; [apply sextet_encode, mod_64_bound|].
  eexists _, _, _, _.
  repeat (split; [apply sextet_encode, mod_64_bound|]).
  cbv zeta. rewrite base64_digits.
  - rewrite Hval.
    destruct (bytes_of_three (Byte.to_N s0) (Byte.to_N s1) (Byte.to_N s2)
                (byte_bound s0) (byte_bound s1) (byte_bound s2)) as (-> & -> & ->).
    by rewrite !byte_of_N.
  - rewrite Hval. pose proof (byte_bound s0). pose proof (byte_bound s1).
    pose proof (byte_bound s2). lia.
Qed.

Lemma encoded_two (s0 s1 : byte) :
  ∃ c0 c1 c2,
    base64.encoded [s0; s1] = [c0; c1; c2; base64.StdPadding]
    ∧ Byte.eqb c2 base64.StdPadding = false
    ∧ ∃ v0 v1 v2,
        sextet c0 = Some v0 ∧ sextet c1 = Some v1 ∧ sextet c2 = Some v2
        ∧ let w := ((v0 * 64 + v1) * 64 + v2)%N in
          binary.byte_of (w / 1024) = s0 ∧ binary.byte_of (w / 4 mod 256) = s1.
Proof.
  cbn [base64.encoded]. cbv zeta.
  pose proof (byte_bound s0) as H0. pose proof (byte_bound s1) as H1.
  assert (N.lor (N.shiftl (Byte.to_N s0) 16) (N.shiftl (Byte.to_N s1) 8)
          = (Byte.to_N s0 * 65536 + Byte.to_N s1 * 256)%N) as ->.
  { rewrite lor_shiftl_add; rewrite N.shiftl_mul_pow2; change (2 ^ 8)%N with 256%N;
      change (2 ^ 16)%N with 65536%N; lia. }
  rewrite !land_63, !N.shiftr_div_pow2.
  eexists _, _, _. split; [reflexivity|].
  split; [apply sextet_encode, mod_64_bound|].
  eexists _, _, _.
  repeat (split; [apply sextet_encode, mod_64_bound|]).
  cbv zeta. change (2 ^ 18)%N with 262144%N. change (2 ^ 12)%N with 4096%N.
  change (2 ^ 6)%N with 64%N.
  set (a := Byte.to_N s0) in *. set (b := Byte.to_N s1) in *.
  assert ((((a * 65536 + b * 256) / 262144 mod 64 * 64
            + (a * 65536 + b * 256) / 4096 mod 64) * 64
           + (a * 65536 + b * 256) / 64 mod 64)%N = (a * 1024 + b * 4)%N) as ->.
  { clearbody a b. zify. Z.to_euclidean_division_equations. lia. }
  assert (((a * 1024 + b * 4) / 1024 = a ∧ (a * 1024 + b * 4) / 4 mod 256 = b)%N)
    as [-> ->].
  { clearbody a b. zify. Z.to_euclidean_division_equations. lia. }
  unfold a, b. by rewrite !byte_of_N.
Qed.

Lemma encoded_one (s0 : byte) :
  ∃ c0 c1,
    base64.encoded [s0] = [c0; c1; base64.StdPadding; base64.StdPadding]
    ∧ ∃ v0 v1,
        sextet c0 = Some v0 ∧ sextet c1 = Some v1
        ∧ binary.byte_of ((v0 * 64 + v1) / 16) = s0.
Proof.
  cbn [base64.encoded]. cbv zeta.
  pose proof (byte_bound s0) as H0.
  rewrite !land_63, !N.shiftr_div_pow2, N.shiftl_mul_pow2.
  eexists _, _. split; [reflexivity|].
  eexists _, _.
  repeat (split; [apply sextet_encode, mod_64_bound|]).
  change (2 ^ 18)%N with 262144%N. change (2 ^ 12)%N with 4096%N.
  change (2 ^ 16)%N with 65536%N.
  set (a := Byte.to_N s0) in *.
  assert ((((a * 65536) / 262144 mod 64 * 64 + (a * 65536) / 4096 mod 64) / 16)%N = a)
    as ->.
  { clearbody a. zify. Z.to_euclidean_division_equations. lia. }
  unfold a. by rewrite byte_of_N.
Qed.

Lemma three_by_three (P : list byte → Prop) :
  P [] → (∀ a, P [a]) → (∀ a b, P [a; b]) →
  (∀ a b c l, P l → P (a :: b :: c :: l)) →
  ∀ l, P l.
Proof.
  intros H0 H1 H2 H3 l.
  assert (P l ∧ (∀ a, P (a :: l)) ∧ (∀ a b, P (a :: b :: l))) as [? _]; [|done].
  induction l as [|c l (IH0 & IH1 & IH2)]; [by repeat split|].
  split; [apply IH1|]. split; [intros a; apply IH2|]. intros a b. by apply H3.
Qed.

Lemma base64_round_trip (src : list byte) :
  base64_decoded (base64.encoded src) = Some src.
Proof.
  induction src as [|a|a b|a b c src IH] using three_by_three.
  - reflexivity.
  - destruct (encoded_one a) as (c0 & c1 & -> & v0 & v1 & H0 & H1 & Hb).
    cbn [base64_decoded]. rewrite H0, H1. cbn [mbind option_bind].
    change (Byte.eqb base64.StdPadding base64.StdPadding) with true. cbv iota.
    by rewrite Hb.
  - destruct (encoded_two a b)
      as (c0 & c1 & c2 & -> & Hpad & v0 & v1 & v2 & H0 & H1 & H2 & Ha & Hb).
    cbn [base64_decoded]. rewrite H0, H1. cbn [mbind option_bind].
    change (Byte.eqb base64.StdPadding base64.StdPadding) with true. cbv iota.
    rewrite Hpad, H2. cbn [mbind option_bind].
    cbv zeta in Ha, Hb. by rewrite Ha, Hb.
  - destruct (encoded_three a b c src)
      as (c0 & c1 & c2 & c3 & -> & Hpad & v0 & v1 & v2 & v3
          & H0 & H1 & H2 & H3 & Ha & Hb & Hc).
    cbn [base64_decoded]. rewrite H0, H1. cbn [mbind option_bind].
    rewrite Hpad, H2, H3. cbn [mbind option_bind]. rewrite IH. cbn [mbind option_bind].
    cbv zeta in Ha, Hb, Hc. by rewrite Ha, Hb, Hc.
Qed.

Lemma encoded_length (src : list byte) :
  length (base64.encoded src) = base64.EncodedLen (length src).
Proof.
  unfold base64.EncodedLen.
  induction src as [|a|a b|a b c src IH] using three_by_three; try reflexivity.
  cbn [base64.encoded]. cbv zeta. cbn [length]. rewrite IH.
  replace (S (S (S (length src))) + 2)%nat with (length src + 2 + 1 * 3)%nat by lia.
  rewrite Nat.div_add by lia. lia.
Qed.

Lemma buildResponseRecord_returns (recordID : string) (data : list byte) :
  buildResponseRecord recordID data
  = Returns {| events.resp_RecordID := recordID;
               events.Result := "Ok";
               events.resp_Data := base64.encoded data |}.
Proof.
  unfold buildResponseRecord, base64.Encode.
  rewrite length_replicate, encoded_length, Nat.leb_refl.
  rewrite drop_ge by (by rewrite length_replicate). by rewrite app_nil_r.
Qed.

(** X18.  A response record is never out of bounds and loses nothing: the
    buffer of [EncodedLen] bytes is exactly filled, the record carries the
    id it was given and the result ["Ok"], its data is a multiple of four
    bytes long, and reading the data as padded base64 gives the payload
    back.  So two payloads never get the same data. *)
Theorem buildResponseRecord_round_trip :
  ∀ (recordID : string) (data : list byte),
    ∃ response,
      buildResponseRecord recordID data = Returns response
      ∧ events.resp_RecordID response = recordID
      ∧ events.Result response = "Ok"
      ∧ length (events.resp_Data response) = (4 * ((length data + 2) / 3))%nat
      ∧ base64_decoded (events.resp_Data response) = Some data.
Proof.
  intros recordID data. rewrite buildResponseRecord_returns. eexists.
  split; [reflexivity|]. cbn. split; [reflexivity|]. split; [reflexivity|].
  split; [|apply base64_round_trip].
  rewrite encoded_length. unfold base64.EncodedLen. apply Nat.mul_comm.
Qed.

End Base64.

(* ===================================================================== *)
(** * Further properties: the OTLP export                                  *)
(* ===================================================================== *)

Section ExportFacts.
Context `{!Runtime}.

(** X19.  The export stops at the first failure.  The requests are handed
    to the client in their order, one call each, until one is refused; the
    error returned is the error of that call, and the requests after it are
    not sent.  Without an error every request was sent and accepted. *)
Theorem exportRequests_stops_at_first_failure :
  ∀ (reqs : list metricsservicepb.ExportMetricsServiceRequest) (timeout : Z)
    (sent : list metricsservicepb.ExportMetricsServiceRequest),
    ∃ n,
      (n <= length reqs)%nat
      ∧ (exportRequests reqs timeout sent).1 = sent ++ take n reqs
      ∧ (∀ i r, (S i < n)%nat → reqs !! i = Some r →
                Export (length sent + i) timeout r = None)
      ∧ match (exportRequests reqs timeout sent).2 with
        | None =>
            n = length reqs
            ∧ ∀ i r, reqs !! i = Some r → Export (length sent + i) timeout r = None
        | Some err =>
            ∃ r, reqs !! (n - 1)%nat = Some r ∧ (0 < n)%nat
                 ∧ Export (length sent + (n - 1)) timeout r = Some err
        end.
Proof.
  intros reqs timeout. induction reqs as [|r reqs IH]; intros sent; cbn [exportRequests].
  - exists 0%nat. cbn. rewrite app_nil_r. repeat split; try done; intros; lia.
  - destruct (Export (length sent) timeout r) as [err|] eqn:Hr.
    + exists 1%nat. cbn [fst snd take length]. split; [lia|]. split; [reflexivity|].
      split; [intros; lia|].
      exists r. cbn. rewrite Nat.add_0_r. split; [reflexivity|]. split; [lia|exact Hr].
    + destruct (IH (sent ++ [r])) as (n & Hn & Hsent & Hbefore & Hlast).
      exists (S n). split; [cbn; lia|]. split; [by rewrite Hsent, <- app_assoc|].
      rewrite length_app in Hbefore, Hlast. cbn [length] in Hbefore, Hlast.
      split.
      * intros [|i] r' Hi Hr'.
        -- injection Hr' as <-. by rewrite Nat.add_0_r.
        -- replace (length sent + S i)%nat with (length sent + 1 + i)%nat by lia.
           apply Hbefore; [lia | exact Hr'].
      * destruct (exportRequests reqs timeout (sent ++ [r])).2 as [err|].
        -- destruct Hlast as (r' & Hr' & Hpos & Herr). exists r'.
           replace (S n - 1)%nat with (S (n - 1)) by lia.
           split; [exact Hr'|]. split; [lia|].
           replace (length sent + S (n - 1))%nat with (length sent + 1 + (n - 1))%nat
             by lia.
           exact Herr.
        -- destruct Hlast as [-> Hall]. split; [reflexivity|].
           intros [|i] r' Hr'.
           ++ injection Hr' as <-. by rewrite Nat.add_0_r.
           ++ replace (length sent + S i)%nat with (length sent + 1 + i)%nat by lia.
              by apply Hall.
Qed.

End ExportFacts.

(* ===================================================================== *)
(** * Further properties: the environment                                  *)
(* ===================================================================== *)

Section EnvironmentFacts.
Context `{!Unicode, !Runtime}.

Lemma ToLower_ASCII_length (s : string) :
  isASCII s = true → String.length (ToLower s) = String.length s.
Proof.
  intros Hs. unfold ToLower. rewrite Hs. clear Hs.
  induction s as [|c s IH]; [reflexivity|]. cbn. by rewrite IH.
Qed.

Lemma ToLower_idempotent_lower (s : string) :
  isASCII s = true →
  Forall (λ c, ((65 <=? N_of_ascii c) && (N_of_ascii c <=? 90))%N = false)
    (list_ascii_of_string s) →
  ToLower s = s.
Proof.
  intros Hs Hlow. unfold ToLower. rewrite Hs. clear Hs.
  induction s as [|c s IH]; [reflexivity|]. cbn in *.
  apply Forall_cons in Hlow as [Hc Hlow]. unfold lower_byte at 1. rewrite Hc.
  f_equal. by apply IH.
Qed.

(** X20.  A flag is on only when it is spelled [true].  For a variable that
    is not set or is empty the default decides; for any other value of
    ASCII bytes the default plays no part and the flag is on exactly when
    the value, with its upper-case letters lowered, is ["true"]: so a flag
    whose default is on is switched off by ["1"], ["yes"] or ["on"]. *)
Theorem envBool_spelling :
  ∀ (environ : gmap string string) (key : string) (defaultValue : bool),
    (Getenv environ key = "" → envBool environ key defaultValue = defaultValue)
    ∧ (Getenv environ key ≠ "" → isASCII (Getenv environ key) = true →
       envBool environ key defaultValue
       = bool_decide (string_of_list_ascii
                        (lower_byte <$> list_ascii_of_string (Getenv environ key))
                      = "true")
       ∧ (4 ≠ String.length (Getenv environ key) →
          envBool environ key defaultValue = false)).
Proof.
  intros environ key defaultValue. unfold envBool. cbv zeta. split.
  - intros ->. reflexivity.
  - intros Hset Hascii.
    pose proof (ToLower_ASCII_length _ Hascii) as Hlen.
    assert (String.eqb (ToLower (Getenv environ key)) "" = false) as ->.
    { apply String.eqb_neq. intros Hempty. rewrite Hempty in Hlen.
      destruct (Getenv environ key); [by apply Hset | discriminate]. }
    split.
    + unfold ToLower. rewrite Hascii.
      destruct (String.eqb_spec
                  (string_of_list_ascii
                     (lower_byte <$> list_ascii_of_string (Getenv environ key))) "true")
        as [->|Hne].
      * by rewrite bool_decide_eq_true_2.
      * by rewrite bool_decide_eq_false_2.
    + intros Hfour. apply String.eqb_neq. intros Htrue. rewrite Htrue in Hlen.
      cbn in Hlen. congruence.
Qed.

End EnvironmentFacts.

Section EnvironmentWitness.

Lemma envBool_spelling_witness :
  @envBool SampleRuntime.unicode {[ "FILE_CACHE_ENABLED" := "1" ]}
    "FILE_CACHE_ENABLED" true = false.
Proof.
  apply (proj2 (@envBool_spelling SampleRuntime.unicode
                  {[ "FILE_CACHE_ENABLED" := "1" ]} "FILE_CACHE_ENABLED" true));
    [discriminate | reflexivity | discriminate].
Defined.

End EnvironmentWitness.

(* ===================================================================== *)
(** * Further properties: the handler                                      *)
(* ===================================================================== *)

Section HandlerFacts.
Context `{!Promutil, !GoModel, !JSON, !Tagging, !Associators, !Unicode, !Runtime}.
Context `{!Proto metricsservicepb.ExportMetricsServiceRequest}.

Lemma parseStaticLabels_returns (staticLabelsEnv : string) :
  ∃ res, parseStaticLabels staticLabelsEnv = Returns res.
Proof.
  unfold parseStaticLabels. destruct (String.eqb staticLabelsEnv ""); [eauto|].
  destruct (UnmarshalStrings staticLabelsEnv) as [rawLabels|]; [|eauto].
  destruct (decide (Forall (λ l, strings.Contains l "=" = true) rawLabels))
    as [Hall|Hbad].
  - rewrite (parseStaticLabels_loop_ok _ _ Hall). eauto.
  - destruct (parseStaticLabels_loop_bad rawLabels ∅ Hbad) as (m & e & ->). eauto.
Qed.

Lemma handlerSettings_returns (environ : gmap string string) :
  ∃ cfg,
    handlerSettings environ = Returns cfg
    ∧ region cfg = Some (Getenv environ "AWS_REGION")
    ∧ continueOnResourceFailure cfg = envBool environ "CONTINUE_ON_RESOURCE_FAILURE" true.
Proof.
  unfold handlerSettings.
  destruct (parseStaticLabels_returns (Getenv environ "STATIC_LABELS")) as [[labels e] ->].
  destruct (parseExportedTags _) as [tags e']. eexists. by repeat split.
Qed.

Lemma enriched_from_mono (cfg : Settings)
    (records records' : list events.KinesisFirehoseEventRecord)
    (r : metricsservicepb.ExportMetricsServiceRequest) :
  (∀ record, record ∈ records → record ∈ records') →
  enriched_from cfg records r → enriched_from cfg records' r.
Proof.
  intros Hsub (record & reqs & reqs' & st & st' & err & Hin & Hrest).
  exists record, reqs, reqs', st, st', err. split; [by apply Hsub | exact Hrest].
Qed.

Lemma exportRequests_prefix
    (reqs : list metricsservicepb.ExportMetricsServiceRequest) (timeout : Z)
    (sent : list metricsservicepb.ExportMetricsServiceRequest) :
  ∃ n, (exportRequests reqs timeout sent).1 = sent ++ take n reqs.
Proof.
  revert sent. induction reqs as [|r reqs IH]; intros sent; cbn [exportRequests].
  - exists 0%nat. cbn. by rewrite app_nil_r.
  - destruct (Export (length sent) timeout r).
    + by exists 1%nat.
    + destruct (IH (sent ++ [r])) as [n ->]. exists (S n). by rewrite <- app_assoc.
Qed.

Lemma loop_done_step (cfg : Settings) (c g : bool) (outputMode : string)
    (record : events.KinesisFirehoseEventRecord)
    (records : list events.KinesisFirehoseEventRecord)
    (response : events.KinesisFirehoseResponseRecord)
    (responseRecords : list events.KinesisFirehoseResponseRecord)
    (hs hs1 hs' : HandlerState)
    (res : list events.KinesisFirehoseResponseRecord + error) :
  answers cfg outputMode record response →
  (∃ extra, sent hs1 = sent hs ++ extra ∧ (g = false → extra = [])
            ∧ Forall (enriched_from cfg [record]) extra) →
  loop_done cfg c g outputMode records (responseRecords ++ [response]) hs1 res hs' →
  loop_done cfg c g outputMode (record :: records) responseRecords hs res hs'.
Proof.
  intros Hanswer (extra1 & Hsent1 & Hnone1 & Hfrom1)
    ((extra & Hsent & Hnone & Hfrom) & Hout & Herr).
  split; [|split].
  - exists (extra1 ++ extra). split; [by rewrite Hsent, Hsent1, <- app_assoc|].
    split; [intros Hg; by rewrite Hnone1, Hnone|].
    apply Forall_app. split.
    + eapply Forall_impl; [exact Hfrom1|]. intros r. apply enriched_from_mono.
      intros x Hx. apply list_elem_of_singleton in Hx as ->. apply list_elem_of_here.
    + eapply Forall_impl; [exact Hfrom|]. intros r. apply enriched_from_mono.
      intros x Hx. by apply list_elem_of_further.
  - intros out Hres. destruct (Hout out Hres) as (new & -> & Hnew).
    exists (response :: new). split; [by rewrite <- app_assoc | by constructor].
  - exact Herr.
Qed.

Lemma loop_done_stop (cfg : Settings) (c g : bool) (outputMode : string)
    (record : events.KinesisFirehoseEventRecord)
    (records : list events.KinesisFirehoseEventRecord)
    (responseRecords : list events.KinesisFirehoseResponseRecord)
    (hs hs' : HandlerState) (err : error) :
  (∃ extra, sent hs' = sent hs ++ extra ∧ (g = false → extra = [])
            ∧ Forall (enriched_from cfg [record]) extra) →
  c = false ∨ continueOnResourceFailure cfg = false →
  loop_done cfg c g outputMode (record :: records) responseRecords hs (inr err) hs'.
Proof.
  intros (extra & Hsent & Hnone & Hfrom) Hflags. split; [|split].
  - exists extra. split; [exact Hsent|]. split; [exact Hnone|].
    eapply Forall_impl; [exact Hfrom|]. intros r. apply enriched_from_mono.
    intros x Hx. apply list_elem_of_singleton in Hx as ->. apply list_elem_of_here.
  - discriminate.
  - by intros.
Qed.

Lemma answers_pass_through (cfg : Settings) (outputMode : string)
    (record : events.KinesisFirehoseEventRecord) :
  answers cfg outputMode record
    {| events.resp_RecordID := events.RecordID record;
       events.Result := "Ok";
       events.resp_Data := base64.encoded (events.Data record) |}.
Proof. split; [reflexivity|]. split; [reflexivity|]. by left. Qed.

Lemma lambdaHandler_loop_done (cfg : Settings) (c g : bool) (exportTimeout : Z)
    (outputMode : string)
    (records : list events.KinesisFirehoseEventRecord)
    (responseRecords : list events.KinesisFirehoseResponseRecord)
    (hs hs' : HandlerState)
    (res : list events.KinesisFirehoseResponseRecord + error) :
  lambdaHandler_loop cfg c g exportTimeout outputMode records responseRecords hs
  = Returns (res, hs') →
  loop_done cfg c g outputMode records responseRecords hs res hs'.
Proof.
  revert responseRecords hs.
  induction records as [|record records IH]; intros responseRecords hs;
    cbn [lambdaHandler_loop].
  { intros [= <- <-]. split; [|split; [|discriminate]].
    - exists []. by rewrite app_nil_r.
    - intros out [= <-]. exists []. split; [by rewrite app_nil_r | constructor]. }
  assert (∀ hs1 : HandlerState,
            sent hs1 = sent hs →
            ∃ extra, sent hs1 = sent hs ++ extra ∧ (g = false → extra = [])
                     ∧ Forall (enriched_from cfg [record]) extra) as Hnothing.
  { intros hs1 Hsame. exists []. by rewrite app_nil_r. }
  cbv zeta. unfold passThroughRecord. rewrite !buildResponseRecord_returns.
  destruct (rawDataIntoRequests (events.Data record)) as [[reqs [err|]]|] eqn:Hdec;
    [| |discriminate].
  { destruct c; cbn [negb].
    - intros Hloop. apply IH in Hloop.
      eapply loop_done_step; [ | | exact Hloop];
        [apply answers_pass_through | by apply Hnothing].
    - intros [= <- <-]. apply loop_done_stop; [by apply Hnothing | by left]. }
  destruct (enhanceRequests cfg reqs (enrichment hs)) as [[[reqs' st'] err]|] eqn:Henh;
    [|discriminate].
  cbn [sent].
  assert (∀ responseData,
            requestsIntoRawData reqs' = (responseData, None) →
            outputMode = "enhanced" →
            answers cfg outputMode record
              {| events.resp_RecordID := events.RecordID record;
                 events.Result := "Ok";
                 events.resp_Data := base64.encoded responseData |}) as Henhanced.
  { intros responseData Henc Hmode. split; [reflexivity|]. split; [reflexivity|].
    right. split; [exact Hmode|].
    by exists reqs, reqs', (enrichment hs), st', err, responseData. }
  assert (∀ (hs1 : HandlerState) sent1 e,
            g = true →
            exportRequests reqs' exportTimeout (sent hs) = (sent1, e) →
            sent hs1 = sent1 →
            ∃ extra, sent hs1 = sent hs ++ extra ∧ (g = false → extra = [])
                     ∧ Forall (enriched_from cfg [record]) extra) as Hexported.
  { intros hs1 sent1 e Hg Hexp ->.
    destruct (exportRequests_prefix reqs' exportTimeout (sent hs)) as [n Hn].
    rewrite Hexp in Hn. exists (take n reqs'). split; [exact Hn|].
    split; [congruence|]. apply Forall_forall. intros r Hr.
    exists record, reqs, reqs', (enrichment hs), st', err.
    split; [apply list_elem_of_here|]. split; [exact Hdec|]. split; [exact Henh|].
    by apply (subseteq_take n reqs'). }
  destruct (requestsIntoRawData reqs') as [responseData [encErr|]] eqn:Henc;
    rewrite ?buildResponseRecord_returns;
    destruct (String.eqb_spec outputMode "enhanced") as [Hmode|Hmode];
    destruct g eqn:Hg;
    try destruct (exportRequests reqs' exportTimeout (sent hs))
      as [sent1 [expErr|]] eqn:Hexp;
    destruct c; cbn [negb];
    destruct err as [err|]; try destruct (continueOnResourceFailure cfg) eqn:Hr;
    cbn [negb];
    first
      [ intros [= <- <-]; apply loop_done_stop;
        [ first [ by apply Hnothing | by eapply Hexported ]
        | (by left) || (by right) ]
      | intros Hloop; apply IH in Hloop;
        eapply loop_done_step; [ | | exact Hloop];
        [ first [ apply answers_pass_through | by apply Henhanced ]
        | first [ by apply Hnothing | by eapply Hexported ] ] ].
Qed.

(** With a region at hand the loop returns, when the decoder returns on the
    data of every record. *)
Lemma lambdaHandler_loop_returns (cfg : Settings) (c g : bool) (exportTimeout : Z)
    (outputMode reg : string)
    (records : list events.KinesisFirehoseEventRecord)
    (responseRecords : list events.KinesisFirehoseResponseRecord) (hs : HandlerState) :
  region cfg = Some reg →
  Forall (λ record, rawDataIntoRequests (events.Data record) ≠ None) records →
  ∃ res hs',
    lambdaHandler_loop cfg c g exportTimeout outputMode records responseRecords hs
    = Returns (res, hs').
Proof.
  intros Hreg Hdecoded. revert responseRecords hs.
  induction Hdecoded as [|record records Hrecord _ IH]; intros responseRecords hs;
    cbn [lambdaHandler_loop]; [eauto|].
  cbv zeta. unfold passThroughRecord. rewrite !buildResponseRecord_returns.
  destruct (rawDataIntoRequests (events.Data record)) as [[reqs err]|]; [|done].
  destruct err as [err|].
  { destruct (negb c); [eauto | apply IH]. }
  destruct (enhanceRequests_returns cfg reg Hreg reqs (enrichment hs))
    as [[[reqs' st'] err] ->].
  cbn [sent].
  destruct (requestsIntoRawData reqs') as [responseData [encErr|]];
    rewrite ?buildResponseRecord_returns;
    destruct (String.eqb outputMode "enhanced");
    destruct g;
    try destruct (exportRequests reqs' exportTimeout (sent hs)) as [sent1 [expErr|]];
    destruct c; cbn [negb];
    destruct err as [err|]; try destruct (continueOnResourceFailure cfg);
    cbn [negb]; first [ apply IH | by eexists _, _ ].
Qed.

End HandlerFacts.

Section HandlerTheorems.
Context `{!Promutil, !GoModel, !JSON, !Tagging, !Associators, !Unicode, !Runtime}.
Context `{!Proto metricsservicepb.ExportMetricsServiceRequest}.

(** How an invocation that returns has gone: it ended before the loop, on
    the factory or on the dial, with nothing done; or it ran the loop, with
    a client only if the endpoint is set and the dial went through. *)
Lemma lambdaHandler_run (environ : gmap string string)
    (request : list events.KinesisFirehoseEventRecord) (w : World)
    (res : list events.KinesisFirehoseResponseRecord + error) (hs : HandlerState) :
  let c := envBool environ "CONTINUE_ON_EXPORT_FAILURE" true in
  let outputMode := ToLower (envString environ "FIREHOSE_OUTPUT_MODE" "pass_through") in
  let endpoint := Getenv environ "OTEL_EXPORTER_OTLP_ENDPOINT" in
  let exportTimeout := envDuration environ "OTEL_EXPORTER_OTLP_TIMEOUT" (5 * time_Second) in
  let dial :=
    newGRPCConn endpoint (envBool environ "OTEL_EXPORTER_OTLP_INSECURE" true)
      exportTimeout in
  let hs0 :=
    {| enrichment := {| world := w; resourceCache := ∅; associatorCache := ∅ |};
       sent := [] |} in
  lambdaHandler environ request w = Returns (res, hs) →
  ∃ cfg,
    handlerSettings environ = Returns cfg
    ∧ ((∃ err, res = inr err ∧ hs = hs0
               ∧ (NewFactory (Getenv environ "AWS_REGION") = Some err
                  ∨ (dial = Some err ∧ c = false)))
       ∨ (NewFactory (Getenv environ "AWS_REGION") = None
          ∧ ∃ g, (g = true → endpoint ≠ "" ∧ dial = None)
                 ∧ lambdaHandler_loop cfg c g exportTimeout outputMode request [] hs0
                   = Returns (res, hs))).
Proof.
  cbv zeta. unfold lambdaHandler.
  destruct (handlerSettings_returns environ) as (cfg & -> & _). intros Hrun.
  exists cfg. split; [reflexivity|]. revert Hrun.
  destruct (NewFactory _) as [err|] eqn:Hfactory.
  { intros [= <- <-]. left. exists err. split; [reflexivity|]. split; [reflexivity|]. by left. }
  destruct (String.eqb_spec (Getenv environ "OTEL_EXPORTER_OTLP_ENDPOINT") "")
    as [Hempty|Hset]; cbn [negb].
  { intros Hloop. right. split; [reflexivity|]. exists false. by split. }
  destruct (newGRPCConn _ _ _) as [err|] eqn:Hdial.
  - destruct (envBool environ "CONTINUE_ON_EXPORT_FAILURE" true) eqn:Hc; cbn [negb].
    + intros Hloop. right. split; [reflexivity|]. exists false. by split.
    + intros [= <- <-]. left. exists err. split; [reflexivity|]. split; [reflexivity|]. by right.
  - intros Hloop. right. split; [reflexivity|]. exists true. by split.
Qed.

(** X21.  One answer per record.  When the handler returns a response, it
    holds one record for every record of the event, in the order of the
    event, each with the id of its record and the result ["Ok"]; the data is
    the base64 text of the data of the record as it came, or, in the output
    mode ["enhanced"], of the encoding of the enriched batch. *)
Theorem lambdaHandler_answers_every_record :
  ∀ (environ : gmap string string)
    (request : list events.KinesisFirehoseEventRecord) (w : World)
    (records : list events.KinesisFirehoseResponseRecord) (hs : HandlerState),
    lambdaHandler environ request w = Returns (inl records, hs) →
    ∃ cfg,
      handlerSettings environ = Returns cfg
      ∧ Forall2
          (answers cfg (ToLower (envString environ "FIREHOSE_OUTPUT_MODE" "pass_through")))
          request records.
Proof.
  intros environ request w records hs Hrun.
  apply lambdaHandler_run in Hrun as (cfg & Hcfg & [(err & [=] & _)|(_ & g & _ & Hloop)]).
  exists cfg. split; [exact Hcfg|].
  apply lambdaHandler_loop_done in Hloop as (_ & Hout & _).
  by destruct (Hout records eq_refl) as (new & -> & Hnew).
Qed.

(** X22.  Unless the output mode is ["enhanced"] (in any casing), Firehose
    gets back what it sent: every response record carries the base64 text
    of the data of its record, whatever the enrichment and the export did
    with it.  This is the case when the variable is not set. *)
Theorem lambdaHandler_pass_through :
  ∀ (environ : gmap string string)
    (request : list events.KinesisFirehoseEventRecord) (w : World)
    (records : list events.KinesisFirehoseResponseRecord) (hs : HandlerState),
    ToLower (envString environ "FIREHOSE_OUTPUT_MODE" "pass_through") ≠ "enhanced" →
    lambdaHandler environ request w = Returns (inl records, hs) →
    records
    = (λ record, {| events.resp_RecordID := events.RecordID record;
                    events.Result := "Ok";
                    events.resp_Data := base64.encoded (events.Data record) |})
        <$> request.
Proof.
  intros environ request w records hs Hmode Hrun.
  apply lambdaHandler_run in Hrun as (cfg & Hcfg & [(err & [=] & _)|(_ & g & _ & Hloop)]).
  apply lambdaHandler_loop_done in Hloop as (_ & Hout & _).
  destruct (Hout records eq_refl) as (new & -> & Hnew). cbn [app]. clear Hout.
  induction Hnew as [|record response request new (Hid & Hok & Hdata) _ IH];
    [reflexivity|].
  cbn [fmap list_fmap]. f_equal; [|exact IH].
  destruct response as [id result data]. cbn in *. subst id result.
  destruct Hdata as [->|[Henh _]]; [reflexivity | by destruct Hmode].
Qed.

(** X23.  Under the two continue-on-failure policies, which are the
    defaults, the only error the handler returns is that of the client
    factory: once the factory is there, and as long as the decoder returns
    on the data of every record (the runtime does not kill the process over
    the buffer of a message), the handler returns a response with a record
    for every record of the event, whatever fails on the way.  A record
    that announces a message the runtime refuses to allocate is the other
    case: when it is the first record the handler reaches, the handler does
    not return. *)
Theorem lambdaHandler_continue_policy :
  ∀ (environ : gmap string string)
    (request : list events.KinesisFirehoseEventRecord) (w : World),
    envBool environ "CONTINUE_ON_RESOURCE_FAILURE" true = true →
    envBool environ "CONTINUE_ON_EXPORT_FAILURE" true = true →
    (Forall (λ record, rawDataIntoRequests (events.Data record) ≠ None) request →
     match NewFactory (Getenv environ "AWS_REGION") with
     | Some err => ∃ hs, lambdaHandler environ request w = Returns (inr err, hs)
     | None =>
         ∃ records hs,
           lambdaHandler environ request w = Returns (inl records, hs)
           ∧ events.resp_RecordID <$> records = events.RecordID <$> request
     end)
    ∧ (∀ record rest,
         request = record :: rest →
         NewFactory (Getenv environ "AWS_REGION") = None →
         rawDataIntoRequests (events.Data record) = None →
         lambdaHandler environ request w = Panics).
Proof.
  intros environ request w Hresource Hexport. split.
  - intros Hdecoded.
    assert (∃ res hs, lambdaHandler environ request w = Returns (res, hs))
      as (res & hs & Hrun).
    { unfold lambdaHandler.
      destruct (handlerSettings_returns environ) as (cfg & -> & Hreg & _).
      destruct (NewFactory _); [eauto|].
      destruct (negb (String.eqb _ "")); [|by eapply lambdaHandler_loop_returns].
      destruct (newGRPCConn _ _ _); [|by eapply lambdaHandler_loop_returns].
      destruct (negb _); [eauto | by eapply lambdaHandler_loop_returns]. }
    pose proof Hrun as Hhow.
    apply lambdaHandler_run in Hhow
      as (cfg & Hcfg & [(err & -> & -> & [Hfactory|[_ Hc]])|(Hfactory & g & _ & Hloop)]).
    + rewrite Hfactory. eauto.
    + congruence.
    + rewrite Hfactory.
      destruct (handlerSettings_returns environ) as (cfg' & Hcfg' & _ & Hcont).
      assert (cfg' = cfg) as -> by congruence.
      apply lambdaHandler_loop_done in Hloop as (_ & Hout & Herr).
      destruct res as [records|err].
      * exists records, hs. split; [exact Hrun|].
        destruct (Hout records eq_refl) as (new & -> & Hnew). cbn [app]. clear Hout Hrun Hdecoded.
        induction Hnew as [|record response request new (Hid & _) _ IH]; [reflexivity|].
        cbn [fmap list_fmap]. by rewrite Hid, IH.
      * destruct (Herr err eq_refl); congruence.
  - intros record rest -> Hfactory Hdead. unfold lambdaHandler.
    destruct (handlerSettings_returns environ) as (cfg & -> & _ & _).
    rewrite Hfactory.
    assert (∀ c g t m hs,
              lambdaHandler_loop cfg c g t m (record :: rest) [] hs = Panics) as Hloop.
    { intros c g t m hs0. cbn [lambdaHandler_loop]. cbv zeta.
      unfold passThroughRecord. rewrite ?buildResponseRecord_returns.
      by rewrite Hdead. }
    destruct (negb (String.eqb _ "")); [|apply Hloop].
    destruct (newGRPCConn _ _ _) as [e|]; [|apply Hloop].
    rewrite Hexport. cbn [negb]. apply Hloop.
Qed.

(** X24.  Without a client nothing is exported: when the endpoint is not
    set, or the dial fails, no request is handed to the OTLP client in the
    whole invocation. *)
Theorem lambdaHandler_no_client_no_export :
  ∀ (environ : gmap string string)
    (request : list events.KinesisFirehoseEventRecord) (w : World)
    (res : list events.KinesisFirehoseResponseRecord + error) (hs : HandlerState),
    Getenv environ "OTEL_EXPORTER_OTLP_ENDPOINT" = ""
    ∨ (∀ creds timeout,
         is_Some (DialContext (Getenv environ "OTEL_EXPORTER_OTLP_ENDPOINT") creds timeout)) →
    lambdaHandler environ request w = Returns (res, hs) →
    sent hs = [].
Proof.
  intros environ request w res hs Hnone Hrun.
  apply lambdaHandler_run in Hrun
    as (cfg & Hcfg & [(err & _ & -> & _)|(_ & g & Hg & Hloop)]); [reflexivity|].
  apply lambdaHandler_loop_done in Hloop as ((extra & -> & Hextra & _) & _).
  cbn [sent app]. apply Hextra. destruct g; [|reflexivity].
  destruct (Hg eq_refl) as [Hset Hdial]. destruct Hnone as [Hempty|Hfails]; [done|].
  unfold newGRPCConn in Hdial.
  destruct (Hfails (if envBool environ "OTEL_EXPORTER_OTLP_INSECURE" true
                    then insecure_NewCredentials else credentials_NewClientTLSFromCert)
              (envDuration environ "OTEL_EXPORTER_OTLP_TIMEOUT" (5 * time_Second)))
    as [e He].
  congruence.
Qed.

End HandlerTheorems.

Section HandlerWitness.

Local Abbreviation sample_handler dial script :=
  (@lambdaHandler Sample.promutil Sample.gomodel Sample.json
     (Sample.client [([Sample.ec2Resource], None)]) Sample.associators
     SampleRuntime.unicode (SampleRuntime.runtime dial script) SampleRuntime.proto).

(** An event of a record that is enriched and exported and a record that
    does not decode: both come back as they were sent. *)
Lemma lambdaHandler_pass_through_witness :
  ∃ hs,
    sample_handler None [] SampleRuntime.endpoint SampleRuntime.records Sample.emptyWorld
    = Returns
        (inl [ {| events.resp_RecordID := "r-1"; events.Result := "Ok";
                  events.resp_Data := base64.encoded [x01; x01] |};
               {| events.resp_RecordID := "r-2"; events.Result := "Ok";
                  events.resp_Data := base64.encoded [x05; x00] |} ], hs)
    ∧ length (sent hs) = 1%nat.
Proof.
  pose (run := sample_handler None [] SampleRuntime.endpoint SampleRuntime.records
                 Sample.emptyWorld).
  pose (out := match run with
               | Returns (inl records, hs) => (records, hs)
               | _ => ([], {| enrichment := Sample.fresh; sent := [] |})
               end).
  assert (run = Returns (inl out.1, out.2)) as Hrun by (vm_compute; reflexivity).
  assert (out.1
          = (λ record, {| events.resp_RecordID := events.RecordID record;
                          events.Result := "Ok";
                          events.resp_Data := base64.encoded (events.Data record) |})
              <$> SampleRuntime.records) as Hrecords.
  { apply (@lambdaHandler_pass_through Sample.promutil Sample.gomodel Sample.json
             (Sample.client [([Sample.ec2Resource], None)]) Sample.associators
             SampleRuntime.unicode (SampleRuntime.runtime None []) SampleRuntime.proto
             SampleRuntime.endpoint SampleRuntime.records Sample.emptyWorld out.1 out.2);
      [vm_compute; discriminate | exact Hrun]. }
  exists out.2. split; [|vm_compute; reflexivity].
  fold run. rewrite Hrun, Hrecords. reflexivity.
Defined.

(** The same event in the output mode [Enhanced]. *)
Lemma lambdaHandler_answers_every_record_witness :
  let environ : gmap string string :=
    {[ "FIREHOSE_OUTPUT_MODE" := "Enhanced"; "AWS_REGION" := "us-east-1" ]} in
  ∃ records cfg,
    events.resp_RecordID <$> records = ["r-1"; "r-2"]
    ∧ @handlerSettings Sample.json SampleRuntime.unicode (SampleRuntime.runtime None [])
        environ = Returns cfg
    ∧ Forall2
        (@answers Sample.promutil Sample.gomodel Sample.json
           (Sample.client [([Sample.ec2Resource], None)]) Sample.associators
           SampleRuntime.proto cfg
           (@ToLower SampleRuntime.unicode
              (envString environ "FIREHOSE_OUTPUT_MODE" "pass_through")))
        SampleRuntime.records records.
Proof.
  intros environ.
  pose (run := sample_handler None [] environ SampleRuntime.records Sample.emptyWorld).
  pose (out := match run with
               | Returns (inl records, hs) => (records, hs)
               | _ => ([], {| enrichment := Sample.fresh; sent := [] |})
               end).
  assert (run = Returns (inl out.1, out.2)) as Hrun by (vm_compute; reflexivity).
  destruct (@lambdaHandler_answers_every_record Sample.promutil Sample.gomodel
              Sample.json (Sample.client [([Sample.ec2Resource], None)])
              Sample.associators SampleRuntime.unicode (SampleRuntime.runtime None [])
              SampleRuntime.proto environ SampleRuntime.records Sample.emptyWorld
              out.1 out.2 Hrun) as (cfg & Hcfg & Hanswers).
  exists out.1, cfg. split; [vm_compute; reflexivity|]. by split.
Defined.

(** The default policies, and a collector that refuses the dial. *)
Lemma lambdaHandler_continue_policy_witness :
  ∃ records hs,
    sample_handler (Some (errors_New "dial: deadline exceeded")) []
      SampleRuntime.endpoint SampleRuntime.records Sample.emptyWorld
    = Returns (inl records, hs)
    ∧ events.resp_RecordID <$> records = ["r-1"; "r-2"].
Proof.
  refine (proj1 (@lambdaHandler_continue_policy Sample.promutil Sample.gomodel
                   Sample.json (Sample.client [([Sample.ec2Resource], None)])
                   Sample.associators SampleRuntime.unicode
                   (SampleRuntime.runtime (Some (errors_New "dial: deadline exceeded")) [])
                   SampleRuntime.proto SampleRuntime.endpoint SampleRuntime.records
                   Sample.emptyWorld eq_refl eq_refl) _).
  repeat constructor; vm_compute; discriminate.
Defined.

Lemma lambdaHandler_no_client_no_export_witness :
  ∃ res hs,
    sample_handler None [] ∅ SampleRuntime.records Sample.emptyWorld = Returns (res, hs)
    ∧ sent hs = [].
Proof.
  pose (run := sample_handler None [] ∅ SampleRuntime.records Sample.emptyWorld).
  pose (out := match run with
               | Returns (res, hs) => (res, hs)
               | Panics => (inl [], {| enrichment := Sample.fresh; sent := [] |})
               end).
  assert (run = Returns (out.1, out.2)) as Hrun by (vm_compute; reflexivity).
  exists out.1, out.2. split; [exact Hrun|].
  apply (@lambdaHandler_no_client_no_export Sample.promutil Sample.gomodel Sample.json
           (Sample.client [([Sample.ec2Resource], None)]) Sample.associators
           SampleRuntime.unicode (SampleRuntime.runtime None []) SampleRuntime.proto
           ∅ SampleRuntime.records Sample.emptyWorld out.1 out.2); [|exact Hrun].
  left. reflexivity.
Defined.

End HandlerWitness.

(* ===================================================================== *)
(** * Further properties: statistics by default                            *)
(* ===================================================================== *)

Section DefaultStatistics.
Context `{!JSON}.

(** X25.  By default no percentile is exported.  With the selection of a
    [YACE_COMPAT_STATS] that is not set, the statistic of a quantile is
    enabled exactly when the quantile is 0 or 1, the minimum and the
    maximum: every other quantile of a summary, such as the median or p99,
    gives no gauge unless its name is listed. *)
Theorem parseYACEStats_default_quantiles :
  ∀ q : float,
    enabled (parseYACEStats "").1 (quantileToStatistic q)
    = (PrimFloat.eqb q 0 || PrimFloat.eqb q 1)%bool.
Proof.
  intros q.
  assert (∀ rest, enabled (parseYACEStats "").1 (String "p" rest) = false) as Hp.
  { intros rest. apply not_true_is_false. intros Hon.
    apply (enabled_fold_insert defaultYACEStats ∅) in Hon as [Hin|Hempty].
    - unfold defaultYACEStats in Hin.
      repeat (apply elem_of_cons in Hin as [Hin|Hin]; [discriminate|]).
      by apply elem_of_nil in Hin.
    - unfold enabled in Hempty. by rewrite lookup_empty in Hempty. }
  unfold quantileToStatistic.
  destruct (PrimFloat.eqb q 0); [reflexivity|].
  destruct (PrimFloat.eqb q 1); [reflexivity|].
  cbn [orb]. destruct (PrimFloat.eqb _ _); apply Hp.
Qed.

End DefaultStatistics.

Section HandlerMore.
Context `{!Promutil, !GoModel, !JSON, !Tagging, !Associators, !Unicode, !Runtime}.
Context `{!Proto metricsservicepb.ExportMetricsServiceRequest}.

(** X26.  What goes to the collector has been through the enrichment:
    every request handed to the OTLP client in an invocation is one that
    [enhanceRequests] returned for the batch decoded from one of the
    records of the event.  Nothing is exported from a record that does not
    decode, and nothing is exported as it was decoded. *)
Theorem lambdaHandler_exports_enriched :
  ∀ (environ : gmap string string)
    (request : list events.KinesisFirehoseEventRecord) (w : World)
    (res : list events.KinesisFirehoseResponseRecord + error) (hs : HandlerState),
    lambdaHandler environ request w = Returns (res, hs) →
    ∃ cfg,
      handlerSettings environ = Returns cfg
      ∧ Forall (enriched_from cfg request) (sent hs).
Proof.
  intros environ request w res hs Hrun.
  apply lambdaHandler_run in Hrun
    as (cfg & Hcfg & [(err & _ & -> & _)|(_ & g & _ & Hloop)]);
    (exists cfg; split; [exact Hcfg|]); [constructor|].
  by apply lambdaHandler_loop_done in Hloop as ((extra & -> & _ & Hfrom) & _).
Qed.

Lemma parseYACEStats_defaults (s : string) :
  enabled (parseYACEStats "").1 s = true ↔ s ∈ defaultYACEStats.
Proof.
  unfold parseYACEStats. cbn [String.eqb fst]. rewrite enabled_fold_insert.
  unfold enabled. rewrite lookup_empty. cbn. split; [intros [?|?]|]; auto; discriminate.
Qed.

(** X27.  A setting that does not parse never stops the handler.  The
    settings are built for every environment, and each bad value falls back
    on its own: static labels keep what was parsed before the bad entry, the
    exported tags become empty, the statistics become the five defaults, a
    duration that is empty or does not parse becomes its default, and an
    empty cache path becomes [/tmp]. *)
Theorem handlerSettings_fallbacks :
  ∀ environ : gmap string string,
    ∃ cfg,
      handlerSettings environ = Returns cfg
      ∧ region cfg = Some (Getenv environ "AWS_REGION")
      ∧ (∃ err, parseStaticLabels (Getenv environ "STATIC_LABELS")
                = Returns (staticLabels cfg, err))
      ∧ ((parseExportedTags (Getenv environ "EXPORTED_TAGS_ON_METRICS")).2 ≠ None →
         exportedTags cfg = [])
      ∧ ((parseYACEStats (Getenv environ "YACE_COMPAT_STATS")).2 ≠ None →
         ∀ s, enabled (yaceCompatStats cfg) s = true ↔ s ∈ defaultYACEStats)
      ∧ (Getenv environ "FILE_CACHE_EXPIRATION" = ""
         ∨ ParseDuration (Getenv environ "FILE_CACHE_EXPIRATION") = None →
         fileCacheExpiration cfg = time_Hour)
      ∧ (Getenv environ "FILE_CACHE_PATH" = "" → fileCachePath cfg = "/tmp").
Proof.
  intros environ. unfold handlerSettings.
  destruct (parseStaticLabels_returns (Getenv environ "STATIC_LABELS"))
    as [[labels e] Hlabels]. rewrite Hlabels.
  destruct (parseExportedTags _) as [tags tagsErr] eqn:Htags.
  eexists. split; [reflexivity|].
  cbn [region staticLabels exportedTags yaceCompatStats fileCacheExpiration
         fileCachePath].
  split; [reflexivity|]. split; [by exists e|]. split; [|split; [|split]].
  - revert Htags. unfold parseExportedTags.
    destruct (String.eqb _ ""); [by intros [= <- <-]|].
    destruct (UnmarshalStrings _); by intros [= <- <-].
  - destruct (parseYACEStats (Getenv environ "YACE_COMPAT_STATS")) as [stats [err|]];
      [|done].
    intros _ s. apply parseYACEStats_defaults.
  - unfold envDuration. intros [Hunset|Hbad].
    + rewrite Hunset. cbn [String.eqb negb]. apply Z.mul_1_l.
    + rewrite Hbad. destruct (negb _); apply Z.mul_1_l.
  - unfold envString. by intros ->.
Qed.

End HandlerMore.

Section HandlerMoreWitness.

(** The sample event with a collector that takes what it is sent: one
    request is exported, with the name the enrichment gave its summary. *)
Lemma lambdaHandler_exports_enriched_witness :
  ∃ (hs : @HandlerState Sample.associators) cfg,
    @handlerSettings Sample.json SampleRuntime.unicode (SampleRuntime.runtime None [])
      SampleRuntime.endpoint = Returns cfg
    ∧ Forall
        (@enriched_from Sample.promutil Sample.gomodel Sample.json
           (Sample.client [([Sample.ec2Resource], None)]) Sample.associators
           SampleRuntime.proto cfg SampleRuntime.records) (sent hs)
    ∧ metric_names (sent hs) = ["aws_ec2_cpuutilization"; "other"].
Proof.
  pose (run := @lambdaHandler Sample.promutil Sample.gomodel Sample.json
                 (Sample.client [([Sample.ec2Resource], None)]) Sample.associators
                 SampleRuntime.unicode (SampleRuntime.runtime None [])
                 SampleRuntime.proto SampleRuntime.endpoint SampleRuntime.records
                 Sample.emptyWorld).
  pose (out := match run with
               | Returns (res, hs) => (res, hs)
               | Panics => (inl [], {| enrichment := Sample.fresh; sent := [] |})
               end).
  assert (run = Returns (out.1, out.2)) as Hrun by (vm_compute; reflexivity).
  destruct (@lambdaHandler_exports_enriched Sample.promutil Sample.gomodel Sample.json
              (Sample.client [([Sample.ec2Resource], None)]) Sample.associators
              SampleRuntime.unicode (SampleRuntime.runtime None []) SampleRuntime.proto
              SampleRuntime.endpoint SampleRuntime.records Sample.emptyWorld
              out.1 out.2 Hrun) as (cfg & Hcfg & Hfrom).
  exists out.2, cfg. split; [exact Hcfg|]. split; [exact Hfrom|].
  vm_compute. reflexivity.
Defined.

End HandlerMoreWitness.

(* ===================================================================== *)
(** * Further properties: the label builder and Go's map order             *)
(* ===================================================================== *)

Section LabelOrder.
Context `{!Promutil, !GoModel}.
Import commonpb.

Lemma HasPrefix_append (prefix s : string) :
  strings.HasPrefix (prefix +:+ s) prefix = true.
Proof.
  induction prefix as [|c p IHp]; [apply HasPrefix_empty|].
  change (String c p +:+ s) with (String c (p +:+ s)).
  cbn [strings.HasPrefix]. by rewrite Ascii.eqb_refl.
Qed.

(** X28.  The order in which Go ranges over the static labels shows only
    at the end of the result.  Two calls with the same arguments give the
    same labels up to the order of the [custom_tag_] labels: the results
    share everything before those, and the [custom_tag_] labels of the one
    are a permutation of those of the other. *)
Theorem buildYACELabelsKeyValue_map_order :
  ∀ (seed seed' : nat) (cwm : model.Metric) (r : option model.TaggedResource)
    (skip : bool) (staticLabels : gmap string string)
    (defaultLabels labelsSnakeCase : bool) (exportedTags : list string)
    (region accountID : string),
    ∃ fixed custom custom',
      buildYACELabelsKeyValue seed cwm r skip staticLabels defaultLabels
        labelsSnakeCase exportedTags region accountID = fixed ++ custom
      ∧ buildYACELabelsKeyValue seed' cwm r skip staticLabels defaultLabels
          labelsSnakeCase exportedTags region accountID = fixed ++ custom'
      ∧ custom ≡ₚ custom'
      ∧ Forall (λ kv, strings.HasPrefix (GetKey kv) "custom_tag_" = true) custom
      ∧ (length custom <= size staticLabels)%nat.
Proof.
  intros seed seed' cwm r skip staticLabels defaultLabels snake exportedTags
    region accountID.
  unfold buildYACELabelsKeyValue. cbv zeta.
  match goal with
  | |- context [if (defaultLabels || matched r skip)%bool
                then appendCustomLabels snake ?out _ else _] => set (fixed := out)
  end.
  exists fixed.
  destruct (defaultLabels || matched r skip)%bool.
  - exists (labels_of "custom_tag_" snake (map_range seed staticLabels)),
      (labels_of "custom_tag_" snake (map_range seed' staticLabels)).
    rewrite !appendCustomLabels_labels_of. split; [reflexivity|]. split; [reflexivity|].
    split; [|split].
    + unfold labels_of. apply omap_Permutation.
      by rewrite !map_range_perm.
    + unfold labels_of. generalize (map_range seed staticLabels).
      induction l as [|kv l IH]; [constructor|]. cbn [omap list_omap].
      destruct (PromStringTag kv.1 snake) as [[] promTag]; [|exact IH].
      cbn [mbind option_bind]. constructor; [|exact IH]. apply HasPrefix_append.
    + rewrite <- length_map_to_list,
        <- (Permutation_length (map_range_perm seed staticLabels)).
      unfold labels_of. generalize (map_range seed staticLabels).
      induction l as [|kv l IH]; [reflexivity|]. cbn [omap list_omap length].
      destruct (PromStringTag kv.1 snake) as [[] promTag]; cbn [mbind option_bind length];
        lia.
  - exists [], []. rewrite app_nil_r. repeat split; try done. cbn. lia.
Qed.

End LabelOrder.
